(** * Star Run: the simulation core of [components/StarRunGame.tsx]

    A shallow embedding of the per-frame game logic (ship movement, status
    timers, obstacle motion, collision resolution, power-up collection,
    difficulty scaling and the viewer-action spawners) together with the
    properties stated about it.

    JavaScript numbers are modelled as rationals ([Q]).  The arithmetic of
    [updateDifficulty], whose rounding to two decimals and whose threshold
    tests depend on it, is carried out in double precision: every operation
    there is rounded to the nearest double ([F64.nearest], compared with the
    binary64 numbers of the kernel in [B64]).  Elsewhere the operations are
    exact.  [NaN] and the infinities are no rationals: the
    one place of the frame where they arise, the pull of the magnet on a
    power-up at distance 0, is modelled by setting that power-up aside
    ([attractPowerUp], [adrift]).  The integer counters of the source (the
    level counter of [updateDifficulty]) are [Z].  Calls to [Math.random]
    read successive draws of a supplied sequence, [Date.now], [Math.sqrt]
    and [Math.atan2] are parameters of the development. *)

From Stdlib Require Import QArith Qpower Qround Qabs Qminmax Lqa ZArith Lia List Bool.
From Stdlib Require PrimFloat FloatOps SpecFloat Uint63.
From stdpp Require Import gmap strings.
Import ListNotations.

Local Open Scope Q_scope.

(** ** JavaScript primitives *)

Module Js.

(** Truthiness of a value, as used by [||], [&&] and [if]. *)
Class Truthy (A : Type) := truthy : A -> bool.

#[global] Instance truthy_number : Truthy Q := fun q => negb (Qeq_bool q 0).
#[global] Instance truthy_boolean : Truthy bool := fun b => b.
#[global] Instance truthy_string : Truthy string :=
  fun s => negb (String.eqb s "").

(** [a || d] for a property [a] that may be absent ([None] is [undefined]). *)
Definition or {A : Type} `{Truthy A} (a : option A) (d : A) : A :=
  match a with
  | Some v => if truthy v then v else d
  | None => d
  end.

(** A property is falsy when it is absent or holds a falsy value. *)
Definition falsy {A : Type} `{Truthy A} (a : option A) : bool :=
  match a with
  | Some v => negb (truthy v)
  | None => true
  end.

(** Comparisons on numbers. *)
Definition lt (a b : Q) : bool := negb (Qle_bool b a).
Definition gt (a b : Q) : bool := lt b a.
Definition le (a b : Q) : bool := Qle_bool a b.
Definition ge (a b : Q) : bool := Qle_bool b a.

(** [Math.round]: the nearest integer, ties towards +infinity. *)
Definition round (a : Q) : Q := inject_Z (Qfloor (a + 0.5)).

(** [Math.floor]. *)
Definition floor (a : Q) : Q := inject_Z (Qfloor a).

End Js.

(** ** Double precision *)

(** IEEE 754 binary64 in its normal range: 53 significant bits, rounding to
    nearest, ties to the even significand.  Overflow and subnormal numbers
    are not modelled (the exponent is unbounded). *)
Module F64.

Definition pow2 (e : Z) : Q := 2 ^ e.

(** [2^e <= a < 2^(e+1)] *)
Definition inBinade (a : Q) (e : Z) : bool :=
  Qle_bool (pow2 e) a && negb (Qle_bool (pow2 (e + 1)) a).

(** The exponent [e] with [2^e <= a < 2^(e+1)], for [0 < a]: the difference
    of the bit lengths of numerator and denominator, or one less. *)
Definition binade (a : Q) : option Z :=
  let e0 := (Z.log2 (Qnum a) - Z.log2 (Zpos (Qden a)))%Z in
  if inBinade a e0 then Some e0
  else if inBinade a (e0 - 1) then Some (e0 - 1)%Z
  else None.

(** The nearest integer, ties to even. *)
Definition roundHalfEven (s : Q) : Z :=
  let f := Qfloor s in
  match Qcompare (s - inject_Z f) (1 # 2) with
  | Lt => f
  | Gt => (f + 1)%Z
  | Eq => if Z.even f then f else (f + 1)%Z
  end.

(** The double nearest to [x]: [x] in units of the last place of its
    binade, rounded to an integer.  Only 0 has no binade. *)
Definition nearest (x : Q) : Q :=
  match binade (Qabs x) with
  | None => x
  | Some e =>
    let ulp := pow2 (e - 52) in
    let m := inject_Z (roundHalfEven (Qabs x / ulp)) * ulp in
    if Qle_bool 0 x then m else - m
  end.

(** [+], [-], [*] and [/] on doubles. *)
Definition add (a b : Q) : Q := nearest (a + b).
Definition sub (a b : Q) : Q := nearest (a - b).
Definition mul (a b : Q) : Q := nearest (a * b).
Definition div (a b : Q) : Q := nearest (a / b).

End F64.


(** ** The data model of [types] *)

Module ObstacleType.
Inductive t : Type := asteroid | debris | enemy | meteor | blackhole | laser.
End ObstacleType.

Module PowerUpType.
Inductive t : Type :=
  shield | boost | bonus | multishot | timefreeze | magnet | invisibility.
End PowerUpType.

Module Rarity.
Inductive t : Type := common | rare | epic | legendary.
End Rarity.

Module SpawnSide.
Inductive t : Type := left | right | top | center | random | bottom.
End SpawnSide.

Module AiType.
Inductive t : Type := passive | aggressive | patrol | swarm | kamikaze.
End AiType.

Module AiState.
Inductive t : Type := idle | hunting | patrolling | attacking | fleeing.
End AiState.

(** The string literals of these unions are all non-empty, hence truthy. *)
#[global] Instance truthy_ObstacleType : Js.Truthy ObstacleType.t := fun _ => true.
#[global] Instance truthy_PowerUpType : Js.Truthy PowerUpType.t := fun _ => true.
#[global] Instance truthy_Rarity : Js.Truthy Rarity.t := fun _ => true.
#[global] Instance truthy_SpawnSide : Js.Truthy SpawnSide.t := fun _ => true.

(** Entity ids are template strings over [Date.now()], [Math.random()] and,
    for spawned bursts, the index in the burst; the model keeps the
    interpolated values. *)
Inductive EntityId : Type :=
| obstacle_id (now rnd : Q) (i : nat)
| powerup_id (now rnd : Q)
| viewer_powerup_id (now rnd : Q)
| viewer_obstacle_id (now rnd : Q).

Module Spaceship.

Record t : Type := mk {
  x : Q;
  y : Q;
  width : Q;
  height : Q;
  velocity : Q;
  boost : bool;
  boostTime : Q;
  shield : bool;
  shieldTime : Q;
  health : Q;
  maxHealth : Q;
  energy : Q;
  maxEnergy : Q;
  isInvisible : bool;
  invisibilityTime : Q;
  hasMultishot : bool;
  multishotTime : Q;
  hasMagnet : bool;
  magnetTime : Q;
  magnetRange : Q;
  isTimeFrozen : bool;
  timeFreezeTime : Q;
  screenShakeX : Q;
  screenShakeY : Q;
  screenShakeIntensity : Q
}.

Definition set_x (v : Q) (s : t) : t :=
  mk v (y s) (width s) (height s) (velocity s) (boost s) (boostTime s) (shield
  s) (shieldTime s) (health s) (maxHealth s) (energy s) (maxEnergy s)
  (isInvisible s) (invisibilityTime s) (hasMultishot s) (multishotTime s)
  (hasMagnet s) (magnetTime s) (magnetRange s) (isTimeFrozen s)
  (timeFreezeTime s) (screenShakeX s) (screenShakeY s) (screenShakeIntensity
  s).
Definition set_y (v : Q) (s : t) : t :=
  mk (x s) v (width s) (height s) (velocity s) (boost s) (boostTime s) (shield
  s) (shieldTime s) (health s) (maxHealth s) (energy s) (maxEnergy s)
  (isInvisible s) (invisibilityTime s) (hasMultishot s) (multishotTime s)
  (hasMagnet s) (magnetTime s) (magnetRange s) (isTimeFrozen s)
  (timeFreezeTime s) (screenShakeX s) (screenShakeY s) (screenShakeIntensity
  s).
Definition set_velocity (v : Q) (s : t) : t :=
  mk (x s) (y s) (width s) (height s) v (boost s) (boostTime s) (shield s)
  (shieldTime s) (health s) (maxHealth s) (energy s) (maxEnergy s)
  (isInvisible s) (invisibilityTime s) (hasMultishot s) (multishotTime s)
  (hasMagnet s) (magnetTime s) (magnetRange s) (isTimeFrozen s)
  (timeFreezeTime s) (screenShakeX s) (screenShakeY s) (screenShakeIntensity
  s).
Definition set_boost (v : bool) (s : t) : t :=
  mk (x s) (y s) (width s) (height s) (velocity s) v (boostTime s) (shield s)
  (shieldTime s) (health s) (maxHealth s) (energy s) (maxEnergy s)
  (isInvisible s) (invisibilityTime s) (hasMultishot s) (multishotTime s)
  (hasMagnet s) (magnetTime s) (magnetRange s) (isTimeFrozen s)
  (timeFreezeTime s) (screenShakeX s) (screenShakeY s) (screenShakeIntensity
  s).
Definition set_boostTime (v : Q) (s : t) : t :=
  mk (x s) (y s) (width s) (height s) (velocity s) (boost s) v (shield s)
  (shieldTime s) (health s) (maxHealth s) (energy s) (maxEnergy s)
  (isInvisible s) (invisibilityTime s) (hasMultishot s) (multishotTime s)
  (hasMagnet s) (magnetTime s) (magnetRange s) (isTimeFrozen s)
  (timeFreezeTime s) (screenShakeX s) (screenShakeY s) (screenShakeIntensity
  s).
Definition set_shield (v : bool) (s : t) : t :=
  mk (x s) (y s) (width s) (height s) (velocity s) (boost s) (boostTime s) v
  (shieldTime s) (health s) (maxHealth s) (energy s) (maxEnergy s)
  (isInvisible s) (invisibilityTime s) (hasMultishot s) (multishotTime s)
  (hasMagnet s) (magnetTime s) (magnetRange s) (isTimeFrozen s)
  (timeFreezeTime s) (screenShakeX s) (screenShakeY s) (screenShakeIntensity
  s).
Definition set_shieldTime (v : Q) (s : t) : t :=
  mk (x s) (y s) (width s) (height s) (velocity s) (boost s) (boostTime s)
  (shield s) v (health s) (maxHealth s) (energy s) (maxEnergy s) (isInvisible
  s) (invisibilityTime s) (hasMultishot s) (multishotTime s) (hasMagnet s)
  (magnetTime s) (magnetRange s) (isTimeFrozen s) (timeFreezeTime s)
  (screenShakeX s) (screenShakeY s) (screenShakeIntensity s).
Definition set_health (v : Q) (s : t) : t :=
  mk (x s) (y s) (width s) (height s) (velocity s) (boost s) (boostTime s)
  (shield s) (shieldTime s) v (maxHealth s) (energy s) (maxEnergy s)
  (isInvisible s) (invisibilityTime s) (hasMultishot s) (multishotTime s)
  (hasMagnet s) (magnetTime s) (magnetRange s) (isTimeFrozen s)
  (timeFreezeTime s) (screenShakeX s) (screenShakeY s) (screenShakeIntensity
  s).
Definition set_isInvisible (v : bool) (s : t) : t :=
  mk (x s) (y s) (width s) (height s) (velocity s) (boost s) (boostTime s)
  (shield s) (shieldTime s) (health s) (maxHealth s) (energy s) (maxEnergy s)
  v (invisibilityTime s) (hasMultishot s) (multishotTime s) (hasMagnet s)
  (magnetTime s) (magnetRange s) (isTimeFrozen s) (timeFreezeTime s)
  (screenShakeX s) (screenShakeY s) (screenShakeIntensity s).
Definition set_invisibilityTime (v : Q) (s : t) : t :=
  mk (x s) (y s) (width s) (height s) (velocity s) (boost s) (boostTime s)
  (shield s) (shieldTime s) (health s) (maxHealth s) (energy s) (maxEnergy s)
  (isInvisible s) v (hasMultishot s) (multishotTime s) (hasMagnet s)
  (magnetTime s) (magnetRange s) (isTimeFrozen s) (timeFreezeTime s)
  (screenShakeX s) (screenShakeY s) (screenShakeIntensity s).
Definition set_hasMultishot (v : bool) (s : t) : t :=
  mk (x s) (y s) (width s) (height s) (velocity s) (boost s) (boostTime s)
  (shield s) (shieldTime s) (health s) (maxHealth s) (energy s) (maxEnergy s)
  (isInvisible s) (invisibilityTime s) v (multishotTime s) (hasMagnet s)
  (magnetTime s) (magnetRange s) (isTimeFrozen s) (timeFreezeTime s)
  (screenShakeX s) (screenShakeY s) (screenShakeIntensity s).
Definition set_multishotTime (v : Q) (s : t) : t :=
  mk (x s) (y s) (width s) (height s) (velocity s) (boost s) (boostTime s)
  (shield s) (shieldTime s) (health s) (maxHealth s) (energy s) (maxEnergy s)
  (isInvisible s) (invisibilityTime s) (hasMultishot s) v (hasMagnet s)
  (magnetTime s) (magnetRange s) (isTimeFrozen s) (timeFreezeTime s)
  (screenShakeX s) (screenShakeY s) (screenShakeIntensity s).
Definition set_hasMagnet (v : bool) (s : t) : t :=
  mk (x s) (y s) (width s) (height s) (velocity s) (boost s) (boostTime s)
  (shield s) (shieldTime s) (health s) (maxHealth s) (energy s) (maxEnergy s)
  (isInvisible s) (invisibilityTime s) (hasMultishot s) (multishotTime s) v
  (magnetTime s) (magnetRange s) (isTimeFrozen s) (timeFreezeTime s)
  (screenShakeX s) (screenShakeY s) (screenShakeIntensity s).
Definition set_magnetTime (v : Q) (s : t) : t :=
  mk (x s) (y s) (width s) (height s) (velocity s) (boost s) (boostTime s)
  (shield s) (shieldTime s) (health s) (maxHealth s) (energy s) (maxEnergy s)
  (isInvisible s) (invisibilityTime s) (hasMultishot s) (multishotTime s)
  (hasMagnet s) v (magnetRange s) (isTimeFrozen s) (timeFreezeTime s)
  (screenShakeX s) (screenShakeY s) (screenShakeIntensity s).
Definition set_magnetRange (v : Q) (s : t) : t :=
  mk (x s) (y s) (width s) (height s) (velocity s) (boost s) (boostTime s)
  (shield s) (shieldTime s) (health s) (maxHealth s) (energy s) (maxEnergy s)
  (isInvisible s) (invisibilityTime s) (hasMultishot s) (multishotTime s)
  (hasMagnet s) (magnetTime s) v (isTimeFrozen s) (timeFreezeTime s)
  (screenShakeX s) (screenShakeY s) (screenShakeIntensity s).
Definition set_isTimeFrozen (v : bool) (s : t) : t :=
  mk (x s) (y s) (width s) (height s) (velocity s) (boost s) (boostTime s)
  (shield s) (shieldTime s) (health s) (maxHealth s) (energy s) (maxEnergy s)
  (isInvisible s) (invisibilityTime s) (hasMultishot s) (multishotTime s)
  (hasMagnet s) (magnetTime s) (magnetRange s) v (timeFreezeTime s)
  (screenShakeX s) (screenShakeY s) (screenShakeIntensity s).
Definition set_timeFreezeTime (v : Q) (s : t) : t :=
  mk (x s) (y s) (width s) (height s) (velocity s) (boost s) (boostTime s)
  (shield s) (shieldTime s) (health s) (maxHealth s) (energy s) (maxEnergy s)
  (isInvisible s) (invisibilityTime s) (hasMultishot s) (multishotTime s)
  (hasMagnet s) (magnetTime s) (magnetRange s) (isTimeFrozen s) v
  (screenShakeX s) (screenShakeY s) (screenShakeIntensity s).
Definition set_screenShakeX (v : Q) (s : t) : t :=
  mk (x s) (y s) (width s) (height s) (velocity s) (boost s) (boostTime s)
  (shield s) (shieldTime s) (health s) (maxHealth s) (energy s) (maxEnergy s)
  (isInvisible s) (invisibilityTime s) (hasMultishot s) (multishotTime s)
  (hasMagnet s) (magnetTime s) (magnetRange s) (isTimeFrozen s)
  (timeFreezeTime s) v (screenShakeY s) (screenShakeIntensity s).
Definition set_screenShakeY (v : Q) (s : t) : t :=
  mk (x s) (y s) (width s) (height s) (velocity s) (boost s) (boostTime s)
  (shield s) (shieldTime s) (health s) (maxHealth s) (energy s) (maxEnergy s)
  (isInvisible s) (invisibilityTime s) (hasMultishot s) (multishotTime s)
  (hasMagnet s) (magnetTime s) (magnetRange s) (isTimeFrozen s)
  (timeFreezeTime s) (screenShakeX s) v (screenShakeIntensity s).
Definition set_screenShakeIntensity (v : Q) (s : t) : t :=
  mk (x s) (y s) (width s) (height s) (velocity s) (boost s) (boostTime s)
  (shield s) (shieldTime s) (health s) (maxHealth s) (energy s) (maxEnergy s)
  (isInvisible s) (invisibilityTime s) (hasMultishot s) (multishotTime s)
  (hasMagnet s) (magnetTime s) (magnetRange s) (isTimeFrozen s)
  (timeFreezeTime s) (screenShakeX s) (screenShakeY s) v.

End Spaceship.

Module GameState.

Record t : Type := mk {
  width : Q;
  height : Q;
  isGameOver : bool;
  score : Q;
  highScore : Q;
  newHighScore : bool;
  gameSpeed : Q;
  paused : bool;
  gameLoopTimeout : Q;
  timeoutId : Q;
  difficultyLevel : Q;
  obstacleSpawnRate : Q;
  powerUpSpawnRate : Q;
  obstacleSpeedMultiplier : Q;
  obstacleSizeMultiplier : Q;
  obstacleCountMultiplier : Q;
  powerUpRarity : Q;
  screenShakeIntensity : Q;
  gravityWellActive : bool;
  gravityWellStrength : Q;
  meteorShowerActive : bool;
  meteorShowerIntensity : Q
}.

Definition set_isGameOver (v : bool) (s : t) : t :=
  mk (width s) (height s) v (score s) (highScore s) (newHighScore s)
  (gameSpeed s) (paused s) (gameLoopTimeout s) (timeoutId s) (difficultyLevel
  s) (obstacleSpawnRate s) (powerUpSpawnRate s) (obstacleSpeedMultiplier s)
  (obstacleSizeMultiplier s) (obstacleCountMultiplier s) (powerUpRarity s)
  (screenShakeIntensity s) (gravityWellActive s) (gravityWellStrength s)
  (meteorShowerActive s) (meteorShowerIntensity s).
Definition set_score (v : Q) (s : t) : t :=
  mk (width s) (height s) (isGameOver s) v (highScore s) (newHighScore s)
  (gameSpeed s) (paused s) (gameLoopTimeout s) (timeoutId s) (difficultyLevel
  s) (obstacleSpawnRate s) (powerUpSpawnRate s) (obstacleSpeedMultiplier s)
  (obstacleSizeMultiplier s) (obstacleCountMultiplier s) (powerUpRarity s)
  (screenShakeIntensity s) (gravityWellActive s) (gravityWellStrength s)
  (meteorShowerActive s) (meteorShowerIntensity s).
Definition set_highScore (v : Q) (s : t) : t :=
  mk (width s) (height s) (isGameOver s) (score s) v (newHighScore s)
  (gameSpeed s) (paused s) (gameLoopTimeout s) (timeoutId s) (difficultyLevel
  s) (obstacleSpawnRate s) (powerUpSpawnRate s) (obstacleSpeedMultiplier s)
  (obstacleSizeMultiplier s) (obstacleCountMultiplier s) (powerUpRarity s)
  (screenShakeIntensity s) (gravityWellActive s) (gravityWellStrength s)
  (meteorShowerActive s) (meteorShowerIntensity s).
Definition set_newHighScore (v : bool) (s : t) : t :=
  mk (width s) (height s) (isGameOver s) (score s) (highScore s) v (gameSpeed
  s) (paused s) (gameLoopTimeout s) (timeoutId s) (difficultyLevel s)
  (obstacleSpawnRate s) (powerUpSpawnRate s) (obstacleSpeedMultiplier s)
  (obstacleSizeMultiplier s) (obstacleCountMultiplier s) (powerUpRarity s)
  (screenShakeIntensity s) (gravityWellActive s) (gravityWellStrength s)
  (meteorShowerActive s) (meteorShowerIntensity s).
Definition set_gameSpeed (v : Q) (s : t) : t :=
  mk (width s) (height s) (isGameOver s) (score s) (highScore s) (newHighScore
  s) v (paused s) (gameLoopTimeout s) (timeoutId s) (difficultyLevel s)
  (obstacleSpawnRate s) (powerUpSpawnRate s) (obstacleSpeedMultiplier s)
  (obstacleSizeMultiplier s) (obstacleCountMultiplier s) (powerUpRarity s)
  (screenShakeIntensity s) (gravityWellActive s) (gravityWellStrength s)
  (meteorShowerActive s) (meteorShowerIntensity s).
Definition set_difficultyLevel (v : Q) (s : t) : t :=
  mk (width s) (height s) (isGameOver s) (score s) (highScore s) (newHighScore
  s) (gameSpeed s) (paused s) (gameLoopTimeout s) (timeoutId s) v
  (obstacleSpawnRate s) (powerUpSpawnRate s) (obstacleSpeedMultiplier s)
  (obstacleSizeMultiplier s) (obstacleCountMultiplier s) (powerUpRarity s)
  (screenShakeIntensity s) (gravityWellActive s) (gravityWellStrength s)
  (meteorShowerActive s) (meteorShowerIntensity s).
Definition set_obstacleSpawnRate (v : Q) (s : t) : t :=
  mk (width s) (height s) (isGameOver s) (score s) (highScore s) (newHighScore
  s) (gameSpeed s) (paused s) (gameLoopTimeout s) (timeoutId s)
  (difficultyLevel s) v (powerUpSpawnRate s) (obstacleSpeedMultiplier s)
  (obstacleSizeMultiplier s) (obstacleCountMultiplier s) (powerUpRarity s)
  (screenShakeIntensity s) (gravityWellActive s) (gravityWellStrength s)
  (meteorShowerActive s) (meteorShowerIntensity s).
Definition set_powerUpSpawnRate (v : Q) (s : t) : t :=
  mk (width s) (height s) (isGameOver s) (score s) (highScore s) (newHighScore
  s) (gameSpeed s) (paused s) (gameLoopTimeout s) (timeoutId s)
  (difficultyLevel s) (obstacleSpawnRate s) v (obstacleSpeedMultiplier s)
  (obstacleSizeMultiplier s) (obstacleCountMultiplier s) (powerUpRarity s)
  (screenShakeIntensity s) (gravityWellActive s) (gravityWellStrength s)
  (meteorShowerActive s) (meteorShowerIntensity s).

End GameState.

Module Obstacle.

Record t : Type := mk {
  x : Q;
  y : Q;
  width : Q;
  height : Q;
  type : ObstacleType.t;
  speed : Q;
  id : EntityId;
  rotation : Q;
  rotationSpeed : Q;
  health : option Q;
  damage : option Q;
  isTracking : option bool;
  trackingSpeed : option Q;
  isBouncing : option bool;
  bounceCount : option Q;
  maxBounces : option Q;
  isExplosive : option bool;
  explosionRadius : option Q;
  isInvulnerable : option bool;
  invulnerabilityTime : option Q;
  velocityX : Q;
  velocityY : Q;
  spawnSide : SpawnSide.t;
  diagonalAngle : Q;
  gravity : Q;
  bounceEnergy : Q;
  aiType : AiType.t;
  aiState : AiState.t;
  aiTimer : Q;
  aiCooldown : Q;
  patrolPoints : list (Q * Q);
  currentPatrolIndex : Q;
  swarmCenter : Q * Q;
  avoidanceRadius : Q;
  maxSpeed : Q;
  acceleration : Q;
  friction : Q
}.

Definition set_x (v : Q) (s : t) : t :=
  mk v (y s) (width s) (height s) (type s) (speed s) (id s) (rotation s)
  (rotationSpeed s) (health s) (damage s) (isTracking s) (trackingSpeed s)
  (isBouncing s) (bounceCount s) (maxBounces s) (isExplosive s)
  (explosionRadius s) (isInvulnerable s) (invulnerabilityTime s) (velocityX s)
  (velocityY s) (spawnSide s) (diagonalAngle s) (gravity s) (bounceEnergy s)
  (aiType s) (aiState s) (aiTimer s) (aiCooldown s) (patrolPoints s)
  (currentPatrolIndex s) (swarmCenter s) (avoidanceRadius s) (maxSpeed s)
  (acceleration s) (friction s).
Definition set_y (v : Q) (s : t) : t :=
  mk (x s) v (width s) (height s) (type s) (speed s) (id s) (rotation s)
  (rotationSpeed s) (health s) (damage s) (isTracking s) (trackingSpeed s)
  (isBouncing s) (bounceCount s) (maxBounces s) (isExplosive s)
  (explosionRadius s) (isInvulnerable s) (invulnerabilityTime s) (velocityX s)
  (velocityY s) (spawnSide s) (diagonalAngle s) (gravity s) (bounceEnergy s)
  (aiType s) (aiState s) (aiTimer s) (aiCooldown s) (patrolPoints s)
  (currentPatrolIndex s) (swarmCenter s) (avoidanceRadius s) (maxSpeed s)
  (acceleration s) (friction s).
Definition set_rotation (v : Q) (s : t) : t :=
  mk (x s) (y s) (width s) (height s) (type s) (speed s) (id s) v
  (rotationSpeed s) (health s) (damage s) (isTracking s) (trackingSpeed s)
  (isBouncing s) (bounceCount s) (maxBounces s) (isExplosive s)
  (explosionRadius s) (isInvulnerable s) (invulnerabilityTime s) (velocityX s)
  (velocityY s) (spawnSide s) (diagonalAngle s) (gravity s) (bounceEnergy s)
  (aiType s) (aiState s) (aiTimer s) (aiCooldown s) (patrolPoints s)
  (currentPatrolIndex s) (swarmCenter s) (avoidanceRadius s) (maxSpeed s)
  (acceleration s) (friction s).
Definition set_velocityX (v : Q) (s : t) : t :=
  mk (x s) (y s) (width s) (height s) (type s) (speed s) (id s) (rotation s)
  (rotationSpeed s) (health s) (damage s) (isTracking s) (trackingSpeed s)
  (isBouncing s) (bounceCount s) (maxBounces s) (isExplosive s)
  (explosionRadius s) (isInvulnerable s) (invulnerabilityTime s) v (velocityY
  s) (spawnSide s) (diagonalAngle s) (gravity s) (bounceEnergy s) (aiType s)
  (aiState s) (aiTimer s) (aiCooldown s) (patrolPoints s) (currentPatrolIndex
  s) (swarmCenter s) (avoidanceRadius s) (maxSpeed s) (acceleration s)
  (friction s).
Definition set_velocityY (v : Q) (s : t) : t :=
  mk (x s) (y s) (width s) (height s) (type s) (speed s) (id s) (rotation s)
  (rotationSpeed s) (health s) (damage s) (isTracking s) (trackingSpeed s)
  (isBouncing s) (bounceCount s) (maxBounces s) (isExplosive s)
  (explosionRadius s) (isInvulnerable s) (invulnerabilityTime s) (velocityX s)
  v (spawnSide s) (diagonalAngle s) (gravity s) (bounceEnergy s) (aiType s)
  (aiState s) (aiTimer s) (aiCooldown s) (patrolPoints s) (currentPatrolIndex
  s) (swarmCenter s) (avoidanceRadius s) (maxSpeed s) (acceleration s)
  (friction s).

End Obstacle.

Module PowerUp.

Record t : Type := mk {
  x : Q;
  y : Q;
  width : Q;
  height : Q;
  type : PowerUpType.t;
  points : Q;
  id : EntityId;
  duration : Q;
  rarity : Rarity.t;
  effectStrength : Q;
  isPulsing : option bool;
  pulseSpeed : option Q;
  isRotating : option bool;
  rotationSpeed : option Q;
  isTracking : option bool;
  trackingRange : option Q
}.


End PowerUp.

(** ** The mutable references of the component

    [gameStateRef], [spaceshipRef], [obstaclesRef] and [powerUpsRef], the
    calls made to the [onGameOver] callback (score, distance) and the value
    written to [localStorage] under ["starRunHighScore"]. *)

Record World : Type := mkWorld {
  gameState : GameState.t;
  ship : Spaceship.t;
  obstacles : list Obstacle.t;
  powerUps : list PowerUp.t;
  onGameOver : list (Q * Q);
  starRunHighScore : Q
}.

Definition with_gameState (g : GameState.t) (w : World) : World :=
  mkWorld g (ship w) (obstacles w) (powerUps w) (onGameOver w)
    (starRunHighScore w).
Definition with_ship (s : Spaceship.t) (w : World) : World :=
  mkWorld (gameState w) s (obstacles w) (powerUps w) (onGameOver w)
    (starRunHighScore w).
Definition with_obstacles (l : list Obstacle.t) (w : World) : World :=
  mkWorld (gameState w) (ship w) l (powerUps w) (onGameOver w)
    (starRunHighScore w).
Definition with_powerUps (l : list PowerUp.t) (w : World) : World :=
  mkWorld (gameState w) (ship w) (obstacles w) l (onGameOver w)
    (starRunHighScore w).
Definition with_onGameOver (l : list (Q * Q)) (w : World) : World :=
  mkWorld (gameState w) (ship w) (obstacles w) (powerUps w) l
    (starRunHighScore w).
Definition with_starRunHighScore (v : Q) (w : World) : World :=
  mkWorld (gameState w) (ship w) (obstacles w) (powerUps w) (onGameOver w) v.

(** The initial values of the references; [stored] is the high score read
    from [localStorage] when the component mounts. *)
Definition initialGameState (stored : Q) : GameState.t :=
  {| GameState.width := 800;
     GameState.height := 600;
     GameState.isGameOver := false;
     GameState.score := 0;
     GameState.highScore := Js.or (Some stored) 0;
     GameState.newHighScore := false;
     GameState.gameSpeed := 2;
     GameState.paused := false;
     GameState.gameLoopTimeout := 16;
     GameState.timeoutId := 0;
     GameState.difficultyLevel := 1;
     GameState.obstacleSpawnRate := 1800;
     GameState.powerUpSpawnRate := 5000;
     GameState.obstacleSpeedMultiplier := 1;
     GameState.obstacleSizeMultiplier := 1;
     GameState.obstacleCountMultiplier := 1;
     GameState.powerUpRarity := 1;
     GameState.screenShakeIntensity := 0;
     GameState.gravityWellActive := false;
     GameState.gravityWellStrength := 0;
     GameState.meteorShowerActive := false;
     GameState.meteorShowerIntensity := 0 |}.

Definition initialSpaceship : Spaceship.t :=
  {| Spaceship.x := 400;
     Spaceship.y := 500;
     Spaceship.width := 40;
     Spaceship.height := 30;
     Spaceship.velocity := 0;
     Spaceship.boost := false;
     Spaceship.boostTime := 0;
     Spaceship.shield := false;
     Spaceship.shieldTime := 0;
     Spaceship.health := 100;
     Spaceship.maxHealth := 100;
     Spaceship.energy := 100;
     Spaceship.maxEnergy := 100;
     Spaceship.isInvisible := false;
     Spaceship.invisibilityTime := 0;
     Spaceship.hasMultishot := false;
     Spaceship.multishotTime := 0;
     Spaceship.hasMagnet := false;
     Spaceship.magnetTime := 0;
     Spaceship.magnetRange := 50;
     Spaceship.isTimeFrozen := false;
     Spaceship.timeFreezeTime := 0;
     Spaceship.screenShakeX := 0;
     Spaceship.screenShakeY := 0;
     Spaceship.screenShakeIntensity := 0 |}.

Definition initialWorld (stored : Q) : World :=
  {| gameState := initialGameState stored;
     ship := initialSpaceship;
     obstacles := [];
     powerUps := [];
     onGameOver := [];
     starRunHighScore := stored |}.

(** ** [updateGame]: ship movement, boost and status timers *)

(** [keysRef.current.has(code)] *)
Definition has (code : string) (keys : gset string) : bool :=
  bool_decide (code ∈ keys).

Definition moveSpeed : Q := 8.

Definition moveX (keys : gset string) : Q :=
  let moveX := 0 in
  let moveX :=
    if has "ArrowLeft" keys || has "KeyA" keys then - moveSpeed else moveX in
  let moveX :=
    if has "ArrowRight" keys || has "KeyD" keys then moveSpeed else moveX in
  moveX.

Definition moveY (keys : gset string) : Q :=
  let moveY := 0 in
  let moveY :=
    if has "ArrowUp" keys || has "KeyW" keys then - moveSpeed else moveY in
  let moveY :=
    if has "ArrowDown" keys || has "KeyS" keys then moveSpeed else moveY in
  moveY.

(** The two position assignments of [updateGame]. *)
Definition moveShip (keys : gset string) (g : GameState.t) (s : Spaceship.t)
  : Spaceship.t :=
  let s :=
    Spaceship.set_x
      (Qmax 0 (Qmin (GameState.width g - Spaceship.width s)
                    (Spaceship.x s + moveX keys + Spaceship.screenShakeX s)))
      s in
  Spaceship.set_y
    (Qmax 0 (Qmin (GameState.height g - Spaceship.height s)
                  (Spaceship.y s + moveY keys + Spaceship.screenShakeY s)))
    s.

(** Screen shake decay; [r1] and [r2] are the two [Math.random()] draws. *)
Definition updateScreenShake (r1 r2 : Q) (s : Spaceship.t) : Spaceship.t :=
  if Js.gt (Spaceship.screenShakeIntensity s) 0 then
    let s :=
      Spaceship.set_screenShakeX
        ((r1 - 0.5) * Spaceship.screenShakeIntensity s) s in
    let s :=
      Spaceship.set_screenShakeY
        ((r2 - 0.5) * Spaceship.screenShakeIntensity s) s in
    let s :=
      Spaceship.set_screenShakeIntensity
        (Spaceship.screenShakeIntensity s * 0.9) s in
    if Js.lt (Spaceship.screenShakeIntensity s) 0.1 then
      Spaceship.set_screenShakeY 0
        (Spaceship.set_screenShakeX 0
           (Spaceship.set_screenShakeIntensity 0 s))
    else s
  else s.

(** "Handle boost with x2 speed multiplier" *)
Definition updateBoost (keys : gset string) (deltaTime : Q) (s : Spaceship.t)
  : Spaceship.t :=
  if has "Space" keys && Js.gt (Spaceship.boostTime s) 0 then
    let s := Spaceship.set_velocity (moveSpeed * 2) s in
    let s := Spaceship.set_boost true s in
    Spaceship.set_boostTime (Qmax 0 (Spaceship.boostTime s - deltaTime)) s
  else
    let s := Spaceship.set_velocity moveSpeed s in
    Spaceship.set_boost false s.

(** The five status timers. *)
Definition updateTimers (deltaTime : Q) (s : Spaceship.t) : Spaceship.t :=
  let s :=
    if Js.gt (Spaceship.shieldTime s) 0 then
      let s :=
        Spaceship.set_shieldTime
          (Qmax 0 (Spaceship.shieldTime s - deltaTime)) s in
      Spaceship.set_shield (Js.gt (Spaceship.shieldTime s) 0) s
    else s in
  let s :=
    if Js.gt (Spaceship.invisibilityTime s) 0 then
      let s :=
        Spaceship.set_invisibilityTime
          (Qmax 0 (Spaceship.invisibilityTime s - deltaTime)) s in
      Spaceship.set_isInvisible (Js.gt (Spaceship.invisibilityTime s) 0) s
    else s in
  let s :=
    if Js.gt (Spaceship.multishotTime s) 0 then
      let s :=
        Spaceship.set_multishotTime
          (Qmax 0 (Spaceship.multishotTime s - deltaTime)) s in
      Spaceship.set_hasMultishot (Js.gt (Spaceship.multishotTime s) 0) s
    else s in
  let s :=
    if Js.gt (Spaceship.magnetTime s) 0 then
      let s :=
        Spaceship.set_magnetTime
          (Qmax 0 (Spaceship.magnetTime s - deltaTime)) s in
      Spaceship.set_hasMagnet (Js.gt (Spaceship.magnetTime s) 0) s
    else s in
  if Js.gt (Spaceship.timeFreezeTime s) 0 then
    let s :=
      Spaceship.set_timeFreezeTime
        (Qmax 0 (Spaceship.timeFreezeTime s - deltaTime)) s in
    Spaceship.set_isTimeFrozen (Js.gt (Spaceship.timeFreezeTime s) 0) s
  else s.

(** The ship part of one tick, in source order. *)
Definition updateShip (keys : gset string) (deltaTime r1 r2 : Q)
    (g : GameState.t) (s : Spaceship.t) : Spaceship.t :=
  updateTimers deltaTime
    (updateBoost keys deltaTime (updateScreenShake r1 r2 (moveShip keys g s))).

(** ** [updateGame]: obstacle motion *)

(** The position and rotation update of one obstacle. *)
Definition moveObstacle (isTimeFrozen : bool) (obstacle : Obstacle.t)
  : Obstacle.t :=
  if isTimeFrozen then
    let obstacle :=
      Obstacle.set_x
        (Obstacle.x obstacle + Obstacle.velocityX obstacle * 0.3) obstacle in
    let obstacle :=
      Obstacle.set_y
        (Obstacle.y obstacle + Obstacle.velocityY obstacle * 0.3) obstacle in
    Obstacle.set_rotation
      (Obstacle.rotation obstacle + Obstacle.rotationSpeed obstacle * 0.3)
      obstacle
  else
    let obstacle :=
      Obstacle.set_x
        (Obstacle.x obstacle + Obstacle.velocityX obstacle * 0.7) obstacle in
    let obstacle :=
      Obstacle.set_y
        (Obstacle.y obstacle + Obstacle.velocityY obstacle * 0.7) obstacle in
    Obstacle.set_rotation
      (Obstacle.rotation obstacle + Obstacle.rotationSpeed obstacle) obstacle.

Definition margin : Q := 100.

Definition isOffScreen (g : GameState.t) (obstacle : Obstacle.t) : bool :=
  Js.lt (Obstacle.x obstacle) (- margin)
  || Js.gt (Obstacle.x obstacle) (GameState.width g + margin)
  || Js.lt (Obstacle.y obstacle) (- margin)
  || Js.gt (Obstacle.y obstacle) (GameState.height g + margin).

Section Separation.

(** [Math.sqrt] *)
Variable sqrt : Q -> Q.

(** The body of the loop of [avoidOtherObstacles] for one other obstacle. *)
Definition repel (obstacle other : Obstacle.t) : Obstacle.t :=
  let dx := Obstacle.x obstacle - Obstacle.x other in
  let dy := Obstacle.y obstacle - Obstacle.y other in
  let distance := sqrt (dx * dx + dy * dy) in
  if Js.lt distance 30 && Js.gt distance 0 then
    let force := 0.1 in
    let obstacle :=
      Obstacle.set_velocityX
        (Obstacle.velocityX obstacle + (dx / distance) * force) obstacle in
    Obstacle.set_velocityY
      (Obstacle.velocityY obstacle + (dy / distance) * force) obstacle
  else obstacle.

(** [for (let i = 0; i < allObstacles.length; i++)], entered at index [i]
    with [rest] the elements from [i] on. *)
Fixpoint avoidFrom (i : nat) (rest : list Obstacle.t) (currentIndex : nat)
    (obstacle : Obstacle.t) : Obstacle.t :=
  match rest with
  | [] => obstacle
  | other :: rest =>
    if Nat.eqb i currentIndex then avoidFrom (S i) rest currentIndex obstacle
    else avoidFrom (S i) rest currentIndex (repel obstacle other)
  end.

Definition avoidOtherObstacles (obstacle : Obstacle.t)
    (allObstacles : list Obstacle.t) (currentIndex : nat) : Obstacle.t :=
  avoidFrom 0 allObstacles currentIndex obstacle.

(** [for (let i = obstaclesRef.current.length - 1; i >= 0; i--)]: the
    argument [n] is [i + 1].  The obstacle objects are mutated in place, so
    the moved obstacle is written back to its slot; [splice(i, 1)] is
    [delete i].  The lookup cannot fail since [i] is below the length. *)
Fixpoint obstacleLoop (n : nat) (isTimeFrozen : bool) (g : GameState.t)
    (arr : list Obstacle.t) : list Obstacle.t :=
  match n with
  | O => arr
  | S i =>
    match arr !! i with
    | None => arr
    | Some obstacle =>
      let obstacle := moveObstacle isTimeFrozen obstacle in
      if isOffScreen g obstacle then
        obstacleLoop i isTimeFrozen g (delete i arr)
      else
        let arr := <[i := obstacle]> arr in
        let obstacle := avoidOtherObstacles obstacle arr i in
        obstacleLoop i isTimeFrozen g (<[i := obstacle]> arr)
    end
  end.

Definition updateObstacles (w : World) : World :=
  with_obstacles
    (obstacleLoop (length (obstacles w))
       (Spaceship.isTimeFrozen (ship w)) (gameState w) (obstacles w))
    w.

End Separation.

(** ** [checkCollisions], [collectPowerUp] and [gameOver] *)

(** The axis-aligned overlap test between the ship and a box. *)
Definition overlaps (s : Spaceship.t) (ex ey ew eh : Q) : bool :=
  Js.lt (Spaceship.x s) (ex + ew)
  && Js.gt (Spaceship.x s + Spaceship.width s) ex
  && Js.lt (Spaceship.y s) (ey + eh)
  && Js.gt (Spaceship.y s + Spaceship.height s) ey.

Definition overlapsObstacle (s : Spaceship.t) (o : Obstacle.t) : bool :=
  overlaps s (Obstacle.x o) (Obstacle.y o) (Obstacle.width o)
    (Obstacle.height o).

Definition overlapsPowerUp (s : Spaceship.t) (p : PowerUp.t) : bool :=
  overlaps s (PowerUp.x p) (PowerUp.y p) (PowerUp.width p) (PowerUp.height p).

Definition gameOver (w : World) : World :=
  let w := with_gameState (GameState.set_isGameOver true (gameState w)) w in
  with_onGameOver
    (onGameOver w
       ++ [(GameState.score (gameState w), GameState.score (gameState w) * 10)])
    w.

(** The consequence of an overlap with [obstacle]; the flag tells whether
    [checkCollisions] returned. *)
Definition hitObstacle (obstacle : Obstacle.t) (w : World) : World * bool :=
  let s := ship w in
  let s :=
    Spaceship.set_screenShakeIntensity
      (Qmax (Spaceship.screenShakeIntensity s) 5) s in
  let w := with_ship s w in
  if Js.gt (Spaceship.health s) 0 then
    let s :=
      Spaceship.set_health
        (Spaceship.health s - Js.or (Obstacle.damage obstacle) 1) s in
    let w := with_ship s w in
    if Js.le (Spaceship.health s) 0 then (gameOver w, true) else (w, false)
  else (gameOver w, true).

(** [for (const obstacle of obstaclesRef.current)] *)
Fixpoint obstacleCollisions (l : list Obstacle.t) (w : World) : World * bool :=
  match l with
  | [] => (w, false)
  | obstacle :: rest =>
    if Spaceship.isInvisible (ship w) then obstacleCollisions rest w
    else if Spaceship.shield (ship w) then obstacleCollisions rest w
    else if overlapsObstacle (ship w) obstacle then
      let (w, returned) := hitObstacle obstacle w in
      if returned then (w, true) else obstacleCollisions rest w
    else obstacleCollisions rest w
  end.

(** The chain of tests on [powerUp.type] that ends [collectPowerUp]. *)
Definition applyEffect (type : PowerUpType.t) (s : Spaceship.t) : Spaceship.t :=
  match type with
  | PowerUpType.shield =>
    Spaceship.set_shieldTime 5000 (Spaceship.set_shield true s)
  | PowerUpType.boost =>
    Spaceship.set_boostTime (Spaceship.boostTime s + 5000) s
  | PowerUpType.invisibility =>
    Spaceship.set_invisibilityTime 4000 (Spaceship.set_isInvisible true s)
  | PowerUpType.multishot =>
    Spaceship.set_multishotTime 6000 (Spaceship.set_hasMultishot true s)
  | PowerUpType.magnet =>
    Spaceship.set_magnetRange 80
      (Spaceship.set_magnetTime 8000 (Spaceship.set_hasMagnet true s))
  | PowerUpType.timefreeze =>
    Spaceship.set_timeFreezeTime 5000 (Spaceship.set_isTimeFrozen true s)
  | PowerUpType.bonus => s
  end.

Definition collectPowerUp (powerUp : PowerUp.t) (w : World) : World :=
  let g := gameState w in
  let levelMultiplier := Qmax 1 (Js.floor (GameState.difficultyLevel g)) in
  let baseScoreGain := 10 * levelMultiplier in
  let scoreGain :=
    match PowerUp.rarity powerUp with
    | Rarity.common => baseScoreGain
    | Rarity.rare => baseScoreGain * 2
    | Rarity.epic => baseScoreGain * 3
    | Rarity.legendary => baseScoreGain * 5
    end in
  let scoreGain :=
    match PowerUp.type powerUp with
    | PowerUpType.bonus => scoreGain + baseScoreGain
    | _ => scoreGain
    end in
  let newScore := GameState.score g + scoreGain in
  let newHighScore :=
    if Js.gt newScore (GameState.highScore g) then newScore
    else GameState.highScore g in
  let g := GameState.set_score newScore g in
  let g := GameState.set_highScore newHighScore g in
  let g :=
    GameState.set_newHighScore (Js.gt newScore (GameState.highScore g)) g in
  let w := with_gameState g w in
  let w := with_starRunHighScore newHighScore w in
  with_ship (applyEffect (PowerUp.type powerUp) (ship w)) w.

(** [for (let i = powerUpsRef.current.length - 1; i >= 0; i--)]: the
    argument [n] is [i + 1]; the lookup cannot fail. *)
Fixpoint powerUpCollisions (n : nat) (w : World) : World :=
  match n with
  | O => w
  | S i =>
    match powerUps w !! i with
    | None => w
    | Some powerUp =>
      if overlapsPowerUp (ship w) powerUp then
        let w := collectPowerUp powerUp w in
        powerUpCollisions i (with_powerUps (delete i (powerUps w)) w)
      else powerUpCollisions i w
    end
  end.

Definition checkCollisions (w : World) : World :=
  let (w, returned) := obstacleCollisions (obstacles w) w in
  if returned then w else powerUpCollisions (length (powerUps w)) w.

(** ** [updateDifficulty] *)

(** The [while] loop; [fuel] bounds the number of tests of its condition. *)
Fixpoint levelLoop (fuel : nat) (score : Q)
    (currentLevel pointsForNextLevel : Z) : option (Z * Z) :=
  match fuel with
  | O => None
  | S fuel =>
    if Js.ge score (inject_Z pointsForNextLevel) then
      let currentLevel := (currentLevel + 1)%Z in
      levelLoop fuel score currentLevel
        (pointsForNextLevel + 100 * currentLevel)%Z
    else Some (currentLevel, pointsForNextLevel)
  end.

(** From here on the arithmetic is in double precision.  The level and its
    point thresholds are whole numbers, which doubles hold exactly (up to
    2^53); every other operation is rounded, and a decimal literal stands
    for the double nearest to it.  [Math.round], [Math.abs], [Math.min],
    [Math.max] and the comparisons are exact on doubles. *)
Definition roundedDifficulty (score : Q) (currentLevel : Z) : Q :=
  let pointsForCurrentLevel :=
    if (currentLevel =? 1)%Z then 0
    else 100 * (inject_Z currentLevel - 1) * inject_Z currentLevel / 2 in
  let pointsInCurrentLevel := F64.sub score pointsForCurrentLevel in
  let pointsNeededForNextLevel := 100 * inject_Z currentLevel in
  let levelProgress := F64.div pointsInCurrentLevel pointsNeededForNextLevel in
  let smoothDifficulty := F64.add (inject_Z currentLevel) levelProgress in
  F64.div (Js.round (F64.mul smoothDifficulty 100)) 100.

Definition newGameSpeed (level : Q) : Q :=
  Qmin (F64.add 2 (F64.mul level (F64.nearest 1.2))) 30.
Definition newObstacleSpawnRate (level : Q) : Q :=
  Qmax (F64.sub 1400 (F64.mul level 60)) 300.
Definition newPowerUpSpawnRate (level : Q) : Q :=
  Qmax (F64.add 5000 (F64.mul level 200)) 3000.

(** The assignments that follow the early return. *)
Definition applyDifficulty (roundedDifficulty : Q) (g : GameState.t)
  : GameState.t :=
  let g := GameState.set_difficultyLevel (Qmin roundedDifficulty 20) g in
  let level := GameState.difficultyLevel g in
  let g :=
    if Js.gt (Qabs (F64.sub (GameState.gameSpeed g) (newGameSpeed level)))
         (F64.nearest 0.1)
    then
      GameState.set_gameSpeed
        (F64.div (Js.round (F64.mul (newGameSpeed level) 100)) 100) g
    else g in
  let g :=
    if Js.gt
         (Qabs (F64.sub (GameState.obstacleSpawnRate g)
                  (newObstacleSpawnRate level)))
         50
    then GameState.set_obstacleSpawnRate (newObstacleSpawnRate level) g
    else g in
  if Js.gt
       (Qabs (F64.sub (GameState.powerUpSpawnRate g)
                (newPowerUpSpawnRate level)))
       100
  then GameState.set_powerUpSpawnRate (newPowerUpSpawnRate level) g
  else g.

(** [None] only when the loop is out of fuel. *)
Definition updateDifficulty (fuel : nat) (g : GameState.t)
  : option GameState.t :=
  match levelLoop fuel (GameState.score g) 1 100 with
  | None => None
  | Some (currentLevel, _) =>
    let rounded := roundedDifficulty (GameState.score g) currentLevel in
    let difficultyChange :=
      Qabs (F64.sub (GameState.difficultyLevel g) rounded) in
    if Js.lt difficultyChange (F64.nearest 0.1) then Some g
    else Some (applyDifficulty rounded g)
  end.

(** ** [updateDifficulty] on the binary64 numbers of the kernel *)

(** The arithmetic of [updateDifficulty] once more, on Rocq's primitive
    floating-point numbers (IEEE 754 binary64, as JavaScript numbers are),
    for comparison with [F64]. *)
Module B64.

(** The rational a finite double stands for. *)
Definition toQ (f : PrimFloat.float) : Q :=
  match FloatOps.Prim2SF f with
  | SpecFloat.S754_finite s m e =>
    let v := inject_Z (Zpos m) * F64.pow2 e in
    if s then - v else v
  | _ => 0
  end.

(** A whole number below 2^53 as a double. *)
Definition ofZ (z : Z) : PrimFloat.float := PrimFloat.of_uint63 (Uint63.of_Z z).

(** A decimal literal: the quotient of two whole numbers, correctly
    rounded. *)
Definition literal (n d : Z) : PrimFloat.float := PrimFloat.div (ofZ n) (ofZ d).

(** [Math.round], [Math.min], [Math.max] on finite doubles. *)
Definition round (f : PrimFloat.float) : PrimFloat.float := ofZ (Qfloor (toQ f + 0.5)).
Definition min (a b : PrimFloat.float) : PrimFloat.float := if PrimFloat.ltb b a then b else a.
Definition max (a b : PrimFloat.float) : PrimFloat.float := if PrimFloat.ltb a b then b else a.

Definition roundedDifficulty (score : PrimFloat.float) (currentLevel : Z) : PrimFloat.float :=
  let L := ofZ currentLevel in
  let pointsForCurrentLevel :=
    if (currentLevel =? 1)%Z then ofZ 0
    else
      PrimFloat.div
        (PrimFloat.mul (PrimFloat.mul (ofZ 100) (PrimFloat.sub L (ofZ 1))) L)
        (ofZ 2) in
  let pointsInCurrentLevel := PrimFloat.sub score pointsForCurrentLevel in
  let pointsNeededForNextLevel := PrimFloat.mul (ofZ 100) L in
  let levelProgress :=
    PrimFloat.div pointsInCurrentLevel pointsNeededForNextLevel in
  let smoothDifficulty := PrimFloat.add L levelProgress in
  PrimFloat.div (round (PrimFloat.mul smoothDifficulty (ofZ 100))) (ofZ 100).

(** [difficultyChange < 0.1] *)
Definition smallChange (difficultyLevel roundedDifficulty : PrimFloat.float) : bool :=
  PrimFloat.ltb
    (PrimFloat.abs (PrimFloat.sub difficultyLevel roundedDifficulty))
    (literal 1 10).

Definition newGameSpeed (level : PrimFloat.float) : PrimFloat.float :=
  min (PrimFloat.add (ofZ 2) (PrimFloat.mul level (literal 12 10))) (ofZ 30).
Definition newObstacleSpawnRate (level : PrimFloat.float) : PrimFloat.float :=
  max (PrimFloat.sub (ofZ 1400) (PrimFloat.mul level (ofZ 60))) (ofZ 300).
Definition newPowerUpSpawnRate (level : PrimFloat.float) : PrimFloat.float :=
  max (PrimFloat.add (ofZ 5000) (PrimFloat.mul level (ofZ 200))) (ofZ 3000).

(** [Math.round(newGameSpeed * 100) / 100] *)
Definition storedGameSpeed (newGameSpeed : PrimFloat.float) : PrimFloat.float :=
  PrimFloat.div (round (PrimFloat.mul newGameSpeed (ofZ 100))) (ofZ 100).

End B64.

(** The level a whole score stands at. *)
Definition levelOf (score : Z) : Z :=
  match levelLoop 64 (inject_Z score) 1 100 with
  | Some (currentLevel, _) => currentLevel
  | None => 1%Z
  end.

(** The two embeddings agree on the rounded difficulty of a score. *)
Definition sameRoundedDifficulty (score : Z) : bool :=
  Qeq_bool
    (B64.toQ (B64.roundedDifficulty (B64.ofZ score) (levelOf score)))
    (roundedDifficulty (inject_Z score) (levelOf score)).

(** The two embeddings agree on the tunables of the level [k / 100], and on
    the test of the early return against the level 0.1 above it. *)
Definition sameTunables (k : Z) : bool :=
  let level := B64.literal k 100 in
  let G := B64.newGameSpeed level in
  Qeq_bool (B64.toQ level) (F64.nearest (inject_Z k / 100))
  && Qeq_bool (B64.toQ G) (newGameSpeed (B64.toQ level))
  && Qeq_bool (B64.toQ (B64.newObstacleSpawnRate level))
       (newObstacleSpawnRate (B64.toQ level))
  && Qeq_bool (B64.toQ (B64.newPowerUpSpawnRate level))
       (newPowerUpSpawnRate (B64.toQ level))
  && Qeq_bool (B64.toQ (B64.storedGameSpeed G))
       (F64.div (Js.round (F64.mul (B64.toQ G) 100)) 100)
  && (let rounded := B64.literal (k + 10) 100 in
      Bool.eqb (B64.smallChange level rounded)
        (Js.lt (Qabs (F64.sub (B64.toQ level) (B64.toQ rounded)))
           (F64.nearest 0.1))).

(** The whole numbers from [a], [n] of them, [step] apart. *)
Definition wholeNumbers (a step : Z) (n : nat) : list Z :=
  map (fun i => (a + step * Z.of_nat i)%Z) (seq 0 n).

(** ** Viewer actions: [spawnPowerUp], [spawnObstacle], [activateBoost] *)

(** The [data] payload of a power-up action; every property may be absent. *)
Module PowerUpData.

Record t : Type := mk {
  x : option Q;
  y : option Q;
  type : option PowerUpType.t;
  points : option Q;
  duration : option Q;
  rarity : option Rarity.t;
  effectStrength : option Q
}.

End PowerUpData.

(** The [data] payload of an obstacle action. *)
Module ObstacleData.

Record t : Type := mk {
  spawnSide : option SpawnSide.t;
  speed : option Q;
  width : option Q;
  height : option Q;
  x : option Q;
  y : option Q;
  type : option ObstacleType.t;
  health : option Q;
  damage : option Q;
  isExplosive : option bool;
  explosionRadius : option Q;
  isInvulnerable : option bool;
  invulnerabilityTime : option Q
}.

End ObstacleData.

Module ViewerAction.

Inductive payload : Type :=
| powerup (data : PowerUpData.t)
| obstacle (data : ObstacleData.t)
| boost.

Record t : Type := mk {
  id : string;
  action : payload;
  timestamp : Q
}.

End ViewerAction.

(** Computations that call [Math.random]: the state is the number of draws
    made so far. *)
Definition Rand (A : Type) : Type := nat -> A * nat.

#[global] Instance Rand_ret : MRet Rand := fun A a n => (a, n).
#[global] Instance Rand_bind : MBind Rand :=
  fun A B f m n => let (a, n) := m n in f a n.

(** [a || d] where evaluating [d] may draw random numbers. *)
Definition orElse {A : Type} `{Js.Truthy A} (a : option A) (d : Rand A)
  : Rand A :=
  match a with
  | Some v => if Js.truthy v then mret v else d
  | None => d
  end.

Definition activateBoost (w : World) : World :=
  with_ship
    (Spaceship.set_boostTime (Spaceship.boostTime (ship w) + 5000) (ship w)) w.

Section Spawners.

(** The successive results of [Math.random()], the result of [Date.now()]
    and [Math.atan2]. *)
Variable draws : nat -> Q.
Variable now : Q.
Variable atan2 : Q -> Q -> Q.

Definition mathRandom : Rand Q := fun n => (draws n, S n).

Definition spawnPowerUp (data : PowerUpData.t) (w : World) : Rand World :=
  let g := gameState w in
  y ← orElse (PowerUpData.y data)
        (r ← mathRandom; mret (r * (GameState.height g - 30)));
  r ← mathRandom;
  let powerUp :=
    {| PowerUp.x := Js.or (PowerUpData.x data) (GameState.width g);
       PowerUp.y := y;
       PowerUp.width := 25;
       PowerUp.height := 25;
       PowerUp.type := Js.or (PowerUpData.type data) PowerUpType.bonus;
       PowerUp.points := Js.or (PowerUpData.points data) 25;
       PowerUp.id := viewer_powerup_id now r;
       PowerUp.duration := Js.or (PowerUpData.duration data) 15000;
       PowerUp.rarity := Js.or (PowerUpData.rarity data) Rarity.common;
       PowerUp.effectStrength := Js.or (PowerUpData.effectStrength data) 1;
       PowerUp.isPulsing := Some false;
       PowerUp.pulseSpeed := Some 0;
       PowerUp.isRotating := Some false;
       PowerUp.rotationSpeed := Some 0;
       PowerUp.isTracking := Some false;
       PowerUp.trackingRange := Some 0 |} in
  mret (with_powerUps (powerUps w ++ [powerUp]) w).

(** [l[Math.floor(r * l.length)]] for a draw [r]; a draw lies in [0, 1),
    which keeps the index in range, so the default [d] is never returned. *)
Definition pick {A : Type} (r : Q) (l : list A) (d : A) : A :=
  nth (Z.to_nat (Qfloor (r * inject_Z (Z.of_nat (length l))))) l d.

Definition randomSide (r : Q) : SpawnSide.t :=
  pick r [SpawnSide.left; SpawnSide.right; SpawnSide.top; SpawnSide.bottom]
    SpawnSide.bottom.

Definition spawnObstacle (data : ObstacleData.t) (w : World) : Rand World :=
  let g := gameState w in
  spawnSide ← orElse (ObstacleData.spawnSide data)
                (r ← mathRandom; mret (randomSide r));
  let speed := Js.or (ObstacleData.speed data) 4 in
  let width := Js.or (ObstacleData.width data) 40 in
  let height := Js.or (ObstacleData.height data) 40 in
  let randomY : Rand Q :=
    (r ← mathRandom; mret (r * (GameState.height g - height))) in
  let randomX : Rand Q :=
    (r ← mathRandom; mret (r * (GameState.width g - width))) in
  '(spawnX, spawnY, velocityX, velocityY) ←
    match spawnSide with
    | SpawnSide.left =>
      spawnY ← orElse (ObstacleData.y data) randomY;
      r1 ← mathRandom;
      r2 ← mathRandom;
      mret (- width, spawnY, speed * (0.8 + r1 * 0.4), (r2 - 0.5) * speed * 0.3)
    | SpawnSide.right =>
      spawnY ← orElse (ObstacleData.y data) randomY;
      r1 ← mathRandom;
      r2 ← mathRandom;
      mret (GameState.width g, spawnY, - speed * (0.8 + r1 * 0.4),
            (r2 - 0.5) * speed * 0.3)
    | SpawnSide.top =>
      spawnX ← orElse (ObstacleData.x data) randomX;
      r1 ← mathRandom;
      r2 ← mathRandom;
      mret (spawnX, - height, (r1 - 0.5) * speed * 0.3,
            speed * (0.8 + r2 * 0.4))
    | SpawnSide.bottom =>
      spawnX ← orElse (ObstacleData.x data) randomX;
      r1 ← mathRandom;
      r2 ← mathRandom;
      mret (spawnX, GameState.height g, (r1 - 0.5) * speed * 0.3,
            - speed * (0.8 + r2 * 0.4))
    | _ =>
      spawnY ← orElse (ObstacleData.y data) randomY;
      mret (Js.or (ObstacleData.x data) (GameState.width g), spawnY,
            - speed, 0)
    end;
  rid ← mathRandom;
  rrot ← mathRandom;
  let obstacle :=
    {| Obstacle.x := spawnX;
       Obstacle.y := spawnY;
       Obstacle.width := width;
       Obstacle.height := height;
       Obstacle.type := Js.or (ObstacleData.type data) ObstacleType.asteroid;
       Obstacle.speed := speed;
       Obstacle.id := viewer_obstacle_id now rid;
       Obstacle.rotation := 0;
       Obstacle.rotationSpeed := (rrot - 0.5) * 0.1;
       Obstacle.health := Some (Js.or (ObstacleData.health data) 1);
       Obstacle.damage := Some (Js.or (ObstacleData.damage data) 1);
       Obstacle.isTracking := Some false;
       Obstacle.trackingSpeed := Some 0;
       Obstacle.isBouncing := Some false;
       Obstacle.bounceCount := Some 0;
       Obstacle.maxBounces := Some 0;
       Obstacle.isExplosive :=
         Some (Js.or (ObstacleData.isExplosive data) false);
       Obstacle.explosionRadius :=
         Some (Js.or (ObstacleData.explosionRadius data) 0);
       Obstacle.isInvulnerable :=
         Some (Js.or (ObstacleData.isInvulnerable data) false);
       Obstacle.invulnerabilityTime :=
         Some (Js.or (ObstacleData.invulnerabilityTime data) 0);
       Obstacle.velocityX := velocityX;
       Obstacle.velocityY := velocityY;
       Obstacle.spawnSide := spawnSide;
       Obstacle.diagonalAngle := atan2 velocityY velocityX;
       Obstacle.gravity := 0;
       Obstacle.bounceEnergy := 0;
       Obstacle.aiType := AiType.passive;
       Obstacle.aiState := AiState.idle;
       Obstacle.aiTimer := 0;
       Obstacle.aiCooldown := 0;
       Obstacle.patrolPoints := [];
       Obstacle.currentPatrolIndex := 0;
       Obstacle.swarmCenter := (0, 0);
       Obstacle.avoidanceRadius := 0;
       Obstacle.maxSpeed := speed;
       Obstacle.acceleration := 0;
       Obstacle.friction := 1 |} in
  mret (with_obstacles (obstacles w ++ [obstacle]) w).

(** The burst size of [spawnRandomObstacle]. *)
Definition obstacleCount (difficultyLevel : Q) : nat :=
  let obstacleCount := 1%nat in
  let obstacleCount :=
    if Js.ge difficultyLevel 2 then 2%nat else obstacleCount in
  let obstacleCount :=
    if Js.ge difficultyLevel 4 then 3%nat else obstacleCount in
  let obstacleCount :=
    if Js.ge difficultyLevel 7 then 4%nat else obstacleCount in
  let obstacleCount :=
    if Js.ge difficultyLevel 12 then 5%nat else obstacleCount in
  obstacleCount.

Definition availableObstacleTypes (difficultyLevel : Q) : list ObstacleType.t :=
  let baseTypes :=
    [ObstacleType.asteroid; ObstacleType.debris; ObstacleType.enemy] in
  let advancedTypes :=
    [ObstacleType.meteor; ObstacleType.blackhole; ObstacleType.laser] in
  if Js.gt difficultyLevel 3 then baseTypes ++ advancedTypes else baseTypes.

(** One iteration of the loop of [spawnRandomObstacle], for index [i]. *)
Definition spawnOne (i : nat) (w : World) : Rand World :=
  let g := gameState w in
  let difficultyLevel := GameState.difficultyLevel g in
  rtype ← mathRandom;
  let type :=
    pick rtype (availableObstacleTypes difficultyLevel) ObstacleType.asteroid in
  rsize ← mathRandom;
  let baseSize := 30 + rsize * 20 in
  let width := baseSize * GameState.obstacleSizeMultiplier g in
  let height := baseSize * GameState.obstacleSizeMultiplier g in
  rspeed ← mathRandom;
  let baseSpeed := 2 + rspeed * GameState.gameSpeed g in
  let speed := baseSpeed * GameState.obstacleSpeedMultiplier g in
  let spawnSides :=
    [SpawnSide.left; SpawnSide.right; SpawnSide.top]
      ++ (if Js.gt difficultyLevel 2 then [SpawnSide.bottom] else []) in
  rside ← mathRandom;
  let spawnSide := pick rside spawnSides SpawnSide.top in
  let delayOffset := inject_Z (Z.of_nat i) * 200 in
  '(spawnX, spawnY, velocityX, velocityY, diagonalAngle) ←
    match spawnSide with
    | SpawnSide.left =>
      r0 ← mathRandom;
      r1 ← mathRandom;
      r2 ← mathRandom;
      let velocityX := speed * (0.8 + r1 * 0.4) in
      let velocityY := (r2 - 0.5) * speed * 0.3 in
      mret (- width - delayOffset, r0 * (GameState.height g - height),
            velocityX, velocityY, atan2 velocityY velocityX)
    | SpawnSide.right =>
      r0 ← mathRandom;
      r1 ← mathRandom;
      r2 ← mathRandom;
      let velocityX := - speed * (0.8 + r1 * 0.4) in
      let velocityY := (r2 - 0.5) * speed * 0.3 in
      mret (GameState.width g + delayOffset,
            r0 * (GameState.height g - height),
            velocityX, velocityY, atan2 velocityY velocityX)
    | SpawnSide.top =>
      r0 ← mathRandom;
      r1 ← mathRandom;
      r2 ← mathRandom;
      let velocityX := (r1 - 0.5) * speed * 0.3 in
      let velocityY := speed * (0.8 + r2 * 0.4) in
      mret (r0 * (GameState.width g - width), - height - delayOffset,
            velocityX, velocityY, atan2 velocityY velocityX)
    | SpawnSide.bottom =>
      r0 ← mathRandom;
      r1 ← mathRandom;
      r2 ← mathRandom;
      let velocityX := (r1 - 0.5) * speed * 0.3 in
      let velocityY := - speed * (0.8 + r2 * 0.4) in
      mret (r0 * (GameState.width g - width),
            GameState.height g + delayOffset,
            velocityX, velocityY, atan2 velocityY velocityX)
    | _ =>
      r0 ← mathRandom;
      mret (GameState.width g + delayOffset,
            r0 * (GameState.height g - height), - speed, 0, 0)
    end;
  rid ← mathRandom;
  rrot ← mathRandom;
  let isMeteor :=
    match type with ObstacleType.meteor => true | _ => false end in
  let isBlackhole :=
    match type with ObstacleType.blackhole => true | _ => false end in
  let obstacle :=
    {| Obstacle.x := spawnX;
       Obstacle.y := spawnY;
       Obstacle.width := width;
       Obstacle.height := height;
       Obstacle.type := type;
       Obstacle.speed := speed;
       Obstacle.id := obstacle_id now rid i;
       Obstacle.rotation := 0;
       Obstacle.rotationSpeed := (rrot - 0.5) * 0.1;
       Obstacle.health :=
         Some (match type with ObstacleType.enemy => 2 | _ => 1 end);
       Obstacle.damage := Some (if isMeteor then 2 else 1);
       Obstacle.isTracking := Some false;
       Obstacle.trackingSpeed := Some 0;
       Obstacle.isBouncing := Some false;
       Obstacle.bounceCount := Some 0;
       Obstacle.maxBounces := Some 0;
       Obstacle.isExplosive := Some isMeteor;
       Obstacle.explosionRadius := Some (if isMeteor then 50 else 0);
       Obstacle.isInvulnerable := Some isBlackhole;
       Obstacle.invulnerabilityTime := Some (if isBlackhole then 1000 else 0);
       Obstacle.velocityX := velocityX;
       Obstacle.velocityY := velocityY;
       Obstacle.spawnSide := spawnSide;
       Obstacle.diagonalAngle := diagonalAngle;
       Obstacle.gravity := 0;
       Obstacle.bounceEnergy := 0;
       Obstacle.aiType := AiType.passive;
       Obstacle.aiState := AiState.idle;
       Obstacle.aiTimer := 0;
       Obstacle.aiCooldown := 0;
       Obstacle.patrolPoints := [];
       Obstacle.currentPatrolIndex := 0;
       Obstacle.swarmCenter := (0, 0);
       Obstacle.avoidanceRadius := 0;
       Obstacle.maxSpeed := speed;
       Obstacle.acceleration := 0;
       Obstacle.friction := 1 |} in
  mret (with_obstacles (obstacles w ++ [obstacle]) w).

(** [for (let i = 0; i < obstacleCount; i++)], with [remaining] iterations
    left from index [i]. *)
Fixpoint spawnBurst (remaining i : nat) (w : World) : Rand World :=
  match remaining with
  | O => mret w
  | S remaining => w ← spawnOne i w; spawnBurst remaining (S i) w
  end.

Definition spawnRandomObstacle (w : World) : Rand World :=
  spawnBurst (obstacleCount (GameState.difficultyLevel (gameState w))) 0 w.

(** The effect that handles [viewerActions]; the second component lists the
    ids passed to [onViewerActionProcessed]. *)
Fixpoint handleViewerActions (actions : list ViewerAction.t) (w : World)
  : Rand (World * list string) :=
  match actions with
  | [] => mret (w, [])
  | a :: rest =>
    w ← match ViewerAction.action a with
        | ViewerAction.powerup data => spawnPowerUp data w
        | ViewerAction.obstacle data => spawnObstacle data w
        | ViewerAction.boost => mret (activateBoost w)
        end;
    '(w, processed) ← handleViewerActions rest w;
    mret (w, ViewerAction.id a :: processed)
  end.

End Spawners.

(** ** Sequences of damage applications and power-up collections *)

(** What can change the craft between two frames of a running game: an
    unblocked overlap with an obstacle, or the collection of a power-up. *)
Inductive CraftOp : Type :=
| Damage (obstacle : Obstacle.t)
| Collect (powerUp : PowerUp.t).

Definition applyOp (w : World) (op : CraftOp) : World :=
  match op with
  | Damage obstacle => fst (hitObstacle obstacle w)
  | Collect powerUp => collectPowerUp powerUp w
  end.

Definition runOps (ops : list CraftOp) (w : World) : World :=
  fold_left applyOp ops w.

(** The damage an obstacle deals: [obstacle.damage || 1]. *)
Definition damageOf (obstacle : Obstacle.t) : Q :=
  Js.or (Obstacle.damage obstacle) 1.


(** The damage one collision pass applies to a ship that keeps its place:
    the sum over the obstacles the ship overlaps. *)
Definition overlapDamage (s : Spaceship.t) (l : list Obstacle.t) : Q :=
  fold_right
    (fun o acc => if overlapsObstacle s o then damageOf o + acc else acc) 0 l.


(** Where an obstacle is. *)
Definition position (o : Obstacle.t) : Q * Q := (Obstacle.x o, Obstacle.y o).

(** Obstacles that stay within the exit margin of the play area. *)
Definition onScreen (g : GameState.t) (o : Obstacle.t) : bool :=
  negb (isOffScreen g o).

(** A property with its falsy value, if any, removed. *)
Definition truthyOnly {A : Type} `{Js.Truthy A} (a : option A) : option A :=
  match a with
  | Some v => if Js.truthy v then Some v else None
  | None => None
  end.

(** A payload with every falsy property removed. *)
Definition powerUpDataTruthyOnly (data : PowerUpData.t) : PowerUpData.t :=
  {| PowerUpData.x := truthyOnly (PowerUpData.x data);
     PowerUpData.y := truthyOnly (PowerUpData.y data);
     PowerUpData.type := truthyOnly (PowerUpData.type data);
     PowerUpData.points := truthyOnly (PowerUpData.points data);
     PowerUpData.duration := truthyOnly (PowerUpData.duration data);
     PowerUpData.rarity := truthyOnly (PowerUpData.rarity data);
     PowerUpData.effectStrength :=
       truthyOnly (PowerUpData.effectStrength data) |}.

Definition obstacleDataTruthyOnly (data : ObstacleData.t) : ObstacleData.t :=
  {| ObstacleData.spawnSide := truthyOnly (ObstacleData.spawnSide data);
     ObstacleData.speed := truthyOnly (ObstacleData.speed data);
     ObstacleData.width := truthyOnly (ObstacleData.width data);
     ObstacleData.height := truthyOnly (ObstacleData.height data);
     ObstacleData.x := truthyOnly (ObstacleData.x data);
     ObstacleData.y := truthyOnly (ObstacleData.y data);
     ObstacleData.type := truthyOnly (ObstacleData.type data);
     ObstacleData.health := truthyOnly (ObstacleData.health data);
     ObstacleData.damage := truthyOnly (ObstacleData.damage data);
     ObstacleData.isExplosive := truthyOnly (ObstacleData.isExplosive data);
     ObstacleData.explosionRadius :=
       truthyOnly (ObstacleData.explosionRadius data);
     ObstacleData.isInvulnerable :=
       truthyOnly (ObstacleData.isInvulnerable data);
     ObstacleData.invulnerabilityTime :=
       truthyOnly (ObstacleData.invulnerabilityTime data) |}.

(** ** Concrete inputs *)

(** An obstacle of the given type at the given place with the given
    velocity, 40 by 40, with the health and damage [spawnRandomObstacle]
    gives that type. *)
Definition hazard (type : ObstacleType.t) (x y velocityX velocityY : Q)
  : Obstacle.t :=
  let isMeteor :=
    match type with ObstacleType.meteor => true | _ => false end in
  let isBlackhole :=
    match type with ObstacleType.blackhole => true | _ => false end in
  {| Obstacle.x := x;
     Obstacle.y := y;
     Obstacle.width := 40;
     Obstacle.height := 40;
     Obstacle.type := type;
     Obstacle.speed := 3;
     Obstacle.id := obstacle_id 0 0.5 0;
     Obstacle.rotation := 0;
     Obstacle.rotationSpeed := 0;
     Obstacle.health :=
       Some (match type with ObstacleType.enemy => 2 | _ => 1 end);
     Obstacle.damage := Some (if isMeteor then 2 else 1);
     Obstacle.isTracking := Some false;
     Obstacle.trackingSpeed := Some 0;
     Obstacle.isBouncing := Some false;
     Obstacle.bounceCount := Some 0;
     Obstacle.maxBounces := Some 0;
     Obstacle.isExplosive := Some isMeteor;
     Obstacle.explosionRadius := Some (if isMeteor then 50 else 0);
     Obstacle.isInvulnerable := Some isBlackhole;
     Obstacle.invulnerabilityTime := Some (if isBlackhole then 1000 else 0);
     Obstacle.velocityX := velocityX;
     Obstacle.velocityY := velocityY;
     Obstacle.spawnSide := SpawnSide.right;
     Obstacle.diagonalAngle := 0;
     Obstacle.gravity := 0;
     Obstacle.bounceEnergy := 0;
     Obstacle.aiType := AiType.passive;
     Obstacle.aiState := AiState.idle;
     Obstacle.aiTimer := 0;
     Obstacle.aiCooldown := 0;
     Obstacle.patrolPoints := [];
     Obstacle.currentPatrolIndex := 0;
     Obstacle.swarmCenter := (0, 0);
     Obstacle.avoidanceRadius := 0;
     Obstacle.maxSpeed := 3;
     Obstacle.acceleration := 0;
     Obstacle.friction := 1 |}.

(** A common power-up of the given type at the given place, with the
    values [spawnRandomPowerUp] gives one at level 1. *)
Definition pickup (type : PowerUpType.t) (x y : Q) : PowerUp.t :=
  {| PowerUp.x := x;
     PowerUp.y := y;
     PowerUp.width := 25;
     PowerUp.height := 25;
     PowerUp.type := type;
     PowerUp.points :=
       match type with PowerUpType.bonus => 10 | _ => 5 end;
     PowerUp.id := powerup_id 0 0.5;
     PowerUp.duration := 10000;
     PowerUp.rarity := Rarity.common;
     PowerUp.effectStrength := 1;
     PowerUp.isPulsing := Some false;
     PowerUp.pulseSpeed := Some 0.05;
     PowerUp.isRotating := Some false;
     PowerUp.rotationSpeed := Some 0.02;
     PowerUp.isTracking := Some false;
     PowerUp.trackingRange := Some 0 |}.

(** Every [Math.random()] draw is 0.5; [Date.now()] is 0; the facing angle
    plays no role in the simulation. *)
Definition halfDraws : nat -> Q := fun _ => 0.5.
Definition flatAtan2 : Q -> Q -> Q := fun _ _ => 0.

Definition worldAtLevel (level : Q) : World :=
  with_gameState (GameState.set_difficultyLevel level (initialGameState 0))
    (initialWorld 0).

(** The burst [spawnRandomObstacle] creates at the given level. *)
Definition spawnedAt (level : Q) : list Obstacle.t :=
  obstacles
    (fst (spawnRandomObstacle halfDraws 0 flatAtan2 (worldAtLevel level) 0%nat)).


(** The start of a game with a debris on the ship. *)
Definition contactWorld : World :=
  with_obstacles [hazard ObstacleType.debris 400 500 0 0] (initialWorld 0).

(** The same with a shield of 5000 ms. *)
Definition shieldedContactWorld : World :=
  with_ship
    (Spaceship.set_shieldTime 5000 (Spaceship.set_shield true initialSpaceship))
    contactWorld.

(** The payload [{ x: 0, y: 0 }] of a power-up action. *)
Definition originPowerUpData : PowerUpData.t :=
  PowerUpData.mk (Some 0) (Some 0) None None None None None.

(** The payload [{ spawnSide: 'top', x: 0, speed: 0, damage: 0, health: 0 }]
    of an obstacle action. *)
Definition zeroObstacleData : ObstacleData.t :=
  ObstacleData.mk (Some SpawnSide.top) (Some 0) None None (Some 0) None None
    (Some 0) (Some 0) None None None None.


(** A game state with 250 points. *)
Definition scored250 : GameState.t := GameState.set_score 250 (initialGameState 0).

(** A game state with the given score and stored level. *)
Definition scoredAt (score level : Q) : GameState.t :=
  GameState.set_difficultyLevel level
    (GameState.set_score score (initialGameState 0)).

(** ** The words of the specification, for comparison with the code *)

(** Spec: the cumulative points threshold [T(L) = 100 * L*(L-1)/2]. *)
Definition threshold (L : Z) : Q := 100 * inject_Z L * (inject_Z L - 1) / 2.

(** Spec: continuous level [L + (score - T(L)) / (100*L)]. *)
Definition continuousLevel (score : Q) (L : Z) : Q :=
  inject_Z L + (score - threshold L) / (100 * inject_Z L).




(** ** [resetGame] *)

(** The part of [resetGame] on the four references of [World]. *)
Definition resetGame (w : World) : World :=
  let g := gameState w in
  let g :=
    {| GameState.width := GameState.width g;
       GameState.height := GameState.height g;
       GameState.isGameOver := false;
       GameState.score := 0;
       GameState.highScore := GameState.highScore g;
       GameState.newHighScore := false;
       GameState.gameSpeed := 2;
       GameState.paused := GameState.paused g;
       GameState.gameLoopTimeout := GameState.gameLoopTimeout g;
       GameState.timeoutId := GameState.timeoutId g;
       GameState.difficultyLevel := 1;
       GameState.obstacleSpawnRate := 1800;
       GameState.powerUpSpawnRate := 5000;
       GameState.obstacleSpeedMultiplier := 1;
       GameState.obstacleSizeMultiplier := 1;
       GameState.obstacleCountMultiplier := 1;
       GameState.powerUpRarity := 1;
       GameState.screenShakeIntensity := 0;
       GameState.gravityWellActive := false;
       GameState.gravityWellStrength := 0;
       GameState.meteorShowerActive := false;
       GameState.meteorShowerIntensity := 0 |} in
  let s :=
    {| Spaceship.x := GameState.width g / 2 - 20;
       Spaceship.y := GameState.height g - 80;
       Spaceship.width := 40;
       Spaceship.height := 30;
       Spaceship.velocity := 0;
       Spaceship.boost := false;
       Spaceship.boostTime := 0;
       Spaceship.shield := false;
       Spaceship.shieldTime := 0;
       Spaceship.health := 100;
       Spaceship.maxHealth := 100;
       Spaceship.energy := 100;
       Spaceship.maxEnergy := 100;
       Spaceship.isInvisible := false;
       Spaceship.invisibilityTime := 0;
       Spaceship.hasMultishot := false;
       Spaceship.multishotTime := 0;
       Spaceship.hasMagnet := false;
       Spaceship.magnetTime := 0;
       Spaceship.magnetRange := 50;
       Spaceship.isTimeFrozen := false;
       Spaceship.timeFreezeTime := 0;
       Spaceship.screenShakeX := 0;
       Spaceship.screenShakeY := 0;
       Spaceship.screenShakeIntensity := 0 |} in
  with_powerUps [] (with_obstacles [] (with_ship s (with_gameState g w))).

(** ** [updateGame]: power-up motion *)

Definition setPowerUpX (v : Q) (p : PowerUp.t) : PowerUp.t :=
  PowerUp.mk v (PowerUp.y p) (PowerUp.width p) (PowerUp.height p)
    (PowerUp.type p) (PowerUp.points p) (PowerUp.id p) (PowerUp.duration p)
    (PowerUp.rarity p) (PowerUp.effectStrength p) (PowerUp.isPulsing p)
    (PowerUp.pulseSpeed p) (PowerUp.isRotating p) (PowerUp.rotationSpeed p)
    (PowerUp.isTracking p) (PowerUp.trackingRange p).

Definition setPowerUpY (v : Q) (p : PowerUp.t) : PowerUp.t :=
  PowerUp.mk (PowerUp.x p) v (PowerUp.width p) (PowerUp.height p)
    (PowerUp.type p) (PowerUp.points p) (PowerUp.id p) (PowerUp.duration p)
    (PowerUp.rarity p) (PowerUp.effectStrength p) (PowerUp.isPulsing p)
    (PowerUp.pulseSpeed p) (PowerUp.isRotating p) (PowerUp.rotationSpeed p)
    (PowerUp.isTracking p) (PowerUp.trackingRange p).

(** "Time freeze effect - slow down power-ups": the leftward drift. *)
Definition driftPowerUp (s : Spaceship.t) (g : GameState.t) (p : PowerUp.t)
  : PowerUp.t :=
  if Spaceship.isTimeFrozen s then setPowerUpX (PowerUp.x p - 1) p
  else setPowerUpX (PowerUp.x p - 2 * GameState.gameSpeed g) p.

(** The test that removes a power-up past the left edge. *)
Definition pastLeftEdge (p : PowerUp.t) : bool :=
  Js.lt (PowerUp.x p) (- PowerUp.width p).

Section Magnet.

(** [Math.sqrt] *)
Variable sqrt : Q -> Q.

(** "Magnet attraction effect".  [None]: the distance is 0, and the two
    quotients by it are no numbers ([0 / 0] is [NaN]; a non-zero [dx] or
    [dy], possible only where [Math.sqrt] returns 0 off the centre, gives an
    infinity). *)
Definition attractPowerUp (s : Spaceship.t) (p : PowerUp.t)
  : option PowerUp.t :=
  if Spaceship.hasMagnet s then
    let dx :=
      Spaceship.x s + Spaceship.width s / 2
      - (PowerUp.x p + PowerUp.width p / 2) in
    let dy :=
      Spaceship.y s + Spaceship.height s / 2
      - (PowerUp.y p + PowerUp.height p / 2) in
    let distance := sqrt (dx * dx + dy * dy) in
    if Js.lt distance (Spaceship.magnetRange s) then
      if Qeq_bool distance 0 then None
      else
        let attractionForce := 3 in
        let normalizedDx := dx / distance in
        let normalizedDy := dy / distance in
        let p :=
          setPowerUpX (PowerUp.x p + normalizedDx * attractionForce) p in
        Some (setPowerUpY (PowerUp.y p + normalizedDy * attractionForce) p)
    else Some p
  else Some p.

(** Where [attractPowerUp] is [None]: [x] has become [-Infinity], which
    happens when [dx] is negative.  Otherwise [x] is [NaN] or [+Infinity]. *)
Definition pulledToMinusInfinity (s : Spaceship.t) (p : PowerUp.t) : bool :=
  Js.lt (Spaceship.x s + Spaceship.width s / 2
         - (PowerUp.x p + PowerUp.width p / 2)) 0.

(** [for (let i = powerUpsRef.current.length - 1; i >= 0; i--)] of
    [updateGame]: the argument [n] is [i + 1].  The array of the source is
    [arr] together with [lost]: a power-up whose [x] is [NaN] or [+Infinity]
    stays in the array for good, since [x < -width] and the overlap test
    of [checkCollisions] are false of it from then on; it is moved to
    [lost].  With [x] at [-Infinity] the power-up is past the left edge. *)
Fixpoint powerUpLoop (n : nat) (s : Spaceship.t) (g : GameState.t)
    (arr lost : list PowerUp.t) : list PowerUp.t * list PowerUp.t :=
  match n with
  | O => (arr, lost)
  | S i =>
    match arr !! i with
    | None => (arr, lost)
    | Some powerUp =>
      match attractPowerUp s powerUp with
      | Some powerUp =>
        let powerUp := driftPowerUp s g powerUp in
        if pastLeftEdge powerUp then powerUpLoop i s g (delete i arr) lost
        else powerUpLoop i s g (<[i := powerUp]> arr) lost
      | None =>
        if pulledToMinusInfinity s powerUp then
          powerUpLoop i s g (delete i arr) lost
        else powerUpLoop i s g (delete i arr) (powerUp :: lost)
      end
    end
  end.

(** The world after the loop, and the power-ups it has lost. *)
Definition updatePowerUps (w : World) : World * list PowerUp.t :=
  let (arr, lost) :=
    powerUpLoop (length (powerUps w)) (ship w) (gameState w) (powerUps w) []
  in
  (with_powerUps arr w, lost).

(** One power-up through a round of the loop: where it stands afterwards,
    if it stays in the field with numbers for coordinates. *)
Definition movedPowerUp (s : Spaceship.t) (g : GameState.t) (p : PowerUp.t)
  : option PowerUp.t :=
  match attractPowerUp s p with
  | Some p =>
    let p := driftPowerUp s g p in
    if pastLeftEdge p then None else Some p
  | None => None
  end.

(** The power-up stays in the array with [x] no number below [-width]. *)
Definition goesAdrift (s : Spaceship.t) (p : PowerUp.t) : bool :=
  match attractPowerUp s p with
  | Some _ => false
  | None => negb (pulledToMinusInfinity s p)
  end.

End Magnet.

(** ** [spawnRandomPowerUp] *)

Definition availablePowerUpTypes (difficultyLevel : Q) : list PowerUpType.t :=
  let baseTypes :=
    [PowerUpType.shield; PowerUpType.boost; PowerUpType.bonus] in
  let advancedTypes :=
    [PowerUpType.multishot; PowerUpType.timefreeze; PowerUpType.magnet;
     PowerUpType.invisibility] in
  if Js.gt difficultyLevel 3 then baseTypes ++ advancedTypes else baseTypes.

(** The cascade of thresholds on the rarity roll. *)
Definition rarityOfRoll (rarityRoll powerUpRarity : Q) : Rarity.t :=
  if Js.lt rarityRoll (0.1 * powerUpRarity) then Rarity.legendary
  else if Js.lt rarityRoll (0.3 * powerUpRarity) then Rarity.epic
  else if Js.lt rarityRoll (0.6 * powerUpRarity) then Rarity.rare
  else Rarity.common.

Definition rarityMultiplier (rarity : Rarity.t) : Q :=
  match rarity with
  | Rarity.legendary => 5
  | Rarity.epic => 3
  | Rarity.rare => 2
  | Rarity.common => 1
  end.

Section RandomPowerUp.

Variable draws : nat -> Q.
Variable now : Q.

Definition spawnRandomPowerUp (w : World) : Rand World :=
  let g := gameState w in
  let difficultyLevel := GameState.difficultyLevel g in
  rtype ← mathRandom draws;
  let type :=
    pick rtype (availablePowerUpTypes difficultyLevel) PowerUpType.shield in
  rarityRoll ← mathRandom draws;
  let rarity := rarityOfRoll rarityRoll (GameState.powerUpRarity g) in
  let levelMultiplier := Qmax 1 (Js.floor difficultyLevel) in
  let basePoints :=
    match type with
    | PowerUpType.bonus => 10 * levelMultiplier
    | _ => 5 * levelMultiplier
    end in
  let points := basePoints * rarityMultiplier rarity in
  ry ← mathRandom draws;
  rid ← mathRandom draws;
  let isLegendary :=
    match rarity with Rarity.legendary => true | _ => false end in
  let powerUp :=
    {| PowerUp.x := GameState.width g;
       PowerUp.y := ry * (GameState.height g - 30);
       PowerUp.width := 25;
       PowerUp.height := 25;
       PowerUp.type := type;
       PowerUp.points := points;
       PowerUp.id := powerup_id now rid;
       PowerUp.duration := 10000;
       PowerUp.rarity := rarity;
       PowerUp.effectStrength :=
         match rarity with
         | Rarity.legendary => 2
         | Rarity.epic => 1.5
         | Rarity.rare => 1.2
         | Rarity.common => 1
         end;
       PowerUp.isPulsing :=
         Some (match rarity with Rarity.common => false | _ => true end);
       PowerUp.pulseSpeed := Some (if isLegendary then 0.1 else 0.05);
       PowerUp.isRotating :=
         Some (match rarity with
               | Rarity.epic | Rarity.legendary => true
               | _ => false
               end);
       PowerUp.rotationSpeed := Some (if isLegendary then 0.05 else 0.02);
       PowerUp.isTracking := Some isLegendary;
       PowerUp.trackingRange := Some (if isLegendary then 100 else 0) |} in
  mret (with_powerUps (powerUps w ++ [powerUp]) w).

End RandomPowerUp.

(** ** The game-info snapshot of [updateGame] *)

Module GameInfo.

Record t : Type := mk {
  score : Q;
  highScore : Q;
  level : Q;
  health : Q;
  maxHealth : Q;
  nextLevelProgress : Q;
  newHighScore : bool;
  shield : bool;
  boost : bool;
  isInvisible : bool;
  hasMultishot : bool;
  hasMagnet : bool;
  isTimeFrozen : bool;
  gravityWellActive : bool;
  meteorShowerActive : bool
}.

End GameInfo.

(** The argument of [onGameInfoUpdate].  A level below 1 would divide by 0
    here; [difficultyLevel] is never below 1. *)
Definition gameInfoOf (w : World) : GameInfo.t :=
  let g := gameState w in
  let s := ship w in
  let currentLevel := Js.floor (GameState.difficultyLevel g) in
  let pointsForCurrentLevel :=
    if Qeq_bool currentLevel 1 then 0
    else 100 * (currentLevel - 1) * currentLevel / 2 in
  let pointsInCurrentLevel := GameState.score g - pointsForCurrentLevel in
  let pointsNeededForNextLevel := 100 * currentLevel in
  let nextLevelProgress :=
    (pointsInCurrentLevel / pointsNeededForNextLevel) * 100 in
  {| GameInfo.score := GameState.score g;
     GameInfo.highScore := GameState.highScore g;
     GameInfo.level := currentLevel;
     GameInfo.health := Spaceship.health s;
     GameInfo.maxHealth := Spaceship.maxHealth s;
     GameInfo.nextLevelProgress := Qmin 100 (Qmax 0 nextLevelProgress);
     GameInfo.newHighScore := GameState.newHighScore g;
     GameInfo.shield := Spaceship.shield s;
     GameInfo.boost := Spaceship.boost s;
     GameInfo.isInvisible := Spaceship.isInvisible s;
     GameInfo.hasMultishot := Spaceship.hasMultishot s;
     GameInfo.hasMagnet := Spaceship.hasMagnet s;
     GameInfo.isTimeFrozen := Spaceship.isTimeFrozen s;
     GameInfo.gravityWellActive := GameState.gravityWellActive g;
     GameInfo.meteorShowerActive := GameState.meteorShowerActive g |}.

(** ** The component: references beside the world, and [updateGame] *)

(** [keysRef], [lastObstacleSpawnRef], [lastPowerUpSpawnRef],
    [frameCountRef], [lastTimeRef], the arguments [onGameInfoUpdate] was
    called with, and the entries of [powerUpsRef] whose coordinates are no
    numbers any more ([adrift]; see [powerUpLoop]). *)
Record Game : Type := mkGame {
  world : World;
  keys : gset string;
  lastObstacleSpawn : Q;
  lastPowerUpSpawn : Q;
  frameCount : nat;
  lastTime : Q;
  onGameInfoUpdate : list GameInfo.t;
  adrift : list PowerUp.t
}.

Definition with_world (w : World) (c : Game) : Game :=
  mkGame w (keys c) (lastObstacleSpawn c) (lastPowerUpSpawn c) (frameCount c)
    (lastTime c) (onGameInfoUpdate c) (adrift c).
Definition with_keys (k : gset string) (c : Game) : Game :=
  mkGame (world c) k (lastObstacleSpawn c) (lastPowerUpSpawn c) (frameCount c)
    (lastTime c) (onGameInfoUpdate c) (adrift c).
Definition with_lastObstacleSpawn (v : Q) (c : Game) : Game :=
  mkGame (world c) (keys c) v (lastPowerUpSpawn c) (frameCount c)
    (lastTime c) (onGameInfoUpdate c) (adrift c).
Definition with_lastPowerUpSpawn (v : Q) (c : Game) : Game :=
  mkGame (world c) (keys c) (lastObstacleSpawn c) v (frameCount c)
    (lastTime c) (onGameInfoUpdate c) (adrift c).
Definition with_frameCount (n : nat) (c : Game) : Game :=
  mkGame (world c) (keys c) (lastObstacleSpawn c) (lastPowerUpSpawn c) n
    (lastTime c) (onGameInfoUpdate c) (adrift c).
Definition with_lastTime (v : Q) (c : Game) : Game :=
  mkGame (world c) (keys c) (lastObstacleSpawn c) (lastPowerUpSpawn c)
    (frameCount c) v (onGameInfoUpdate c) (adrift c).
Definition with_onGameInfoUpdate (l : list GameInfo.t) (c : Game) : Game :=
  mkGame (world c) (keys c) (lastObstacleSpawn c) (lastPowerUpSpawn c)
    (frameCount c) (lastTime c) l (adrift c).
Definition with_adrift (l : list PowerUp.t) (c : Game) : Game :=
  mkGame (world c) (keys c) (lastObstacleSpawn c) (lastPowerUpSpawn c)
    (frameCount c) (lastTime c) (onGameInfoUpdate c) l.

(** [Math.min(20 + gameState.difficultyLevel * 3, 35)] *)
Definition maxObstaclesOnScreen (difficultyLevel : Q) : Q :=
  Qmin (20 + difficultyLevel * 3) 35.

(** [arr.length] as a number. *)
Definition lengthQ {A : Type} (l : list A) : Q := inject_Z (Z.of_nat (length l)).

Section Tick.

Variable sqrt : Q -> Q.
Variable atan2 : Q -> Q -> Q.
Variable draws : nat -> Q.

(** The screen-shake block with its two draws, made only while the shake
    lasts. *)
Definition shakeShip (s : Spaceship.t) : Rand Spaceship.t :=
  if Js.gt (Spaceship.screenShakeIntensity s) 0 then
    r1 ← mathRandom draws;
    r2 ← mathRandom draws;
    mret (updateScreenShake r1 r2 s)
  else mret s.

(** "Spawn new obstacles (with performance limit)"; [now] is [Date.now()]. *)
Definition spawnObstaclesWhenDue (now : Q) (c : Game) : Rand Game :=
  let g := gameState (world c) in
  if Js.gt (now - lastObstacleSpawn c) (GameState.obstacleSpawnRate g)
     && Js.lt (lengthQ (obstacles (world c)))
          (maxObstaclesOnScreen (GameState.difficultyLevel g))
  then
    w ← spawnRandomObstacle draws now atan2 (world c);
    mret (with_lastObstacleSpawn now (with_world w c))
  else mret c.

(** "Spawn new power-ups" *)
Definition spawnPowerUpWhenDue (now : Q) (c : Game) : Rand Game :=
  let g := gameState (world c) in
  if Js.gt (now - lastPowerUpSpawn c) (GameState.powerUpSpawnRate g) then
    w ← spawnRandomPowerUp draws now (world c);
    mret (with_lastPowerUpSpawn now (with_world w c))
  else mret c.

(** The end of [updateGame]: the frame count, the difficulty every 60
    frames and the snapshot every 30.  [None] only when the loop of
    [updateDifficulty] is out of fuel. *)
Definition endOfFrame (fuel : nat) (c : Game) : option Game :=
  let c := with_frameCount (S (frameCount c)) c in
  match
    (if Nat.eqb (frameCount c mod 60) 0 then
       match updateDifficulty fuel (gameState (world c)) with
       | Some g => Some (with_world (with_gameState g (world c)) c)
       | None => None
       end
     else Some c)
  with
  | None => None
  | Some c =>
    if Nat.eqb (frameCount c mod 30) 0 then
      Some (with_onGameInfoUpdate
              (onGameInfoUpdate c ++ [gameInfoOf (world c)]) c)
    else Some c
  end.

(** One call of [updateGame]; [now] is [Date.now()], the later calls of
    the same frame (they only enter the ids of new entities) return the same
    value. *)
Definition updateGame (fuel : nat) (deltaTime now : Q) (c : Game)
  : Rand (option Game) :=
  if GameState.isGameOver (gameState (world c)) then mret (Some c)
  else
    let w := world c in
    let s := moveShip (keys c) (gameState w) (ship w) in
    s ← shakeShip s;
    let s := updateTimers deltaTime (updateBoost (keys c) deltaTime s) in
    let w := updateObstacles sqrt (with_ship s w) in
    c ← spawnObstaclesWhenDue now (with_world w c);
    let (w, lost) := updatePowerUps sqrt (world c) in
    let c := with_adrift (adrift c ++ lost) (with_world w c) in
    c ← spawnPowerUpWhenDue now c;
    let c := with_world (checkCollisions (world c)) c in
    mret (endOfFrame fuel c).

(** The frame callback [gameLoop]; [currentTime] is its argument. *)
Definition gameLoop (fuel : nat) (currentTime now : Q) (c : Game)
  : Rand (option Game) :=
  if GameState.isGameOver (gameState (world c)) then mret (Some c)
  else updateGame fuel (currentTime - lastTime c) now
         (with_lastTime currentTime c).

End Tick.

(** [resetGame] on the whole component; it empties [powerUpsRef]. *)
Definition resetComponent (c : Game) : Game :=
  with_lastPowerUpSpawn 0
    (with_lastObstacleSpawn 0
       (with_frameCount 0
          (with_adrift [] (with_world (resetGame (world c)) c)))).

(** The [keydown] and [keyup] listeners. *)
Definition handleKeyDown (code : string) (c : Game) : Game :=
  if GameState.isGameOver (gameState (world c)) then
    if String.eqb code "Space" then resetComponent c else c
  else with_keys ({[ code ]} ∪ keys c) c.

Definition handleKeyUp (code : string) (c : Game) : Game :=
  with_keys (keys c ∖ {[ code ]}) c.

(** ** The page that hosts the game ([Home]) *)

Module Home.

(** The state of the page the game depends on. *)
Record t : Type := mk {
  viewerActions : list ViewerAction.t;
  processedActions : gset string;
  gameStats : option (Q * Q * Q)
}.

Definition initial : t := mk [] ∅ None.

(** [setViewerActions(prev => [action, ...prev.slice(0, 49)])] *)
Definition handleViewerAction (action : ViewerAction.t) (h : t) : t :=
  mk (action :: take 49 (viewerActions h)) (processedActions h) (gameStats h).

(** [setProcessedActions(prev => new Set(prev).add(actionId))] *)
Definition handleViewerActionProcessed (actionId : string) (h : t) : t :=
  mk (viewerActions h) ({[ actionId ]} ∪ processedActions h) (gameStats h).

(** The [viewerActions] property handed to the game. *)
Definition pendingActions (h : t) : list ViewerAction.t :=
  List.filter
    (fun action => negb (bool_decide (ViewerAction.id action ∈ processedActions h)))
    (viewerActions h).

(** [itemsCollected: Math.floor(score / 10)] *)
Definition itemsCollected (score : Q) : Q := Js.floor (score / 10).

(** The state update of [handleGameOver]. *)
Definition handleGameOver (score distance : Q) (h : t) : t :=
  mk (viewerActions h) (processedActions h)
    (Some (score, distance, itemsCollected score)).

(** The amount computed by [triggerBonkRewards]. *)
Definition bonkReward (score : Q) : Q :=
  let baseReward := Js.floor (score / 100) in
  let bonusReward := if Js.gt score 1000 then Js.floor (score / 500) else 0 in
  Qmax 1 (baseReward + bonusReward).

End Home.

(** ** The producer of viewer actions ([WebSocketHandler]) *)

Module DropEvent.

Record t : Type := mk {
  eventName : string;
  itemName : string;
  position : option (Q * Q)
}.

End DropEvent.

Section Drops.

Variable draws : nat -> Q.
Variable now : Q.

(** The template string [`drop_${Date.now()}_${Math.random()}`]. *)
Variable dropId : Q -> Q -> string.

(** [handleDropEvent]: the action passed to [onViewerAction], if any. *)
Definition handleDropEvent (dropData : DropEvent.t)
  : Rand (option ViewerAction.t) :=
  let eventName := DropEvent.eventName dropData in
  let positionX := option_map fst (DropEvent.position dropData) in
  let positionY := option_map snd (DropEvent.position dropData) in
  let randomX : Rand Q := (r ← mathRandom draws; mret (r * 800)) in
  let randomY : Rand Q := (r ← mathRandom draws; mret (r * 400)) in
  payload ←
    (if String.eqb eventName "Drop Power-up"
        || String.eqb eventName "Drop Shield" then
       x ← orElse positionX randomX;
       y ← orElse positionY randomY;
       mret (Some
               (ViewerAction.powerup
                  {| PowerUpData.x := Some x;
                     PowerUpData.y := Some y;
                     PowerUpData.type :=
                       Some (if String.eqb (DropEvent.itemName dropData)
                                  "Drop Shield"
                             then PowerUpType.shield else PowerUpType.bonus);
                     PowerUpData.points := Some 20;
                     PowerUpData.duration := Some 10000;
                     PowerUpData.rarity := None;
                     PowerUpData.effectStrength := None |}))
     else if String.eqb eventName "Drop Obstacle"
             || String.eqb eventName "Spawn Asteroid" then
       x ← orElse positionX randomX;
       y ← orElse positionY randomY;
       mret (Some
               (ViewerAction.obstacle
                  {| ObstacleData.spawnSide := None;
                     ObstacleData.speed := Some 4;
                     ObstacleData.width := Some 40;
                     ObstacleData.height := Some 40;
                     ObstacleData.x := Some x;
                     ObstacleData.y := Some y;
                     ObstacleData.type := Some ObstacleType.asteroid;
                     ObstacleData.health := None;
                     ObstacleData.damage := None;
                     ObstacleData.isExplosive := None;
                     ObstacleData.explosionRadius := None;
                     ObstacleData.isInvulnerable := None;
                     ObstacleData.invulnerabilityTime := None |}))
     else if String.eqb eventName "Drop Boost"
             || String.eqb eventName "Activate Boost" then
       mret (Some ViewerAction.boost)
     else mret None);
  match payload with
  | None => mret None
  | Some payload =>
    r ← mathRandom draws;
    mret (Some {| ViewerAction.id := dropId now r;
                  ViewerAction.action := payload;
                  ViewerAction.timestamp := now |})
  end.

End Drops.

(** ** Notions used by the further properties *)

(** The flag of each timed effect other than the boost tells whether its
    timer is running. *)
Definition timersConsistent (s : Spaceship.t) : Prop :=
  Spaceship.shield s = Js.gt (Spaceship.shieldTime s) 0
  /\ Spaceship.isInvisible s = Js.gt (Spaceship.invisibilityTime s) 0
  /\ Spaceship.hasMultishot s = Js.gt (Spaceship.multishotTime s) 0
  /\ Spaceship.hasMagnet s = Js.gt (Spaceship.magnetTime s) 0
  /\ Spaceship.isTimeFrozen s = Js.gt (Spaceship.timeFreezeTime s) 0.

(** No timer is negative. *)
Definition timersNonNegative (s : Spaceship.t) : Prop :=
  0 <= Spaceship.boostTime s
  /\ 0 <= Spaceship.shieldTime s
  /\ 0 <= Spaceship.invisibilityTime s
  /\ 0 <= Spaceship.multishotTime s
  /\ 0 <= Spaceship.magnetTime s
  /\ 0 <= Spaceship.timeFreezeTime s.

(** The ship of a game in which a shield and a time-freeze are running. *)
Definition shieldedFrozenShip : Spaceship.t :=
  applyEffect PowerUpType.timefreeze
    (applyEffect PowerUpType.shield initialSpaceship).

(** ** Screen shake *)

(** The three shake fields of the ship. *)
Definition shakeOf (s : Spaceship.t) : Q * Q * Q :=
  (Spaceship.screenShakeIntensity s, Spaceship.screenShakeX s,
   Spaceship.screenShakeY s).

(** No shake: intensity and both offsets are 0. *)
Definition shakeAtRest (s : Spaceship.t) : Prop :=
  Spaceship.screenShakeIntensity s = 0
  /\ Spaceship.screenShakeX s = 0
  /\ Spaceship.screenShakeY s = 0.

(** The shake is at rest or its intensity lies in [0.1, 5], and the offsets
    lie in [-2.5, 2.5]. *)
Definition shakeBounded (s : Spaceship.t) : Prop :=
  (shakeAtRest s
   \/ (0.1 <= Spaceship.screenShakeIntensity s
       /\ Spaceship.screenShakeIntensity s <= 5))
  /\ (-(2.5) <= Spaceship.screenShakeX s /\ Spaceship.screenShakeX s <= 2.5)
  /\ (-(2.5) <= Spaceship.screenShakeY s /\ Spaceship.screenShakeY s <= 2.5).

(** What one frame feeds the ship part of [updateGame]: the keys held, the
    frame time, the two draws of the shake block and the game state. *)
Module Frame.

Record t : Type := mk {
  keys : gset string;
  deltaTime : Q;
  r1 : Q;
  r2 : Q;
  gameState : GameState.t
}.

End Frame.

(** The ship part of consecutive frames, no collision in between. *)
Definition shipFrames (frames : list Frame.t) (s : Spaceship.t) : Spaceship.t :=
  fold_left
    (fun s f =>
       updateShip (Frame.keys f) (Frame.deltaTime f) (Frame.r1 f) (Frame.r2 f)
         (Frame.gameState f) s)
    frames s.

(** The ship right after a hit that it survived. *)
Definition shakenShip : Spaceship.t :=
  ship (fst (hitObstacle (hazard ObstacleType.asteroid 0 0 0 0)
               (initialWorld 0))).

Definition idleFrame : Frame.t :=
  Frame.mk ∅ 16 0.25 0.75 (initialGameState 0).

(** ** Collecting power-ups *)

(** The box of the ship that the overlap tests read. *)
Definition boxOf (s : Spaceship.t) : Q * Q * Q * Q :=
  (Spaceship.x s, Spaceship.y s, Spaceship.width s, Spaceship.height s).

(** What [collectPowerUp] adds to the score at a difficulty level. *)
Definition scoreGain (difficultyLevel : Q) (powerUp : PowerUp.t) : Q :=
  let levelMultiplier := Qmax 1 (Js.floor difficultyLevel) in
  let baseScoreGain := 10 * levelMultiplier in
  let scoreGain :=
    match PowerUp.rarity powerUp with
    | Rarity.common => baseScoreGain
    | Rarity.rare => baseScoreGain * 2
    | Rarity.epic => baseScoreGain * 3
    | Rarity.legendary => baseScoreGain * 5
    end in
  match PowerUp.type powerUp with
  | PowerUpType.bonus => scoreGain + baseScoreGain
  | _ => scoreGain
  end.

Definition totalGain (difficultyLevel : Q) (l : list PowerUp.t) : Q :=
  fold_right (fun p acc => scoreGain difficultyLevel p + acc) 0 l.

(** The effects of a list of power-ups, the last of the list applied first
    (the collision loop runs from the end of the array). *)
Definition applyEffects (l : list PowerUp.t) (s : Spaceship.t) : Spaceship.t :=
  fold_right (fun p s => applyEffect (PowerUp.type p) s) s l.

(** ** The score *)

Definition multipleOfTen (q : Q) : Prop :=
  exists k : Z, (0 <= k)%Z /\ q == 10 * inject_Z k.

(** The score is a non-negative multiple of 10 and at most the high score,
    and the stored best score is the high score. *)
Definition scoreKept (w : World) : Prop :=
  multipleOfTen (GameState.score (gameState w))
  /\ GameState.score (gameState w) <= GameState.highScore (gameState w)
  /\ starRunHighScore w == GameState.highScore (gameState w).

(** A world with a best score of 120 in which the ship overlaps a
    power-up. *)
Definition pickupWorld : World :=
  with_powerUps [pickup PowerUpType.shield 400 500] (initialWorld 120).

(** ** Obstacles across a frame *)

(** An obstacle with its two velocity components blanked: everything the
    separation pass of [avoidOtherObstacles] leaves alone. *)
Definition sansVelocity (o : Obstacle.t) : Obstacle.t :=
  Obstacle.set_velocityX 0 (Obstacle.set_velocityY 0 o).

(** [Math.random()] returns a number in [0, 1). *)
Definition drawsInRange (draws : nat -> Q) : Prop :=
  forall k : nat, 0 <= draws k /\ draws k < 1.

(** The values the game keeps for the spawner: a game speed between 0 and
    30 (the cap of [updateDifficulty]), both obstacle multipliers 1 (they
    are never assigned another value) and a playfield of non-negative
    size. *)
Definition spawnerTuned (g : GameState.t) : Prop :=
  0 <= GameState.gameSpeed g /\ GameState.gameSpeed g <= 30
  /\ GameState.obstacleSizeMultiplier g = 1
  /\ GameState.obstacleSpeedMultiplier g = 1
  /\ 0 <= GameState.width g /\ 0 <= GameState.height g.

(** The separation pass plays no role where this stands in for
    [Math.sqrt]. *)
Definition flatSqrt : Q -> Q := fun _ => 0.

(** An obstacle that the next obstacle pass removes, frozen or not. *)
Definition leavesAtOnce (g : GameState.t) (o : Obstacle.t) : Prop :=
  forall frozen : bool, isOffScreen g (moveObstacle frozen o) = true.

(** ** The status timers, block by block *)

(** The block [updateGame] repeats for each of the five status effects:
    [if (time > 0) { time = Math.max(0, time - deltaTime); flag = time > 0 }]. *)
Definition timerBlock (time : Spaceship.t -> Q)
    (set_time : Q -> Spaceship.t -> Spaceship.t)
    (set_flag : bool -> Spaceship.t -> Spaceship.t)
    (deltaTime : Q) (s : Spaceship.t) : Spaceship.t :=
  if Js.gt (time s) 0 then
    let s := set_time (Qmax 0 (time s - deltaTime)) s in
    set_flag (Js.gt (time s) 0) s
  else s.

(** ** The page and the game together *)

(** Viewer actions arriving one after the other. *)
Definition arrivals (actions : list ViewerAction.t) (h : Home.t) : Home.t :=
  fold_left (fun h action => Home.handleViewerAction action h) actions h.

(** The calls of [onViewerActionProcessed] an effect run makes. *)
Definition acknowledged (ids : list string) (h : Home.t) : Home.t :=
  fold_left (fun h actionId => Home.handleViewerActionProcessed actionId h)
    ids h.

(** The number of power-up collections in a sequence of operations. *)
Definition collections (ops : list CraftOp) : nat :=
  length (List.filter (fun op => match op with Collect _ => true | _ => false end)
            ops).

Definition boostAction (id : string) : ViewerAction.t :=
  ViewerAction.mk id ViewerAction.boost 0.

(** A page holding two boost requests, the older one already handled. *)
Definition busyHome : Home.t :=
  Home.handleViewerActionProcessed "a1"
    (arrivals [boostAction "a1"; boostAction "a2"] Home.initial).

(** A drop event asking for an asteroid at (300, 200), and one named "Drop
    Shield" whose item is called "Shield", at the same place. *)
Definition asteroidDrop : DropEvent.t :=
  DropEvent.mk "Spawn Asteroid" "Asteroid" (Some (300, 200)).

Definition shieldDrop : DropEvent.t :=
  DropEvent.mk "Drop Shield" "Shield" (Some (300, 200)).

Definition fixedDropId : Q -> Q -> string := fun _ _ => "drop_0_0.5".

(** ** The tunables of the game state *)

(** The ranges the difficulty tunables stay in; the three multipliers and
    the rarity factor are never assigned anything but 1. *)
Definition tuned (g : GameState.t) : Prop :=
  (1 <= GameState.difficultyLevel g /\ GameState.difficultyLevel g <= 20)
  /\ (1 <= GameState.gameSpeed g /\ GameState.gameSpeed g <= 30)
  /\ (300 <= GameState.obstacleSpawnRate g
      /\ GameState.obstacleSpawnRate g <= 1800)
  /\ (5000 <= GameState.powerUpSpawnRate g
      /\ GameState.powerUpSpawnRate g <= 9000)
  /\ GameState.obstacleSizeMultiplier g = 1
  /\ GameState.obstacleSpeedMultiplier g = 1
  /\ GameState.obstacleCountMultiplier g = 1
  /\ GameState.powerUpRarity g = 1.

(** ** A well-formed game *)

(** The flags agree with their timers, no timer is negative, the shake is
    in range, the score is kept and the tunables are in range. *)
Definition wellFormed (w : World) : Prop :=
  timersConsistent (ship w)
  /\ timersNonNegative (ship w)
  /\ shakeBounded (ship w)
  /\ scoreKept w
  /\ tuned (gameState w).

(** A component at the start of a game, no key held. *)
Definition initialGame (stored : Q) : Game :=
  mkGame (initialWorld stored) ∅ 0 0 0 0 [] [].

(** ** Boost time and the keyboard *)

(** The time Space was held over a sequence of frames. *)
Definition spaceTime (frames : list Frame.t) : Q :=
  fold_right
    (fun f acc =>
       (if has "Space" (Frame.keys f) then Frame.deltaTime f else 0) + acc)
    0 frames.

(** What the window delivers to the two listeners. *)
Inductive KeyEvent : Type :=
| KeyDown (code : string)
| KeyUp (code : string).

Definition dispatch (c : Game) (e : KeyEvent) : Game :=
  match e with
  | KeyDown code => handleKeyDown code c
  | KeyUp code => handleKeyUp code c
  end.

(** The keys physically held after an event. *)
Definition physical (held : gset string) (e : KeyEvent) : gset string :=
  match e with
  | KeyDown code => {[ code ]} ∪ held
  | KeyUp code => held ∖ {[ code ]}
  end.

(** A ship with 5000 ms of boost, as after a viewer's boost action. *)
Definition boostedShip : Spaceship.t :=
  ship (activateBoost (initialWorld 0)).

Definition spaceFrame (deltaTime : Q) : Frame.t :=
  Frame.mk {[ "Space" ]} deltaTime 0.25 0.75 (initialGameState 0).

(** ** Pulls and pushes *)

(** A stand-in for [Math.sqrt] that is right at 25. *)
Definition sqrtAt25 : Q -> Q := fun q => if Qeq_bool q 25 then 5 else 0.

(** The ship with the magnet on, and a power-up whose centre lies 3 to the
    left of and 4 above the centre of the ship. *)
Definition magnetShip : Spaceship.t :=
  applyEffect PowerUpType.magnet initialSpaceship.

Definition nearbyPickup : PowerUp.t := pickup PowerUpType.bonus 404.5 498.5.

(** ** Early levels *)

(** An obstacle of the three base kinds, dealing a damage of 1. *)
Definition gentle (o : Obstacle.t) : Prop :=
  (Obstacle.type o = ObstacleType.asteroid
   \/ Obstacle.type o = ObstacleType.debris
   \/ Obstacle.type o = ObstacleType.enemy)
  /\ damageOf o = 1.

(** 150 hits by a debris. *)
Definition manyGentleHits : list CraftOp :=
  repeat (Damage (hazard ObstacleType.debris 400 500 0 0)) 150.

(** * Properties *)

(** ** Comparisons and rounding *)

Lemma lt_true (a b : Q) : Js.lt a b = true <-> a < b.
Proof.
  unfold Js.lt. rewrite negb_true_iff. split; intros H.
  - apply Qnot_le_lt. intros Hc. apply Qle_bool_iff in Hc. congruence.
  - destruct (Qle_bool b a) eqn:E; [|reflexivity].
    apply Qle_bool_iff in E. lra.
Qed.

Lemma lt_false (a b : Q) : Js.lt a b = false <-> b <= a.
Proof.
  unfold Js.lt. rewrite negb_false_iff. apply Qle_bool_iff.
Qed.

Lemma gt_true (a b : Q) : Js.gt a b = true <-> b < a.
Proof. apply lt_true. Qed.

Lemma gt_false (a b : Q) : Js.gt a b = false <-> a <= b.
Proof. apply lt_false. Qed.

Lemma le_true (a b : Q) : Js.le a b = true <-> a <= b.
Proof. apply Qle_bool_iff. Qed.

Lemma le_false (a b : Q) : Js.le a b = false <-> b < a.
Proof.
  unfold Js.le. split; intros H.
  - apply Qnot_le_lt. intros Hc. apply Qle_bool_iff in Hc. congruence.
  - destruct (Qle_bool a b) eqn:E; [|reflexivity].
    apply Qle_bool_iff in E. lra.
Qed.

Lemma ge_true (a b : Q) : Js.ge a b = true <-> b <= a.
Proof. apply Qle_bool_iff. Qed.

Lemma ge_false (a b : Q) : Js.ge a b = false <-> a < b.
Proof. apply le_false. Qed.

(** Case analysis on a comparison, leaving the order fact in the context. *)
Ltac js_cmp c :=
  let E := fresh "E" in
  destruct c eqn:E;
  [ first [ apply lt_true in E | apply gt_true in E
          | apply le_true in E | apply ge_true in E ]
  | first [ apply lt_false in E | apply gt_false in E
          | apply le_false in E | apply ge_false in E ] ].

Lemma Qmax_cases (a b : Q) :
  (a <= b /\ Qmax a b = b) \/ (b <= a /\ Qmax a b = a).
Proof.
  unfold Qmax, GenericMinMax.gmax.
  destruct (Qcompare_spec a b) as [H|H|H]; [right|left|right]; split;
    try reflexivity; lra.
Qed.

Lemma Qmin_cases (a b : Q) :
  (a <= b /\ Qmin a b = a) \/ (b <= a /\ Qmin a b = b).
Proof.
  unfold Qmin, GenericMinMax.gmin.
  destruct (Qcompare_spec a b) as [H|H|H]; [left|left|right]; split;
    try reflexivity; lra.
Qed.

Lemma round_comp (a b : Q) : a == b -> Js.round a = Js.round b.
Proof.
  intros H. unfold Js.round. f_equal. apply Qfloor_comp. rewrite H. reflexivity.
Qed.

Lemma round_mono (a b : Q) : a <= b -> Js.round a <= Js.round b.
Proof.
  intros H. unfold Js.round. rewrite <- Zle_Qle.
  apply Qfloor_resp_le. lra.
Qed.

Lemma round_Z (z : Z) : Js.round (inject_Z z) == inject_Z z.
Proof.
  unfold Js.round.
  assert (H : Qfloor (inject_Z z + 0.5) = z).
  { pose proof (Qfloor_le (inject_Z z + 0.5)) as H1.
    pose proof (Qlt_floor (inject_Z z + 0.5)) as H2.
    assert (H3 : inject_Z (Qfloor (inject_Z z + 0.5)) < inject_Z (z + 1)).
    { rewrite inject_Z_plus. change (inject_Z 1) with 1. lra. }
    assert (H4 : inject_Z (z - 1) < inject_Z (Qfloor (inject_Z z + 0.5))).
    { rewrite inject_Z_plus in H2. unfold Z.sub.
      rewrite inject_Z_plus, inject_Z_opp.
      change (inject_Z 1) with 1 in *. lra. }
    rewrite <- Zlt_Qlt in H3, H4. lia. }
  rewrite H. reflexivity.
Qed.

(** ** Double precision *)

Section Doubles.

Import F64.

Lemma pow2_pos (e : Z) : 0 < pow2 e.
Proof. apply Qpower_0_lt. reflexivity. Qed.

Lemma pow2_plus (a b : Z) : pow2 (a + b) == pow2 a * pow2 b.
Proof. apply Qpower_plus. discriminate. Qed.

Lemma pow2_succ (a : Z) : pow2 (a + 1) == 2 * pow2 a.
Proof. rewrite pow2_plus. change (pow2 1) with 2. ring. Qed.

Lemma pow2_le (a b : Z) : (a <= b)%Z -> pow2 a <= pow2 b.
Proof. intros H. apply Qpower_le_compat_l; [exact H|discriminate]. Qed.

Lemma pow2_lt_inv (a b : Z) : pow2 a < pow2 b -> (a < b)%Z.
Proof. intros H. apply (Qpower_lt_compat_l_inv 2); [exact H|reflexivity]. Qed.

Lemma pow2_Z (e : Z) : (0 <= e)%Z -> pow2 e == inject_Z (2 ^ e).
Proof. intros H. symmetry. apply (Zpower_Qpower 2 e H). Qed.

Lemma inBinade_spec (a : Q) (e : Z) :
  inBinade a e = true <-> pow2 e <= a /\ a < pow2 (e + 1).
Proof.
  unfold inBinade. rewrite andb_true_iff, negb_true_iff, Qle_bool_iff.
  split; intros [H1 H2]; split; try exact H1.
  - apply Qnot_le_lt. intros H. apply Qle_bool_iff in H. congruence.
  - destruct (Qle_bool (pow2 (e + 1)) a) eqn:E; [|reflexivity].
    apply Qle_bool_iff in E. lra.
Qed.

Lemma inBinade_unique (a : Q) (e e' : Z) :
  inBinade a e = true -> inBinade a e' = true -> e = e'.
Proof.
  rewrite !inBinade_spec. intros [H1 H2] [H3 H4].
  assert (e < e' + 1)%Z by (apply pow2_lt_inv; lra).
  assert (e' < e + 1)%Z by (apply pow2_lt_inv; lra).
  lia.
Qed.

Lemma binade_sound (a : Q) (e : Z) :
  binade a = Some e -> pow2 e <= a /\ a < pow2 (e + 1).
Proof.
  unfold binade.
  destruct (inBinade a _) eqn:E1.
  - intros [= <-]. apply inBinade_spec. exact E1.
  - destruct (inBinade a (_ - 1)) eqn:E2; [|discriminate].
    intros [= <-]. apply inBinade_spec. exact E2.
Qed.

Lemma log2_brackets (a : Q) :
  0 < a ->
  let e0 := (Z.log2 (Qnum a) - Z.log2 (Zpos (Qden a)))%Z in
  pow2 (e0 - 1) <= a /\ a < pow2 (e0 + 1).
Proof.
  destruct a as [n d]. intros Ha. cbn [Qnum Qden].
  assert (Hn : (0 < n)%Z).
  { unfold Qlt in Ha. cbn in Ha. lia. }
  pose proof (Z.log2_spec n Hn) as [Hn1 Hn2].
  pose proof (Z.log2_spec (Zpos d) eq_refl) as [Hd1 Hd2].
  pose proof (Z.log2_nonneg n) as Ln.
  pose proof (Z.log2_nonneg (Zpos d)) as Ld.
  set (ln := Z.log2 n) in *. set (ld := Z.log2 (Zpos d)) in *.
  rewrite Zle_Qle in Hn1, Hd1. rewrite Zlt_Qlt in Hn2, Hd2.
  rewrite <- pow2_Z in Hn1, Hn2, Hd1, Hd2 by lia.
  unfold Z.succ in Hn2, Hd2. rewrite pow2_succ in Hn2, Hd2.
  pose proof (pow2_pos ln) as Pn. pose proof (pow2_pos ld) as Pd.
  assert (E1 : pow2 (ln - ld - 1) * (2 * pow2 ld) == pow2 ln).
  { rewrite <- pow2_succ, <- pow2_plus. apply Qpower_comp; [reflexivity|lia]. }
  assert (E2 : pow2 (ln - ld + 1) * pow2 ld == 2 * pow2 ln).
  { rewrite <- pow2_succ, <- pow2_plus. apply Qpower_comp; [reflexivity|lia]. }
  assert (E3 : (n # d) * inject_Z (Zpos d) == inject_Z n).
  { rewrite (Qmake_Qdiv n d). field. discriminate. }
  pose proof (pow2_pos (ln - ld - 1)) as P1.
  pose proof (pow2_pos (ln - ld + 1)) as P2.
  set (A := inject_Z n) in *. set (D := inject_Z (Zpos d)) in *.
  set (X := n # d) in *.
  set (U := pow2 (ln - ld - 1)) in *. set (V := pow2 (ln - ld + 1)) in *.
  set (Pl := pow2 ln) in *. set (Pd' := pow2 ld) in *.
  split.
  - apply Qnot_lt_le. intros H. 
    assert (X * D < U * (2 * Pd')) by nra. lra.
  - apply Qnot_le_lt. intros H.
    assert (V * Pd' <= X * D) by nra. lra.
Qed.

Lemma binade_total (a : Q) : 0 < a -> exists e, binade a = Some e.
Proof.
  intros Ha. destruct (log2_brackets a Ha) as [H1 H2]. unfold binade.
  set (e0 := (Z.log2 (Qnum a) - Z.log2 (Zpos (Qden a)))%Z) in *.
  destruct (inBinade a e0) eqn:E1; [eauto|].
  assert (E2 : inBinade a (e0 - 1) = true).
  { apply inBinade_spec. split; [exact H1|].
    replace (e0 - 1 + 1)%Z with e0 by lia.
    apply Qnot_le_lt. intros H.
    assert (inBinade a e0 = true) by (apply inBinade_spec; split; assumption).
    congruence. }
  rewrite E2. eauto.
Qed.

Lemma binade_nonpos (a : Q) : a <= 0 -> binade a = None.
Proof.
  intros Ha.
  assert (H : forall e, inBinade a e = false).
  { intros e. destruct (inBinade a e) eqn:E; [|reflexivity].
    apply inBinade_spec in E. pose proof (pow2_pos e). lra. }
  unfold binade. rewrite !H. reflexivity.
Qed.

Lemma binade_complete (a : Q) (e : Z) :
  pow2 e <= a -> a < pow2 (e + 1) -> binade a = Some e.
Proof.
  intros H1 H2. pose proof (pow2_pos e) as P.
  destruct (binade_total a) as [e' E]; [lra|].
  rewrite E. f_equal. pose proof (binade_sound _ _ E) as [H3 H4].
  apply (inBinade_unique a); apply inBinade_spec; split; assumption.
Qed.

Lemma binade_comp (a b : Q) : a == b -> binade a = binade b.
Proof.
  intros H. destruct (Qlt_le_dec 0 a) as [Ha|Ha].
  - destruct (binade_total a Ha) as [e E]. rewrite E. symmetry.
    apply binade_sound in E as [H1 H2].
    apply binade_complete; rewrite <- H; assumption.
  - rewrite !binade_nonpos; [reflexivity| rewrite <- H; exact Ha | exact Ha].
Qed.


Lemma roundHalfEven_comp (s t : Q) : s == t -> roundHalfEven s = roundHalfEven t.
Proof.
  intros H. unfold roundHalfEven. rewrite (Qfloor_comp _ _ H).
  assert (E : Qcompare (s - inject_Z (Qfloor t)) (1 # 2)
              = Qcompare (t - inject_Z (Qfloor t)) (1 # 2)).
  { apply Qcompare_comp; [rewrite H|]; reflexivity. }
  rewrite E. reflexivity.
Qed.

(** What [roundHalfEven] returns: the floor or the integer above it, by the
    position of the fraction with respect to one half. *)
Lemma roundHalfEven_cases (s : Q) :
  let f := Qfloor s in
  inject_Z f <= s < inject_Z f + 1
  /\ ((roundHalfEven s = f /\ s - inject_Z f <= 1 # 2)
      \/ (roundHalfEven s = (f + 1)%Z /\ 1 # 2 <= s - inject_Z f)).
Proof.
  cbv zeta. pose proof (Qfloor_le s) as H1. pose proof (Qlt_floor s) as H2.
  rewrite inject_Z_plus in H2. change (inject_Z 1) with 1 in H2.
  split; [split; assumption|]. unfold roundHalfEven.
  destruct (Qcompare (s - inject_Z (Qfloor s)) (1 # 2)) eqn:E.
  - apply Qeq_alt in E. destruct (Z.even (Qfloor s)).
    + left. split; [reflexivity|lra].
    + right. split; [reflexivity|lra].
  - apply Qlt_alt in E. left. split; [reflexivity|lra].
  - apply Qgt_alt in E. right. split; [reflexivity|lra].
Qed.

Lemma roundHalfEven_near (s : Q) :
  - (1 # 2) <= inject_Z (roundHalfEven s) - s <= 1 # 2.
Proof.
  destruct (roundHalfEven_cases s) as [[H1 H2] [[-> H]|[-> H]]].
  - lra.
  - rewrite inject_Z_plus. change (inject_Z 1) with 1. lra.
Qed.

Lemma roundHalfEven_Z (z : Z) : roundHalfEven (inject_Z z) = z.
Proof.
  unfold roundHalfEven. rewrite Qfloor_Z.
  assert (E : Qcompare (inject_Z z - inject_Z z) (1 # 2) = Lt).
  { rewrite <- Qlt_alt. assert (E0 : inject_Z z - inject_Z z == 0) by ring.
    rewrite E0. reflexivity. }
  rewrite E. reflexivity.
Qed.

Lemma roundHalfEven_mono (s t : Q) :
  s <= t -> (roundHalfEven s <= roundHalfEven t)%Z.
Proof.
  intros H. pose proof (Qfloor_resp_le _ _ H) as Hf.
  destruct (Z.eq_dec (Qfloor s) (Qfloor t)) as [E|N].
  - unfold roundHalfEven. rewrite E.
    destruct (Qcompare (s - inject_Z (Qfloor t)) (1 # 2)) eqn:E1;
      destruct (Qcompare (t - inject_Z (Qfloor t)) (1 # 2)) eqn:E2;
      repeat match goal with
             | H : Qcompare _ _ = Eq |- _ => apply Qeq_alt in H
             | H : Qcompare _ _ = Lt |- _ => apply Qlt_alt in H
             | H : Qcompare _ _ = Gt |- _ => apply Qgt_alt in H
             end;
      try (exfalso; lra); destruct (Z.even (Qfloor t)); lia.
  - destruct (roundHalfEven_cases s) as [_ [[-> _]|[-> _]]];
      destruct (roundHalfEven_cases t) as [_ [[-> _]|[-> _]]]; lia.
Qed.

Lemma roundHalfEven_ge (s : Q) (z : Z) :
  inject_Z z <= s -> (z <= roundHalfEven s)%Z.
Proof.
  intros H. rewrite <- (roundHalfEven_Z z). apply roundHalfEven_mono. exact H.
Qed.

Lemma roundHalfEven_le (s : Q) (z : Z) :
  s <= inject_Z z -> (roundHalfEven s <= z)%Z.
Proof.
  intros H. pose proof (roundHalfEven_mono _ _ H) as M.
  rewrite roundHalfEven_Z in M. exact M.
Qed.

(** The shape of a rounded positive number: a 53-bit integer times the unit
    in the last place of its binade. *)
Lemma nearest_pos (x : Q) :
  0 < x ->
  exists (e m : Z),
    binade x = Some e
    /\ pow2 e <= x /\ x < pow2 (e + 1)
    /\ m = roundHalfEven (x / pow2 (e - 52))
    /\ (2 ^ 52 <= m <= 2 ^ 53)%Z
    /\ nearest x = inject_Z m * pow2 (e - 52).
Proof.
  intros Hx. destruct (binade_total x Hx) as [e E].
  pose proof (binade_sound _ _ E) as [H1 H2].
  exists e, (roundHalfEven (x / pow2 (e - 52))).
  pose proof (pow2_pos (e - 52)) as P.
  assert (Ee : pow2 e == pow2 52 * pow2 (e - 52)).
  { rewrite <- pow2_plus. apply Qpower_comp; [reflexivity|lia]. }
  assert (Ee1 : pow2 (e + 1) == pow2 53 * pow2 (e - 52)).
  { rewrite <- pow2_plus. apply Qpower_comp; [reflexivity|lia]. }
  repeat match goal with |- _ /\ _ => split end; try assumption; try reflexivity.
  - apply roundHalfEven_ge. rewrite <- pow2_Z by lia.
    apply Qle_shift_div_l; [exact P|]. rewrite <- Ee. exact H1.
  - apply roundHalfEven_le. rewrite <- pow2_Z by lia.
    apply Qle_shift_div_r; [exact P|]. rewrite <- Ee1. lra.
  - unfold nearest.
    assert (Ea : binade (Qabs x) = Some e).
    { rewrite <- E. apply binade_comp. apply Qabs_pos. lra. }
    rewrite Ea. cbv zeta.
    assert (Hb : Qle_bool 0 x = true) by (apply Qle_bool_iff; lra).
    rewrite Hb. f_equal. f_equal. apply roundHalfEven_comp.
    rewrite Qabs_pos by lra. reflexivity.
Qed.

Lemma nearest_0 (x : Q) : x == 0 -> nearest x = x.
Proof.
  intros H. unfold nearest. rewrite binade_nonpos; [reflexivity|].
  rewrite H. discriminate.
Qed.

Lemma nearest_opp (x : Q) : nearest (- x) == - nearest x.
Proof.
  destruct (Qeq_dec x 0) as [E|N].
  - rewrite !nearest_0; [reflexivity|exact E|rewrite E; reflexivity].
  - unfold nearest. rewrite (binade_comp (Qabs (- x)) (Qabs x)) by apply Qabs_opp.
    destruct (binade (Qabs x)) as [e|]; [|reflexivity]. cbv zeta.
    rewrite (roundHalfEven_comp (Qabs (- x) / pow2 (e - 52)) (Qabs x / pow2 (e - 52)))
      by (rewrite Qabs_opp; reflexivity).
    destruct (Qle_bool 0 x) eqn:E1; destruct (Qle_bool 0 (- x)) eqn:E2;
      try apply Qle_bool_iff in E1; try apply Qle_bool_iff in E2.
    + exfalso. apply N. lra.
    + reflexivity.
    + ring.
    + exfalso.
      assert (~ 0 <= x) by (intros H0; apply Qle_bool_iff in H0; congruence).
      assert (~ 0 <= - x) by (intros H0; apply Qle_bool_iff in H0; congruence).
      lra.
Qed.

Lemma nearest_comp (x y : Q) : x == y -> nearest x == nearest y.
Proof.
  intros H. destruct (Qeq_dec x 0) as [E|N].
  - rewrite !nearest_0; [exact H|rewrite <- H; exact E|exact E].
  - unfold nearest.
    rewrite (binade_comp (Qabs x) (Qabs y)) by (rewrite H; reflexivity).
    destruct (binade (Qabs y)) as [e|]; [|exact H]. cbv zeta.
    rewrite (roundHalfEven_comp (Qabs x / pow2 (e - 52)) (Qabs y / pow2 (e - 52)))
      by (rewrite H; reflexivity).
    assert (Eb : Qle_bool 0 x = Qle_bool 0 y).
    { destruct (Qle_bool 0 x) eqn:E1; destruct (Qle_bool 0 y) eqn:E2;
        try reflexivity.
      - apply Qle_bool_iff in E1. rewrite H in E1. apply Qle_bool_iff in E1.
        congruence.
      - apply Qle_bool_iff in E2. rewrite <- H in E2. apply Qle_bool_iff in E2.
        congruence. }
    rewrite Eb. reflexivity.
Qed.

#[global] Instance nearest_proper : Proper (Qeq ==> Qeq) nearest.
Proof. intros x y H. apply nearest_comp. exact H. Qed.

(** The relative error of one rounding: at most 2^-53. *)
Lemma nearest_err_pos (x : Q) :
  0 <= x ->
  x * (1 - (1 # 9007199254740992)) <= nearest x 
  /\ nearest x <= x * (1 + (1 # 9007199254740992)).
Proof.
  intros Hx. destruct (Qeq_dec x 0) as [E|N].
  - rewrite nearest_0 by exact E. lra.
  - destruct (nearest_pos x) as (e & m & _ & H1 & H2 & -> & Hm & ->); [lra|].
    pose proof (pow2_pos (e - 52)) as P.
    assert (Ee : pow2 e == 4503599627370496 * pow2 (e - 52)).
    { change 4503599627370496 with (pow2 52).
      rewrite <- pow2_plus. apply Qpower_comp; [reflexivity|lia]. }
    pose proof (roundHalfEven_near (x / pow2 (e - 52))) as [N1 N2].
    set (M := inject_Z (roundHalfEven (x / pow2 (e - 52)))) in *.
    assert (Es : x / pow2 (e - 52) * pow2 (e - 52) == x) by (field; lra).
    set (s := x / pow2 (e - 52)) in *. set (ulp := pow2 (e - 52)) in *.
    split; nra.
Qed.

Lemma nearest_nonneg (x : Q) : 0 <= x -> 0 <= nearest x.
Proof. intros H. pose proof (nearest_err_pos x H). nra. Qed.

Lemma nearest_mono_pos (x y : Q) : 0 < x -> x <= y -> nearest x <= nearest y.
Proof.
  intros Hx Hxy.
  destruct (nearest_pos x Hx) as (e & m & _ & H1 & H2 & Em & Hm & ->).
  destruct (nearest_pos y) as (e' & m' & _ & H1' & H2' & Em' & Hm' & ->); [lra|].
  assert (He : (e <= e')%Z).
  { assert (e < e' + 1)%Z by (apply pow2_lt_inv; lra). lia. }
  pose proof (pow2_pos (e - 52)) as P. pose proof (pow2_pos (e' - 52)) as P'.
  destruct (Z.eq_dec e e') as [<-|Ne].
  - assert (m <= m')%Z.
    { subst m m'. apply roundHalfEven_mono.
      apply Qmult_le_compat_r; [exact Hxy|]. apply Qlt_le_weak, Qinv_lt_0_compat, P. }
    apply Qmult_le_compat_r; [|lra]. rewrite <- Zle_Qle. assumption.
  - assert (E1 : inject_Z m * pow2 (e - 52) <= pow2 (e + 1)).
    { assert (Ee1 : pow2 (e + 1) == pow2 53 * pow2 (e - 52)).
      { rewrite <- pow2_plus. apply Qpower_comp; [reflexivity|lia]. }
      rewrite Ee1. apply Qmult_le_compat_r; [|lra].
      rewrite pow2_Z by lia. rewrite <- Zle_Qle. lia. }
    assert (E2 : pow2 e' <= inject_Z m' * pow2 (e' - 52)).
    { assert (Ee : pow2 e' == pow2 52 * pow2 (e' - 52)).
      { rewrite <- pow2_plus. apply Qpower_comp; [reflexivity|lia]. }
      rewrite Ee. apply Qmult_le_compat_r; [|lra].
      rewrite pow2_Z by lia. rewrite <- Zle_Qle. lia. }
    assert (E3 : pow2 (e + 1) <= pow2 e') by (apply pow2_le; lia).
    lra.
Qed.

Lemma nearest_mono (x y : Q) : x <= y -> nearest x <= nearest y.
Proof.
  intros H. destruct (Qlt_le_dec 0 x) as [Hx|Hx].
  - apply nearest_mono_pos; assumption.
  - destruct (Qlt_le_dec 0 y) as [Hy|Hy].
    + pose proof (nearest_nonneg y (Qlt_le_weak _ _ Hy)) as H1.
      assert (H2 : 0 <= nearest (- x)) by (apply nearest_nonneg; lra).
      rewrite nearest_opp in H2. lra.
    + destruct (Qeq_dec y 0) as [E|N].
      * rewrite (nearest_0 y E), E.
        assert (H2 : 0 <= nearest (- x)) by (apply nearest_nonneg; lra).
        rewrite nearest_opp in H2. lra.
      * assert (H2 : nearest (- y) <= nearest (- x))
          by (apply nearest_mono_pos; lra).
        rewrite !nearest_opp in H2. lra.
Qed.

(** A 53-bit integer scaled by a power of two is a double. *)
Lemma nearest_exact_below (z j : Z) :
  (0 < z < 2 ^ 53)%Z ->
  nearest (inject_Z z * pow2 j) == inject_Z z * pow2 j.
Proof.
  intros Hz. pose proof (pow2_pos j) as Pj.
  assert (Hz' : 0 < inject_Z z) by (change 0 with (inject_Z 0); rewrite <- Zlt_Qlt; lia).
  assert (Hx : 0 < inject_Z z * pow2 j) by nra.
  destruct (nearest_pos _ Hx) as (e & m & _ & H1 & H2 & Em & Hm & ->).
  pose proof (pow2_pos (e - 52)) as P.
  assert (He : (e - 52 <= j)%Z).
  { assert (Hlt : pow2 e < pow2 (j + 53)).
    { assert (inject_Z z < pow2 53).
      { rewrite pow2_Z by lia. rewrite <- Zlt_Qlt. lia. }
      assert (E : pow2 (j + 53) == pow2 53 * pow2 j).
      { rewrite <- pow2_plus. apply Qpower_comp; [reflexivity|lia]. }
      assert (inject_Z z * pow2 j < pow2 53 * pow2 j)
        by (apply Qmult_lt_compat_r; lra).
      rewrite E. lra. }
    apply pow2_lt_inv in Hlt. lia. }
  assert (Ej : pow2 j == inject_Z (2 ^ (j - (e - 52))) * pow2 (e - 52)).
  { rewrite <- pow2_Z by lia. rewrite <- pow2_plus.
    apply Qpower_comp; [reflexivity|lia]. }
  assert (Es : inject_Z z * pow2 j / pow2 (e - 52)
               == inject_Z (z * 2 ^ (j - (e - 52)))).
  { rewrite inject_Z_mult. rewrite Ej. field. lra. }
  rewrite (roundHalfEven_comp _ _ Es), roundHalfEven_Z in Em. subst m.
  rewrite inject_Z_mult. rewrite Ej. ring.
Qed.

Lemma nearest_exact_pos (z j : Z) :
  (0 < z <= 2 ^ 53)%Z ->
  nearest (inject_Z z * pow2 j) == inject_Z z * pow2 j.
Proof.
  intros Hz. destruct (Z.eq_dec z (2 ^ 53)%Z) as [->|N].
  - assert (E : inject_Z (2 ^ 53) * pow2 j == inject_Z (2 ^ 52) * pow2 (j + 1)).
    { rewrite pow2_succ. change (inject_Z (2 ^ 53)) with (2 * inject_Z (2 ^ 52)).
      ring. }
    rewrite E. apply nearest_exact_below. lia.
  - apply nearest_exact_below. lia.
Qed.

Lemma nearest_exact (z j : Z) :
  (- 2 ^ 53 <= z <= 2 ^ 53)%Z ->
  nearest (inject_Z z * pow2 j) == inject_Z z * pow2 j.
Proof.
  intros Hz. destruct (Z.lt_trichotomy z 0) as [H|[->|H]].
  - assert (E : inject_Z z * pow2 j == - (inject_Z (- z) * pow2 j)).
    { rewrite inject_Z_opp. ring. }
    rewrite E, nearest_opp, nearest_exact_pos; [reflexivity|lia].
  - rewrite nearest_0; [reflexivity|]. change (inject_Z 0) with 0. ring.
  - apply nearest_exact_pos. lia.
Qed.

Lemma nearest_Z (z : Z) :
  (- 2 ^ 53 <= z <= 2 ^ 53)%Z -> nearest (inject_Z z) == inject_Z z.
Proof.
  intros Hz. pose proof (nearest_exact z 0 Hz) as H.
  change (pow2 0) with 1 in H.
  rewrite (nearest_comp (inject_Z z) (inject_Z z * 1)) by ring.
  rewrite H. ring.
Qed.




Lemma nearest_le_Z (x : Q) (z : Z) :
  (- 2 ^ 53 <= z <= 2 ^ 53)%Z -> x <= inject_Z z -> nearest x <= inject_Z z.
Proof.
  intros Hz H. rewrite <- (nearest_Z z Hz). apply nearest_mono. exact H.
Qed.

Lemma nearest_ge_Z (x : Q) (z : Z) :
  (- 2 ^ 53 <= z <= 2 ^ 53)%Z -> inject_Z z <= x -> inject_Z z <= nearest x.
Proof.
  intros Hz H. rewrite <- (nearest_Z z Hz). apply nearest_mono. exact H.
Qed.





End Doubles.

#[global] Instance round_proper : Proper (Qeq ==> Qeq) Js.round.
Proof. intros a b H. rewrite (round_comp a b H). reflexivity. Qed.

(** ** Difficulty controller *)

Section Difficulty.

Lemma threshold_Z (L : Z) : threshold L == inject_Z (50 * L * (L - 1)).
Proof.
  unfold threshold, Z.sub.
  rewrite !inject_Z_mult, inject_Z_plus, inject_Z_opp.
  change (inject_Z 50) with 50. change (inject_Z 1) with 1. field.
Qed.


Lemma threshold_nonneg (L : Z) : 0 <= threshold L.
Proof.
  rewrite threshold_Z. change 0 with (inject_Z 0). rewrite <- Zle_Qle. nia.
Qed.

(** The loop keeps [pointsForNextLevel = T(currentLevel + 1)], ends as soon
    as the fuel exceeds the distance from that threshold to the score, and
    stops at the level whose thresholds enclose the score. *)
Lemma levelLoop_enough (fuel : nat) (s : Q) :
  forall L next : Z,
    (1 <= L)%Z ->
    next = (50 * L * (L + 1))%Z ->
    (Z.to_nat (Qfloor s + 1 - next) < fuel)%nat ->
    threshold L <= s ->
    exists L' : Z,
      levelLoop fuel s L next = Some (L', (50 * L' * (L' + 1))%Z)
      /\ (L <= L')%Z
      /\ threshold L' <= s /\ s < threshold (L' + 1).
Proof.
  induction fuel as [|fuel IH]; intros L next HL Hnext Hfuel Hlow; [lia|].
  simpl. js_cmp (Js.ge s (inject_Z next)).
  - assert (Hfl : (next <= Qfloor s)%Z).
    { rewrite <- (Qfloor_Z next). apply Qfloor_resp_le. exact E. }
    destruct (IH (L + 1)%Z (next + 100 * (L + 1))%Z) as (L' & HL' & Hle & Hb).
    + lia.
    + subst next. ring.
    + lia.
    + rewrite threshold_Z.
      replace (50 * (L + 1) * (L + 1 - 1))%Z with next by (subst next; ring).
      exact E.
    + exists L'. rewrite HL'. split; [reflexivity|]. split; [lia|exact Hb].
  - exists L. split; [rewrite Hnext; reflexivity|].
    split; [lia|]. split; [exact Hlow|].
    rewrite threshold_Z.
    replace (50 * (L + 1) * (L + 1 - 1))%Z with next by (subst next; ring).
    exact E.
Qed.


(** [pointsForCurrentLevel] is the threshold of the level. *)
Lemma pointsForCurrentLevel_threshold (L : Z) :
  (if (L =? 1)%Z then 0 else 100 * (inject_Z L - 1) * inject_Z L / 2)
  == threshold L.
Proof.
  destruct (L =? 1)%Z eqn:E.
  - apply Z.eqb_eq in E. subst L. reflexivity.
  - unfold threshold. field.
Qed.


Lemma applyDifficulty_level (r : Q) (g : GameState.t) :
  GameState.difficultyLevel (applyDifficulty r g) = Qmin r 20.
Proof.
  unfold applyDifficulty.
  repeat match goal with |- context [if ?c then _ else _] => destruct c end;
    reflexivity.
Qed.


(** Whenever the loop returns, it returns a level at or above the one it
    started from whose threshold the score has reached. *)
Lemma levelLoop_sound (fuel : nat) (s : Q) :
  forall L next L' next' : Z,
    (1 <= L)%Z ->
    next = (50 * L * (L + 1))%Z ->
    threshold L <= s ->
    levelLoop fuel s L next = Some (L', next') ->
    (L <= L')%Z /\ threshold L' <= s.
Proof.
  induction fuel as [|fuel IH]; intros L next L' next' HL Hnext Hlow Hloop;
    [discriminate|].
  cbn [levelLoop] in Hloop. revert Hloop.
  js_cmp (Js.ge s (inject_Z next)); intros Hloop.
  - destruct (IH (L + 1)%Z (next + 100 * (L + 1))%Z L' next') as [Hle Hs];
      try assumption; [lia|subst next; ring| |split; [lia|exact Hs]].
    rewrite threshold_Z.
    replace (50 * (L + 1) * (L + 1 - 1))%Z with next by (subst next; ring).
    exact E.
  - injection Hloop as <- <-. split; [lia|exact Hlow].
Qed.

(** Rounding to 2 decimals, as the code does it, does not cross a whole
    number. *)
Lemma rounded_ge (a : Q) (lo : Z) :
  (0 <= lo <= 2 ^ 40)%Z -> inject_Z lo <= a ->
  inject_Z lo <= F64.div (Js.round (F64.mul a 100)) 100.
Proof.
  intros Hlo H1. unfold F64.div, F64.mul.
  assert (T1 : inject_Z (lo * 100) <= F64.nearest (a * 100)).
  { apply nearest_ge_Z; [lia|]. rewrite inject_Z_mult.
    change (inject_Z 100) with 100. lra. }
  apply round_mono in T1. rewrite round_Z in T1.
  rewrite inject_Z_mult in T1. change (inject_Z 100) with 100 in T1.
  set (K := Js.round (F64.nearest (a * 100))) in *.
  assert (E : K / 100 == K * (1 # 100)) by field.
  apply nearest_ge_Z; [lia|]. rewrite E. lra.
Qed.

Lemma rounded_le (a : Q) (hi : Z) :
  (0 <= hi <= 2 ^ 40)%Z -> a <= inject_Z hi ->
  F64.div (Js.round (F64.mul a 100)) 100 <= inject_Z hi.
Proof.
  intros Hhi H2. unfold F64.div, F64.mul.
  assert (T2 : F64.nearest (a * 100) <= inject_Z (hi * 100)).
  { apply nearest_le_Z; [lia|]. rewrite inject_Z_mult.
    change (inject_Z 100) with 100. lra. }
  apply round_mono in T2. rewrite round_Z in T2.
  rewrite inject_Z_mult in T2. change (inject_Z 100) with 100 in T2.
  set (K := Js.round (F64.nearest (a * 100))) in *.
  assert (E : K / 100 == K * (1 # 100)) by field.
  apply nearest_le_Z; [lia|]. rewrite E. lra.
Qed.

(** The rounded difficulty is at least 1. *)
Lemma roundedDifficulty_lower (s : Q) (L : Z) :
  (1 <= L)%Z -> threshold L <= s -> 1 <= roundedDifficulty s L.
Proof.
  intros HL Hlow.
  assert (H1 : 1 <= inject_Z L)
    by (change 1 with (inject_Z 1); rewrite <- Zle_Qle; exact HL).
  unfold roundedDifficulty. cbv zeta.
  pose proof (pointsForCurrentLevel_threshold L) as Ept.
  set (pts := if (L =? 1)%Z then 0
              else 100 * (inject_Z L - 1) * inject_Z L / 2) in *.
  assert (P0 : 0 <= F64.sub s pts) by (apply nearest_nonneg; lra).
  set (p := F64.sub s pts) in *.
  assert (Q0 : 0 <= F64.div p (100 * inject_Z L)).
  { apply nearest_nonneg. apply Qle_shift_div_l; lra. }
  set (progress := F64.div p (100 * inject_Z L)) in *.
  assert (S1 : 1 <= F64.add (inject_Z L) progress).
  { apply (nearest_ge_Z _ 1); [lia|]. change (inject_Z 1) with 1. lra. }
  apply (rounded_ge _ 1); [lia|exact S1].
Qed.




End Difficulty.


(** The score 690 lies at a tie: the continuous level is 4.225, the three
    roundings before [Math.round] give 422.49999999999994, and the level
    stored is the double nearest to 4.22. *)
Lemma updateDifficulty_at_690 :
  continuousLevel 690 4 == 4.225
  /\ F64.mul (F64.add 4 (F64.div 90 400)) 100
     == 7432698603765759 # 17592186044416
  /\ exists g' : GameState.t,
       updateDifficulty 691 (scoredAt 690 1) = Some g'
       /\ GameState.difficultyLevel g' == F64.nearest 4.22.
Proof.
  split; [reflexivity|]. split; [vm_compute; reflexivity|].
  eexists. split; [vm_compute; reflexivity|]. vm_compute. reflexivity.
Qed.

(** A stored level of 1.1 is kept at the score 20, whose candidate is 1.2:
    the two doubles differ by less than one tenth. *)
Lemma updateDifficulty_keeps_1_1 :
  let g := scoredAt 20 (F64.nearest 1.1) in
  roundedDifficulty 20 1 == F64.nearest 1.2
  /\ Qabs (F64.nearest 1.1 - F64.nearest 1.2) < 0.1
  /\ updateDifficulty 21 g = Some g.
Proof.
  cbv zeta. split; [vm_compute; reflexivity|]. split; [reflexivity|].
  vm_compute. reflexivity.
Qed.

(** ** Double precision against the binary64 numbers of the kernel *)

(** On every whole score up to 1000, on every multiple of 10 up to 20000
    (the level is 20 from 19000 on) and on every level with two decimals
    from 1 to 20, [updateDifficulty] computes the same numbers in both. *)
Lemma F64_agrees_with_binary64 :
  forallb sameRoundedDifficulty (wholeNumbers 0 1 1001) = true
  /\ forallb sameRoundedDifficulty (wholeNumbers 0 10 2001) = true
  /\ forallb sameTunables (wholeNumbers 100 1 1901) = true.
Proof. split; [|split]; vm_compute; reflexivity. Qed.

(** ** Collision resolver: craft health *)

Section Health.

Lemma applyEffect_health (t : PowerUpType.t) (s : Spaceship.t) :
  Spaceship.health (applyEffect t s) = Spaceship.health s
  /\ Spaceship.maxHealth (applyEffect t s) = Spaceship.maxHealth s.
Proof. destruct t; split; reflexivity. Qed.

Lemma collectPowerUp_ship (p : PowerUp.t) (w : World) :
  ship (collectPowerUp p w) = applyEffect (PowerUp.type p) (ship w).
Proof. reflexivity. Qed.




(** Every obstacle of [spawnRandomObstacle] deals a damage of 1 or 2. *)
Lemma spawnOne_damage (draws : nat -> Q) (now : Q) (atan2 : Q -> Q -> Q)
    (i : nat) (w : World) (n : nat) :
  exists o : Obstacle.t,
    obstacles (fst (spawnOne draws now atan2 i w n)) = obstacles w ++ [o]
    /\ (damageOf o = 1 \/ damageOf o = 2).
Proof.
  unfold spawnOne, mbind, Rand_bind, mathRandom.
  destruct (pick (draws (S (S (S n)))) _ SpawnSide.top);
    cbn; (eexists; split; [reflexivity|]);
    destruct (pick (draws n) _ ObstacleType.asteroid); cbn; auto.
Qed.

Lemma spawnBurst_damage (draws : nat -> Q) (now : Q) (atan2 : Q -> Q -> Q)
    (remaining : nat) :
  forall (i : nat) (w : World) (n : nat),
    Forall (fun o => damageOf o = 1 \/ damageOf o = 2) (obstacles w) ->
    Forall (fun o => damageOf o = 1 \/ damageOf o = 2)
      (obstacles (fst (spawnBurst draws now atan2 remaining i w n))).
Proof.
  induction remaining as [|remaining IH]; intros i w n Hw; [exact Hw|].
  cbn [spawnBurst]. unfold mbind, Rand_bind.
  destruct (spawnOne_damage draws now atan2 i w n) as (o & Ho & Hd).
  destruct (spawnOne draws now atan2 i w n) as [w1 n1]. cbn [fst] in Ho.
  apply IH. rewrite Ho. apply Forall_app. split; [exact Hw|].
  constructor; [exact Hd|constructor].
Qed.

(** With every draw at 0.5 the spawner creates one debris of damage 1 at
    level 1 and three meteors of damage 2 at level 4. *)
Lemma spawnedAt_damage :
  map (fun o => (Obstacle.type o, Obstacle.damage o)) (spawnedAt 1)
  = [(ObstacleType.debris, Some 1)]
  /\ map (fun o => (Obstacle.type o, Obstacle.damage o)) (spawnedAt 4)
     = [(ObstacleType.meteor, Some 2); (ObstacleType.meteor, Some 2);
        (ObstacleType.meteor, Some 2)].
Proof. split; vm_compute; reflexivity. Qed.




End Health.

(** ** Collision resolver: obstacles *)

Section Collisions.


Lemma hitObstacle_frame (o : Obstacle.t) (w : World) :
  obstacles (fst (hitObstacle o w)) = obstacles w
  /\ powerUps (fst (hitObstacle o w)) = powerUps w.
Proof.
  unfold hitObstacle.
  repeat match goal with |- context [if ?c then _ else _] => destruct c end;
    split; reflexivity.
Qed.

Lemma obstacleCollisions_frame (l : list Obstacle.t) :
  forall w : World,
    obstacles (fst (obstacleCollisions l w)) = obstacles w
    /\ powerUps (fst (obstacleCollisions l w)) = powerUps w.
Proof.
  induction l as [|o l IH]; intros w; [split; reflexivity|].
  cbn [obstacleCollisions].
  destruct (Spaceship.isInvisible (ship w)); [apply IH|].
  destruct (Spaceship.shield (ship w)); [apply IH|].
  destruct (overlapsObstacle (ship w) o); [|apply IH].
  pose proof (hitObstacle_frame o w) as [Ho Hp].
  destruct (hitObstacle o w) as [w' returned]. cbn [fst] in Ho, Hp.
  destruct returned; cbn [fst].
  - split; assumption.
  - destruct (IH w') as [-> ->]. split; assumption.
Qed.

Lemma powerUpCollisions_obstacles (n : nat) :
  forall w : World, obstacles (powerUpCollisions n w) = obstacles w.
Proof.
  induction n as [|n IH]; intros w; [reflexivity|].
  cbn [powerUpCollisions].
  destruct (powerUps w !! n) as [p|]; [|reflexivity].
  destruct (overlapsPowerUp (ship w) p); rewrite IH; reflexivity.
Qed.

Lemma powerUpCollisions_health (n : nat) :
  forall w : World,
    Spaceship.health (ship (powerUpCollisions n w)) = Spaceship.health (ship w).
Proof.
  induction n as [|n IH]; intros w; [reflexivity|].
  cbn [powerUpCollisions].
  destruct (powerUps w !! n) as [p|]; [|reflexivity].
  destruct (overlapsPowerUp (ship w) p); rewrite IH; [|reflexivity].
  cbn [ship with_powerUps]. rewrite collectPowerUp_ship.
  apply applyEffect_health.
Qed.

Lemma checkCollisions_obstacles (w : World) :
  obstacles (checkCollisions w) = obstacles w.
Proof.
  unfold checkCollisions.
  pose proof (obstacleCollisions_frame (obstacles w) w) as [Ho _].
  destruct (obstacleCollisions (obstacles w) w) as [w' returned].
  cbn [fst] in Ho. destruct returned; [exact Ho|].
  rewrite powerUpCollisions_obstacles. exact Ho.
Qed.

(** With the shield up or the ship invisible the obstacle pass changes
    nothing, whatever the obstacles. *)
Lemma obstacleCollisions_blocked (l : list Obstacle.t) (w : World) :
  Spaceship.shield (ship w) = true \/ Spaceship.isInvisible (ship w) = true ->
  obstacleCollisions l w = (w, false).
Proof.
  intros H. induction l as [|o l IH]; [reflexivity|].
  cbn [obstacleCollisions].
  destruct (Spaceship.isInvisible (ship w)); [exact IH|].
  destruct (Spaceship.shield (ship w)); [exact IH|].
  destruct H; discriminate.
Qed.

Lemma updateTimers_shieldTime (deltaTime : Q) (s : Spaceship.t) :
  Spaceship.shieldTime (updateTimers deltaTime s)
  = if Js.gt (Spaceship.shieldTime s) 0
    then Qmax 0 (Spaceship.shieldTime s - deltaTime)
    else Spaceship.shieldTime s.
Proof.
  unfold updateTimers.
  repeat match goal with |- context [if ?c then _ else _] => destruct c end;
    reflexivity.
Qed.

(** C3. If the shield or invisibility is active when collision resolution
    runs, the pass over the obstacles leaves the whole world (health and
    [shieldTime] included) as it was, whatever the obstacles and however many
    of them overlap the craft; health is unchanged by the complete
    resolution; with no power-up around the resolution changes nothing; and
    the timer update replaces a running [shieldTime] by
    [max(0, shieldTime - deltaTime)]. *)
Theorem C3_immunity (w : World) :
  Spaceship.shield (ship w) = true \/ Spaceship.isInvisible (ship w) = true ->
  obstacleCollisions (obstacles w) w = (w, false)
  /\ Spaceship.health (ship (checkCollisions w)) = Spaceship.health (ship w)
  /\ (powerUps w = [] -> checkCollisions w = w)
  /\ forall deltaTime : Q,
       Spaceship.shieldTime (updateTimers deltaTime (ship w))
       = if Js.gt (Spaceship.shieldTime (ship w)) 0
         then Qmax 0 (Spaceship.shieldTime (ship w) - deltaTime)
         else Spaceship.shieldTime (ship w).
Proof.
  intros H.
  pose proof (obstacleCollisions_blocked (obstacles w) w H) as Hb.
  split; [exact Hb|]. split; [|split].
  - unfold checkCollisions. rewrite Hb. apply powerUpCollisions_health.
  - intros Hp. unfold checkCollisions. rewrite Hb, Hp. reflexivity.
  - intros deltaTime. apply updateTimers_shieldTime.
Qed.

Lemma C3_immunity_witness :
  overlapDamage (ship shieldedContactWorld) (obstacles shieldedContactWorld)
  == 1
  /\ Spaceship.health (ship (checkCollisions shieldedContactWorld)) = 100
  /\ Spaceship.shieldTime (ship (checkCollisions shieldedContactWorld)) = 5000
  /\ Spaceship.shieldTime
       (updateTimers 16 (ship (checkCollisions shieldedContactWorld)))
     == 4984.
Proof.
  destruct (C3_immunity shieldedContactWorld) as (_ & Hh & Hsame & Ht).
  - left. reflexivity.
  - split; [vm_compute; reflexivity|].
    split; [rewrite Hh; reflexivity|].
    rewrite (Hsame eq_refl).
    split; [reflexivity|].
    rewrite Ht. vm_compute. reflexivity.
Defined.











End Collisions.

(** ** Status effects and score on collection *)

Section PowerUps.

(** C5, as the code has it.  Only the boost is additive: collecting it, or a viewer's
    boost action, adds 5000 ms to whatever [boostTime] remains.  The shield,
    like invisibility, multishot, magnet and time-freeze, is set: its timer
    is reset to the full fixed duration (5000, 4000, 6000, 8000 and 5000 ms),
    whatever remained, and its flag is raised. *)
Theorem C5_effect_timers (p : PowerUp.t) (w : World) :
  let s := ship w in
  let s' := ship (collectPowerUp p w) in
  match PowerUp.type p with
  | PowerUpType.boost =>
    Spaceship.boostTime s' = Spaceship.boostTime s + 5000
  | PowerUpType.shield =>
    Spaceship.shieldTime s' = 5000 /\ Spaceship.shield s' = true
  | PowerUpType.invisibility =>
    Spaceship.invisibilityTime s' = 4000 /\ Spaceship.isInvisible s' = true
  | PowerUpType.multishot =>
    Spaceship.multishotTime s' = 6000 /\ Spaceship.hasMultishot s' = true
  | PowerUpType.magnet =>
    Spaceship.magnetTime s' = 8000 /\ Spaceship.hasMagnet s' = true
    /\ Spaceship.magnetRange s' = 80
  | PowerUpType.timefreeze =>
    Spaceship.timeFreezeTime s' = 5000 /\ Spaceship.isTimeFrozen s' = true
  | PowerUpType.bonus => s' = s
  end
  /\ Spaceship.boostTime (ship (activateBoost w))
     = Spaceship.boostTime (ship w) + 5000.
Proof.
  cbv zeta. rewrite collectPowerUp_ship.
  split; [|reflexivity].
  destruct (PowerUp.type p); cbn; repeat split.
Qed.

(** C5 does not hold for the shield.  Collected while a shield with
    5000 ms left is up, the power-up leaves 5000 ms: the remaining time is
    not extended.  Collected with 3000 ms left, it leaves 5000 ms, not
    8000 ms. *)
Lemma C5_shield_is_not_additive :
  let w := shieldedContactWorld in
  let w' := collectPowerUp (pickup PowerUpType.shield 400 500) w in
  let v := with_ship (Spaceship.set_shieldTime 3000 (ship w)) w in
  let v' := collectPowerUp (pickup PowerUpType.shield 400 500) v in
  Spaceship.shield (ship w) = true
  /\ Spaceship.shieldTime (ship w) = 5000
  /\ Spaceship.shieldTime (ship w') = 5000
  /\ ~ Spaceship.shieldTime (ship w) < Spaceship.shieldTime (ship w')
  /\ ~ Spaceship.shieldTime (ship w')
       == Spaceship.shieldTime (ship w) + 5000
  /\ Spaceship.shield (ship v) = true
  /\ Spaceship.shieldTime (ship v) = 3000
  /\ Spaceship.shieldTime (ship v') = 5000
  /\ ~ Spaceship.shieldTime (ship v')
       == Spaceship.shieldTime (ship v) + 5000.
Proof.
  cbv zeta. repeat split; try reflexivity; intros H; vm_compute in H;
    discriminate.
Qed.

(** C9. [collectPowerUp] compares the new score with the high score it has
    just updated, so [newHighScore] is false after every call. *)
Theorem C9_newHighScore_false (p : PowerUp.t) (w : World) :
  GameState.newHighScore (gameState (collectPowerUp p w)) = false.
Proof.
  unfold collectPowerUp.
  cbn [gameState with_gameState with_ship with_starRunHighScore
       GameState.newHighScore GameState.set_newHighScore
       GameState.highScore GameState.set_highScore GameState.set_score].
  match goal with |- Js.gt ?n (if Js.gt ?n ?h then _ else _) = false =>
    js_cmp (Js.gt n h); apply gt_false; lra
  end.
Qed.

End PowerUps.

(** ** Ship movement *)

Section Movement.

Lemma moveShip_clamped (keys : gset string) (g : GameState.t)
    (s : Spaceship.t) :
  0 <= GameState.width g - Spaceship.width s ->
  0 <= GameState.height g - Spaceship.height s ->
  0 <= Spaceship.x (moveShip keys g s) <= GameState.width g - Spaceship.width s
  /\ 0 <= Spaceship.y (moveShip keys g s)
       <= GameState.height g - Spaceship.height s.
Proof.
  intros Hw Hh. unfold moveShip.
  cbn [Spaceship.x Spaceship.y Spaceship.set_x Spaceship.set_y
       Spaceship.height Spaceship.screenShakeY].
  split.
  - match goal with |- _ <= Qmax 0 (Qmin ?a ?b) <= _ =>
      destruct (Qmin_cases a b) as [[? ->]|[? ->]];
      [destruct (Qmax_cases 0 a) as [[? ->]|[? ->]]
      |destruct (Qmax_cases 0 b) as [[? ->]|[? ->]]]; lra
    end.
  - match goal with |- _ <= Qmax 0 (Qmin ?a ?b) <= _ =>
      destruct (Qmin_cases a b) as [[? ->]|[? ->]];
      [destruct (Qmax_cases 0 a) as [[? ->]|[? ->]]
      |destruct (Qmax_cases 0 b) as [[? ->]|[? ->]]]; lra
    end.
Qed.

(** C7, where the code departs from it.  The position update reads
    neither [boost], [boostTime] nor [velocity]: whatever the boost state,
    the ship moves as without it.  With the right arrow and the space bar held and 5000 ms of
    boost, the ship at x = 400 goes to 408 in one tick and to 416 in two,
    8 per tick as without boost, while [velocity] is set to 16. *)
Theorem C7_boost_leaves_displacement :
  (forall (keys : gset string) (g : GameState.t) (s : Spaceship.t)
          (b : bool) (t v : Q),
      let s' :=
        Spaceship.set_velocity v
          (Spaceship.set_boostTime t (Spaceship.set_boost b s)) in
      Spaceship.x (moveShip keys g s') = Spaceship.x (moveShip keys g s)
      /\ Spaceship.y (moveShip keys g s') = Spaceship.y (moveShip keys g s))
  /\ (let keys : gset string := {[ "ArrowRight"%string; "Space"%string ]} in
      let g := initialGameState 0 in
      let s :=
        Spaceship.set_boostTime 5000 (Spaceship.set_boost true initialSpaceship) in
      let s1 := updateShip keys 16 0.5 0.5 g s in
      let s2 := updateShip keys 16 0.5 0.5 g s1 in
      Spaceship.x s1 == 408 /\ Spaceship.boost s1 = true
      /\ Spaceship.velocity s1 == 16 /\ Spaceship.x s2 == 416
      /\ Spaceship.x
           (updateShip {[ "ArrowRight"%string ]} 16 0.5 0.5 g initialSpaceship)
         == 408).
Proof.
  split.
  - intros keys g s b t v. cbv zeta. split; reflexivity.
  - cbv zeta. repeat split; vm_compute; reflexivity.
Qed.

End Movement.

(** ** Derived tunables *)

Section Tunables.










(** The three tunables after the assignments of [updateDifficulty]. *)
Lemma applyDifficulty_tunables (r : Q) (g : GameState.t) :
  let g' := applyDifficulty r g in
  let level := Qmin r 20 in
  GameState.gameSpeed g'
  = (if Js.gt (Qabs (F64.sub (GameState.gameSpeed g) (newGameSpeed level)))
          (F64.nearest 0.1)
     then F64.div (Js.round (F64.mul (newGameSpeed level) 100)) 100
     else GameState.gameSpeed g)
  /\ GameState.obstacleSpawnRate g'
     = (if Js.gt (Qabs (F64.sub (GameState.obstacleSpawnRate g)
                          (newObstacleSpawnRate level))) 50
        then newObstacleSpawnRate level
        else GameState.obstacleSpawnRate g)
  /\ GameState.powerUpSpawnRate g'
     = (if Js.gt (Qabs (F64.sub (GameState.powerUpSpawnRate g)
                          (newPowerUpSpawnRate level))) 100
        then newPowerUpSpawnRate level
        else GameState.powerUpSpawnRate g).
Proof.
  cbv zeta. unfold applyDifficulty.
  cbn [GameState.difficultyLevel GameState.set_difficultyLevel
       GameState.gameSpeed GameState.obstacleSpawnRate
       GameState.powerUpSpawnRate].
  destruct (Js.gt (Qabs (F64.sub (GameState.gameSpeed g) _)) _);
    cbn [GameState.gameSpeed GameState.obstacleSpawnRate
         GameState.powerUpSpawnRate GameState.set_gameSpeed
         GameState.set_difficultyLevel];
    destruct (Js.gt (Qabs (F64.sub (GameState.obstacleSpawnRate g) _)) _);
    cbn [GameState.gameSpeed GameState.obstacleSpawnRate
         GameState.powerUpSpawnRate GameState.set_gameSpeed
         GameState.set_obstacleSpawnRate GameState.set_difficultyLevel];
    destruct (Js.gt (Qabs (F64.sub (GameState.powerUpSpawnRate g) _)) _);
    repeat split; reflexivity.
Qed.







End Tunables.



(** ** Obstacle motion *)

Section Motion.

Variable sqrt : Q -> Q.

Lemma repel_position (obstacle other : Obstacle.t) :
  position (repel sqrt obstacle other) = position obstacle.
Proof.
  unfold repel. destruct (Js.lt _ 30 && Js.gt _ 0); reflexivity.
Qed.

Lemma avoidFrom_position (rest : list Obstacle.t) :
  forall (i currentIndex : nat) (obstacle : Obstacle.t),
    position (avoidFrom sqrt i rest currentIndex obstacle) = position obstacle.
Proof.
  induction rest as [|other rest IH]; intros i currentIndex obstacle;
    [reflexivity|].
  cbn [avoidFrom]. destruct (Nat.eqb i currentIndex); rewrite IH;
    [reflexivity|apply repel_position].
Qed.

Lemma insert_middle (pre post : list Obstacle.t) (o o' : Obstacle.t) :
  <[length pre := o']> (pre ++ o :: post) = pre ++ o' :: post.
Proof.
  rewrite insert_app_r_alt by lia. rewrite Nat.sub_diag. reflexivity.
Qed.

(** The loop, entered with the slots below [length pre] still to visit. *)
Lemma obstacleLoop_positions (frozen : bool) (g : GameState.t)
    (pre : list Obstacle.t) :
  forall post : list Obstacle.t,
    map position (obstacleLoop sqrt (length pre) frozen g (pre ++ post))
    = map position
        (List.filter (onScreen g) (map (moveObstacle frozen) pre))
      ++ map position post.
Proof.
  induction pre as [|o pre IH] using rev_ind; intros post; [reflexivity|].
  rewrite length_app, Nat.add_1_r, <- app_assoc.
  cbn [app obstacleLoop].
  rewrite list_lookup_middle by reflexivity.
  rewrite map_app, List.filter_app, map_app, <- app_assoc.
  cbn [map List.filter]. unfold onScreen at 2.
  destruct (isOffScreen g (moveObstacle frozen o)); cbn [negb app].
  - rewrite delete_middle. apply IH.
  - rewrite !insert_middle, IH. cbn [map app]. f_equal. f_equal.
    apply avoidFrom_position.
Qed.

(** C6, as the code has it.  In every tick every obstacle advances by a fixed share of
    its stored velocity: 70% when time-freeze is not active, and 30% of the
    stored velocity (not of the damped rate) when it is; the obstacles kept
    are those still within the exit margin, at exactly these positions. *)
Theorem C6_obstacle_advance :
  (forall o : Obstacle.t,
      position (moveObstacle false o)
      = (Obstacle.x o + Obstacle.velocityX o * 0.7,
         Obstacle.y o + Obstacle.velocityY o * 0.7))
  /\ (forall o : Obstacle.t,
        position (moveObstacle true o)
        = (Obstacle.x o + Obstacle.velocityX o * 0.3,
           Obstacle.y o + Obstacle.velocityY o * 0.3))
  /\ (forall w : World,
        map position (obstacles (updateObstacles sqrt w))
        = map position
            (List.filter (onScreen (gameState w))
               (map (moveObstacle (Spaceship.isTimeFrozen (ship w)))
                  (obstacles w)))).
Proof.
  split; [reflexivity|]. split; [reflexivity|].
  intros w. unfold updateObstacles. cbn [obstacles with_obstacles].
  pose proof (obstacleLoop_positions (Spaceship.isTimeFrozen (ship w))
                (gameState w) (obstacles w) []) as H.
  rewrite !app_nil_r in H. exact H.
Qed.

End Motion.

(** C6 does not hold under time-freeze: an obstacle with stored velocity
    10 advances by 3, not by 2.1. *)
Lemma C6_frozen_step_is_30_percent :
  let o := hazard ObstacleType.asteroid 0 300 10 0 in
  Obstacle.x (moveObstacle true o) - Obstacle.x o == 3
  /\ 0.3 * (0.7 * Obstacle.velocityX o) == 2.1
  /\ ~ Obstacle.x (moveObstacle true o) - Obstacle.x o
       == 0.3 * (0.7 * Obstacle.velocityX o).
Proof.
  cbv zeta. repeat split; try (vm_compute; reflexivity).
  intros H. vm_compute in H. discriminate.
Qed.

(** ** Viewer-action spawners *)

Section Injection.

Variable draws : nat -> Q.
Variable now : Q.
Variable atan2 : Q -> Q -> Q.

Lemma or_truthyOnly {A : Type} `{Js.Truthy A} (a : option A) (d : A) :
  Js.or (truthyOnly a) d = Js.or a d.
Proof.
  destruct a as [v|]; [|reflexivity]. cbn.
  destruct (Js.truthy v) eqn:E; cbn; [rewrite E|]; reflexivity.
Qed.

Lemma orElse_truthyOnly {A : Type} `{Js.Truthy A} (a : option A)
    (d : Rand A) :
  orElse (truthyOnly a) d = orElse a d.
Proof.
  destruct a as [v|]; [|reflexivity]. cbn.
  destruct (Js.truthy v) eqn:E; cbn; [rewrite E|]; reflexivity.
Qed.

Lemma or_falsy {A : Type} `{Js.Truthy A} (a : option A) (d : A) :
  Js.falsy a = true -> Js.or a d = d.
Proof.
  destruct a as [v|]; [|reflexivity]. cbn.
  destruct (Js.truthy v); [discriminate|reflexivity].
Qed.

Lemma orElse_falsy {A : Type} `{Js.Truthy A} (a : option A) (d : Rand A) :
  Js.falsy a = true -> orElse a d = d.
Proof.
  destruct a as [v|]; [|reflexivity]. cbn.
  destruct (Js.truthy v); [discriminate|reflexivity].
Qed.

Lemma spawnPowerUp_truthyOnly (data : PowerUpData.t) (w : World) :
  spawnPowerUp draws now (powerUpDataTruthyOnly data) w
  = spawnPowerUp draws now data w.
Proof.
  unfold spawnPowerUp, powerUpDataTruthyOnly.
  cbn [PowerUpData.x PowerUpData.y PowerUpData.type PowerUpData.points
       PowerUpData.duration PowerUpData.rarity PowerUpData.effectStrength].
  rewrite !or_truthyOnly, !orElse_truthyOnly. reflexivity.
Qed.

Lemma spawnObstacle_truthyOnly (data : ObstacleData.t) (w : World) :
  spawnObstacle draws now atan2 (obstacleDataTruthyOnly data) w
  = spawnObstacle draws now atan2 data w.
Proof.
  unfold spawnObstacle, obstacleDataTruthyOnly.
  cbn [ObstacleData.spawnSide ObstacleData.speed ObstacleData.width
       ObstacleData.height ObstacleData.x ObstacleData.y ObstacleData.type
       ObstacleData.health ObstacleData.damage ObstacleData.isExplosive
       ObstacleData.explosionRadius ObstacleData.isInvulnerable
       ObstacleData.invulnerabilityTime].
  rewrite !or_truthyOnly, !orElse_truthyOnly. reflexivity.
Qed.

(** C10. In [spawnPowerUp] and [spawnObstacle] a supplied property with a
    falsy value (a numeric 0 in particular) is treated as a missing one: the
    spawners do the same on a payload and on the payload with its falsy
    properties removed.  So a power-up injected with [x] falsy is placed at
    the playfield width and with [y] falsy at a random height, and an
    obstacle injected with [speed], [damage] or [health] falsy gets speed 4,
    damage 1 and health 1, and a random place for a falsy [x] (from the top)
    or [y] (from the left). *)
Theorem C10_falsy_fields_default :
  (forall (data : PowerUpData.t) (w : World),
      spawnPowerUp draws now (powerUpDataTruthyOnly data) w
      = spawnPowerUp draws now data w)
  /\ (forall (data : ObstacleData.t) (w : World),
        spawnObstacle draws now atan2 (obstacleDataTruthyOnly data) w
        = spawnObstacle draws now atan2 data w)
  /\ (forall (data : PowerUpData.t) (w : World) (n : nat),
        exists p : PowerUp.t,
          powerUps (fst (spawnPowerUp draws now data w n)) = powerUps w ++ [p]
          /\ (Js.falsy (PowerUpData.x data) = true ->
              PowerUp.x p = GameState.width (gameState w))
          /\ (Js.falsy (PowerUpData.y data) = true ->
              PowerUp.y p = draws n * (GameState.height (gameState w) - 30)))
  /\ (forall (data : ObstacleData.t) (w : World) (n : nat),
        exists o : Obstacle.t,
          obstacles (fst (spawnObstacle draws now atan2 data w n))
          = obstacles w ++ [o]
          /\ (Js.falsy (ObstacleData.speed data) = true -> Obstacle.speed o = 4)
          /\ (Js.falsy (ObstacleData.damage data) = true ->
              Obstacle.damage o = Some 1)
          /\ (Js.falsy (ObstacleData.health data) = true ->
              Obstacle.health o = Some 1)
          /\ (Js.falsy (ObstacleData.x data) = true ->
              ObstacleData.spawnSide data = Some SpawnSide.top ->
              Obstacle.x o
              = draws n * (GameState.width (gameState w) - Obstacle.width o))
          /\ (Js.falsy (ObstacleData.y data) = true ->
              ObstacleData.spawnSide data = Some SpawnSide.left ->
              Obstacle.y o
              = draws n * (GameState.height (gameState w) - Obstacle.height o))).
Proof.
  split; [exact spawnPowerUp_truthyOnly|].
  split; [exact spawnObstacle_truthyOnly|].
  split.
  - intros data w n. unfold spawnPowerUp, mbind, Rand_bind.
    destruct (orElse (PowerUpData.y data) _ n) as [y n1] eqn:Ey.
    cbn. eexists. split; [reflexivity|]. cbn. split.
    + intros Hf. apply or_falsy. exact Hf.
    + intros Hf. rewrite (orElse_falsy _ _ Hf) in Ey.
      cbn in Ey. unfold mret, Rand_ret in Ey. injection Ey as Hy Hn.
      symmetry. exact Hy.
  - intros data w n. unfold spawnObstacle, mbind, Rand_bind.
    destruct (orElse (ObstacleData.spawnSide data) _ n) as [side n1] eqn:Es.
    destruct side;
      match goal with
      | |- context [orElse ?a ?d n1] =>
        destruct (orElse a d n1) as [c n2] eqn:Ec
      end;
      cbn; (eexists; split; [reflexivity|]); cbn;
      (split; [intros Hf; apply or_falsy; exact Hf|]);
      (split; [intros Hf; f_equal; apply or_falsy; exact Hf|]);
      (split; [intros Hf; f_equal; apply or_falsy; exact Hf|]);
      (split; intros Hf Hside; rewrite Hside in Es; cbn in Es;
       unfold mret, Rand_ret in Es; try discriminate Es;
       injection Es as E; subst n1;
       rewrite (orElse_falsy _ _ Hf) in Ec; cbn in Ec;
       unfold mret, Rand_ret in Ec; injection Ec as Hc Hn; symmetry;
       exact Hc).
Qed.

End Injection.

Lemma C10_falsy_fields_default_witness :
  map PowerUp.x
    (powerUps (fst (spawnPowerUp halfDraws 0 originPowerUpData
                      (initialWorld 0) 0%nat)))
  = [800]
  /\ map (fun o => (Obstacle.speed o, Obstacle.damage o, Obstacle.health o))
       (obstacles (fst (spawnObstacle halfDraws 0 flatAtan2 zeroObstacleData
                          (initialWorld 0) 0%nat)))
     = [(4, Some 1, Some 1)].
Proof.
  destruct (C10_falsy_fields_default halfDraws 0 flatAtan2)
    as (_ & _ & Hp & Ho).
  destruct (Hp originPowerUpData (initialWorld 0) 0%nat) as (p & -> & Hx & _).
  destruct (Ho zeroObstacleData (initialWorld 0) 0%nat)
    as (o & -> & Hs & Hd & Hh & _).
  cbn [map app initialWorld powerUps obstacles].
  rewrite (Hx eq_refl), (Hs eq_refl), (Hd eq_refl), (Hh eq_refl).
  split; reflexivity.
Defined.

(** * Further properties of the component and its host *)

(** ** Status timers *)

(** Splits a conjunction into its conjuncts, leaving comparisons folded. *)
Ltac conjuncts := repeat match goal with |- _ /\ _ => split end.

Section Timers.

(** [updateTimers] is its five blocks in sequence. *)
Lemma updateTimers_blocks (deltaTime : Q) (s : Spaceship.t) :
  updateTimers deltaTime s
  = timerBlock Spaceship.timeFreezeTime Spaceship.set_timeFreezeTime
      Spaceship.set_isTimeFrozen deltaTime
      (timerBlock Spaceship.magnetTime Spaceship.set_magnetTime
         Spaceship.set_hasMagnet deltaTime
         (timerBlock Spaceship.multishotTime Spaceship.set_multishotTime
            Spaceship.set_hasMultishot deltaTime
            (timerBlock Spaceship.invisibilityTime
               Spaceship.set_invisibilityTime Spaceship.set_isInvisible
               deltaTime
               (timerBlock Spaceship.shieldTime Spaceship.set_shieldTime
                  Spaceship.set_shield deltaTime s)))).
Proof. reflexivity. Qed.

(** What every block preserves, [updateTimers] preserves. *)
Lemma updateTimers_preserves (I : Spaceship.t -> Prop) (deltaTime : Q) :
  (forall s, I s ->
     I (timerBlock Spaceship.shieldTime Spaceship.set_shieldTime
          Spaceship.set_shield deltaTime s)) ->
  (forall s, I s ->
     I (timerBlock Spaceship.invisibilityTime Spaceship.set_invisibilityTime
          Spaceship.set_isInvisible deltaTime s)) ->
  (forall s, I s ->
     I (timerBlock Spaceship.multishotTime Spaceship.set_multishotTime
          Spaceship.set_hasMultishot deltaTime s)) ->
  (forall s, I s ->
     I (timerBlock Spaceship.magnetTime Spaceship.set_magnetTime
          Spaceship.set_hasMagnet deltaTime s)) ->
  (forall s, I s ->
     I (timerBlock Spaceship.timeFreezeTime Spaceship.set_timeFreezeTime
          Spaceship.set_isTimeFrozen deltaTime s)) ->
  forall s, I s -> I (updateTimers deltaTime s).
Proof.
  intros H1 H2 H3 H4 H5 s H. rewrite updateTimers_blocks.
  apply H5, H4, H3, H2, H1, H.
Qed.

Lemma applyEffect_timersConsistent (t : PowerUpType.t) (s : Spaceship.t) :
  timersConsistent s -> timersConsistent (applyEffect t s).
Proof.
  intros (H1 & H2 & H3 & H4 & H5).
  destruct t; cbn; repeat split; assumption.
Qed.

Lemma updateTimers_timersConsistent (deltaTime : Q) (s : Spaceship.t) :
  timersConsistent s -> timersConsistent (updateTimers deltaTime s).
Proof.
  revert s. apply updateTimers_preserves; intros s H; unfold timerBlock;
    match goal with |- context [if ?c then _ else _] => destruct c end;
    destruct H as (H1 & H2 & H3 & H4 & H5);
    unfold timersConsistent; cbn -[Js.gt Qmax Qminus]; conjuncts;
    first [assumption | reflexivity].
Qed.

Lemma Qmax_0_nonneg (a : Q) : 0 <= Qmax 0 a.
Proof. destruct (Qmax_cases 0 a) as [[? ->]|[? ->]]; lra. Qed.

Lemma applyEffect_timersNonNegative (t : PowerUpType.t) (s : Spaceship.t) :
  timersNonNegative s -> timersNonNegative (applyEffect t s).
Proof.
  intros (H0 & H1 & H2 & H3 & H4 & H5).
  destruct t; unfold timersNonNegative; cbn -[Qle Qplus]; conjuncts;
    try assumption; lra.
Qed.

Lemma updateTimers_timersNonNegative (deltaTime : Q) (s : Spaceship.t) :
  timersNonNegative s -> timersNonNegative (updateTimers deltaTime s).
Proof.
  revert s.
  apply updateTimers_preserves; intros s H; unfold timerBlock;
    match goal with |- context [if ?c then _ else _] => destruct c end;
    destruct H as (H0 & H1 & H2 & H3 & H4 & H5);
    unfold timersNonNegative; cbn -[Js.gt Qmax Qminus Qle]; conjuncts;
    first [assumption | apply Qmax_0_nonneg].
Qed.

(** The steps of a frame before the timers leave the five timers and their
    flags alone; the boost block keeps [boostTime] non-negative. *)
Lemma beforeTimers_kept (keys : gset string) (deltaTime r1 r2 : Q)
    (g : GameState.t) (s : Spaceship.t) :
  let s' := updateBoost keys deltaTime (updateScreenShake r1 r2 (moveShip keys g s)) in
  (timersConsistent s -> timersConsistent s')
  /\ (timersNonNegative s -> timersNonNegative s').
Proof.
  cbv zeta.
  set (s1 := updateScreenShake r1 r2 (moveShip keys g s)).
  assert (Hsame : Spaceship.shield s1 = Spaceship.shield s
    /\ Spaceship.shieldTime s1 = Spaceship.shieldTime s
    /\ Spaceship.isInvisible s1 = Spaceship.isInvisible s
    /\ Spaceship.invisibilityTime s1 = Spaceship.invisibilityTime s
    /\ Spaceship.hasMultishot s1 = Spaceship.hasMultishot s
    /\ Spaceship.multishotTime s1 = Spaceship.multishotTime s
    /\ Spaceship.hasMagnet s1 = Spaceship.hasMagnet s
    /\ Spaceship.magnetTime s1 = Spaceship.magnetTime s
    /\ Spaceship.isTimeFrozen s1 = Spaceship.isTimeFrozen s
    /\ Spaceship.timeFreezeTime s1 = Spaceship.timeFreezeTime s
    /\ Spaceship.boostTime s1 = Spaceship.boostTime s).
  { subst s1. unfold updateScreenShake, moveShip.
    cbn [Spaceship.screenShakeIntensity Spaceship.set_x Spaceship.set_y
         Spaceship.set_screenShakeX Spaceship.set_screenShakeY
         Spaceship.set_screenShakeIntensity].
    repeat match goal with |- context [if ?c then _ else _] => destruct c end;
      conjuncts; reflexivity. }
  destruct Hsame as (E1 & E2 & E3 & E4 & E5 & E6 & E7 & E8 & E9 & E10 & E11).
  unfold updateBoost, timersConsistent, timersNonNegative.
  destruct (has "Space" keys && Js.gt (Spaceship.boostTime s1) 0);
    cbn [Spaceship.shield Spaceship.shieldTime Spaceship.isInvisible
         Spaceship.invisibilityTime Spaceship.hasMultishot
         Spaceship.multishotTime Spaceship.hasMagnet Spaceship.magnetTime
         Spaceship.isTimeFrozen Spaceship.timeFreezeTime Spaceship.boostTime
         Spaceship.set_velocity Spaceship.set_boost Spaceship.set_boostTime];
    rewrite ?E1, ?E2, ?E3, ?E4, ?E5, ?E6, ?E7, ?E8, ?E9, ?E10, ?E11;
    (split; [intros H; exact H|]);
    intros (H0 & H1 & H2 & H3 & H4 & H5); conjuncts; try assumption;
    apply Qmax_0_nonneg.
Qed.

Lemma hitObstacle_timers (o : Obstacle.t) (w : World) :
  (timersConsistent (ship w) -> timersConsistent (ship (fst (hitObstacle o w))))
  /\ (timersNonNegative (ship w) ->
      timersNonNegative (ship (fst (hitObstacle o w)))).
Proof.
  unfold hitObstacle.
  repeat match goal with |- context [if ?c then _ else _] => destruct c end;
    split; intros H; exact H.
Qed.

Lemma obstacleCollisions_timers (l : list Obstacle.t) :
  forall w : World,
    (timersConsistent (ship w) ->
     timersConsistent (ship (fst (obstacleCollisions l w))))
    /\ (timersNonNegative (ship w) ->
        timersNonNegative (ship (fst (obstacleCollisions l w)))).
Proof.
  induction l as [|o l IH]; intros w; [split; intros H; exact H|].
  cbn [obstacleCollisions].
  destruct (Spaceship.isInvisible (ship w)); [apply IH|].
  destruct (Spaceship.shield (ship w)); [apply IH|].
  destruct (overlapsObstacle (ship w) o); [|apply IH].
  pose proof (hitObstacle_timers o w) as [Hc Hn].
  destruct (hitObstacle o w) as [w' returned]. cbn [fst] in Hc, Hn.
  destruct returned; cbn [fst]; [split; assumption|].
  destruct (IH w') as [Hc' Hn']. split; auto.
Qed.

Lemma powerUpCollisions_timers (n : nat) :
  forall w : World,
    (timersConsistent (ship w) ->
     timersConsistent (ship (powerUpCollisions n w)))
    /\ (timersNonNegative (ship w) ->
        timersNonNegative (ship (powerUpCollisions n w))).
Proof.
  induction n as [|n IH]; intros w; [split; intros H; exact H|].
  cbn [powerUpCollisions].
  destruct (powerUps w !! n) as [p|]; [|split; intros H; exact H].
  destruct (overlapsPowerUp (ship w) p); [|apply IH].
  match goal with |- context [powerUpCollisions n ?v] =>
    destruct (IH v) as [Hc Hn]
  end.
  cbn [ship with_powerUps] in Hc, Hn. rewrite collectPowerUp_ship in Hc, Hn.
  split; intros H; [apply Hc, applyEffect_timersConsistent
                   |apply Hn, applyEffect_timersNonNegative]; exact H.
Qed.

Lemma updateShip_timers (keys : gset string) (deltaTime r1 r2 : Q)
    (g : GameState.t) (s : Spaceship.t) :
  (timersConsistent s ->
   timersConsistent (updateShip keys deltaTime r1 r2 g s))
  /\ (timersNonNegative s ->
      timersNonNegative (updateShip keys deltaTime r1 r2 g s)).
Proof.
  unfold updateShip.
  destruct (beforeTimers_kept keys deltaTime r1 r2 g s) as [Hc Hn].
  split; intros H;
    [apply updateTimers_timersConsistent, Hc
    |apply updateTimers_timersNonNegative, Hn]; exact H.
Qed.

Lemma checkCollisions_timers (w : World) :
  (timersConsistent (ship w) -> timersConsistent (ship (checkCollisions w)))
  /\ (timersNonNegative (ship w) ->
      timersNonNegative (ship (checkCollisions w))).
Proof.
  unfold checkCollisions.
  pose proof (obstacleCollisions_timers (obstacles w) w) as [Hc Hn].
  destruct (obstacleCollisions (obstacles w) w) as [w' returned].
  cbn [fst] in Hc, Hn. destruct returned; [split; assumption|].
  destruct (powerUpCollisions_timers (length (powerUps w')) w') as [Hc' Hn'].
  split; auto.
Qed.

(** X1. From the start of a game and after every restart, through the ship
    part of every frame, every collision pass and every viewer boost, each
    of the flags shield, isInvisible, hasMultishot, hasMagnet and
    isTimeFrozen is true exactly when its timer is above 0, and no timer is
    negative. *)
Theorem timers_and_flags_agree :
  (timersConsistent initialSpaceship /\ timersNonNegative initialSpaceship)
  /\ (forall w : World,
        timersConsistent (ship (resetGame w))
        /\ timersNonNegative (ship (resetGame w)))
  /\ (forall (keys : gset string) (deltaTime r1 r2 : Q) (g : GameState.t)
             (s : Spaceship.t),
        (timersConsistent s ->
         timersConsistent (updateShip keys deltaTime r1 r2 g s))
        /\ (timersNonNegative s ->
            timersNonNegative (updateShip keys deltaTime r1 r2 g s)))
  /\ (forall w : World,
        (timersConsistent (ship w) ->
         timersConsistent (ship (checkCollisions w)))
        /\ (timersNonNegative (ship w) ->
            timersNonNegative (ship (checkCollisions w))))
  /\ (forall w : World,
        (timersConsistent (ship w) ->
         timersConsistent (ship (activateBoost w)))
        /\ (timersNonNegative (ship w) ->
            timersNonNegative (ship (activateBoost w)))).
Proof.
  split; [split; [unfold timersConsistent; cbn; conjuncts; reflexivity
                 |unfold timersNonNegative; cbn -[Qle]; conjuncts; lra]|].
  split; [intros w; split; [unfold timersConsistent; cbn; conjuncts; reflexivity
                           |unfold timersNonNegative; cbn -[Qle]; conjuncts; lra]|].
  split; [exact updateShip_timers|].
  split; [exact checkCollisions_timers|].
  intros w. split.
  - intros H. exact H.
  - intros (H0 & H1 & H2 & H3 & H4 & H5).
    unfold timersNonNegative; cbn -[Qle Qplus]. conjuncts; try assumption.
    lra.
Qed.

Lemma timers_and_flags_agree_witness :
  timersConsistent (updateShip ∅ 6000 0.5 0.5 (initialGameState 0)
                      shieldedFrozenShip)
  /\ Spaceship.shield (updateShip ∅ 6000 0.5 0.5 (initialGameState 0)
                         shieldedFrozenShip) = false.
Proof.
  destruct timers_and_flags_agree as (_ & _ & Hship & _).
  destruct (Hship ∅ 6000 0.5 0.5 (initialGameState 0) shieldedFrozenShip)
    as [Hc _].
  split.
  - apply Hc. unfold timersConsistent. conjuncts; vm_compute; reflexivity.
  - vm_compute. reflexivity.
Defined.

End Timers.

Section Shake.


Lemma updateScreenShake_cases (r1 r2 : Q) (s : Spaceship.t) :
  let i := Spaceship.screenShakeIntensity s in
  (i <= 0 /\ updateScreenShake r1 r2 s = s)
  \/ (0 < i /\ i * 0.9 < 0.1
      /\ shakeOf (updateScreenShake r1 r2 s) = (0, 0, 0))
  \/ (0 < i /\ 0.1 <= i * 0.9
      /\ shakeOf (updateScreenShake r1 r2 s)
         = (i * 0.9, (r1 - 0.5) * i, (r2 - 0.5) * i)).
Proof.
  cbv zeta. unfold updateScreenShake.
  js_cmp (Js.gt (Spaceship.screenShakeIntensity s) 0); [|left; split; trivial].
  right.
  cbn [Spaceship.screenShakeIntensity Spaceship.set_screenShakeX
       Spaceship.set_screenShakeY Spaceship.set_screenShakeIntensity].
  js_cmp (Js.lt (Spaceship.screenShakeIntensity s * 0.9) 0.1);
    [left|right]; (split; [assumption|]); (split; [assumption|]);
    reflexivity.
Qed.

Lemma updateShip_shakeOf (keys : gset string) (deltaTime r1 r2 : Q)
    (g : GameState.t) (s : Spaceship.t) :
  shakeOf (updateShip keys deltaTime r1 r2 g s)
  = shakeOf (updateScreenShake r1 r2 s).
Proof.
  unfold updateShip.
  set (s1 := updateScreenShake r1 r2 (moveShip keys g s)).
  assert (E1 : shakeOf s1 = shakeOf (updateScreenShake r1 r2 s)).
  { subst s1. unfold updateScreenShake, moveShip.
    cbn [Spaceship.screenShakeIntensity Spaceship.set_x Spaceship.set_y
         Spaceship.set_screenShakeX Spaceship.set_screenShakeY
         Spaceship.set_screenShakeIntensity].
    repeat match goal with |- context [if ?c then _ else _] => destruct c end;
      reflexivity. }
  rewrite <- E1. clearbody s1. clear E1.
  set (s2 := updateBoost keys deltaTime s1).
  assert (E2 : shakeOf s2 = shakeOf s1).
  { subst s2. unfold updateBoost.
    destruct (has "Space" keys && Js.gt (Spaceship.boostTime s1) 0);
      reflexivity. }
  rewrite <- E2. clearbody s2. clear E2.
  apply (updateTimers_preserves (fun s' => shakeOf s' = shakeOf s2));
    [intros s0 H; rewrite <- H; unfold timerBlock;
     match goal with |- context [if ?c then _ else _] => destruct c end;
     reflexivity..|reflexivity].
Qed.

Lemma shakeOf_fields (s : Spaceship.t) (i x y : Q) :
  shakeOf s = (i, x, y) ->
  Spaceship.screenShakeIntensity s = i
  /\ Spaceship.screenShakeX s = x /\ Spaceship.screenShakeY s = y.
Proof. unfold shakeOf. intros H. injection H as -> -> ->. auto. Qed.

Lemma shakeBounded_shakeOf (s s' : Spaceship.t) :
  shakeOf s' = shakeOf s -> shakeBounded s -> shakeBounded s'.
Proof.
  intros H. apply shakeOf_fields in H as (Ei & Ex & Ey).
  unfold shakeBounded, shakeAtRest. rewrite Ei, Ex, Ey. trivial.
Qed.

Lemma updateScreenShake_shakeBounded (r1 r2 : Q) (s : Spaceship.t) :
  0 <= r1 -> r1 <= 1 -> 0 <= r2 -> r2 <= 1 ->
  shakeBounded s -> shakeBounded (updateScreenShake r1 r2 s).
Proof.
  intros Hr1 Hr1' Hr2 Hr2' Hs.
  destruct (updateScreenShake_cases r1 r2 s) as [[_ ->]|[(_ & _ & E)|(Hi & Hi' & E)]];
    [exact Hs| |]; apply shakeOf_fields in E as (Ei & Ex & Ey);
    unfold shakeBounded, shakeAtRest; rewrite Ei, Ex, Ey.
  - split; [left; auto|]. split; split; lra.
  - destruct Hs as ([(H0 & _)|[_ H5]] & _); [rewrite H0 in Hi; lra|].
    split; [right; split; lra|].
    set (i := Spaceship.screenShakeIntensity s) in *.
    split; split; nra.
Qed.

Lemma hitObstacle_shakeBounded (o : Obstacle.t) (w : World) :
  shakeBounded (ship w) -> shakeBounded (ship (fst (hitObstacle o w))).
Proof.
  intros (Hi & Hx & Hy).
  assert (H : shakeBounded
                (Spaceship.set_screenShakeIntensity
                   (Qmax (Spaceship.screenShakeIntensity (ship w)) 5) (ship w))).
  { unfold shakeBounded, shakeAtRest.
    cbn [Spaceship.screenShakeIntensity Spaceship.screenShakeX
         Spaceship.screenShakeY Spaceship.set_screenShakeIntensity].
    split; [right|split; assumption].
    destruct (Qmax_cases (Spaceship.screenShakeIntensity (ship w)) 5)
      as [[? ->]|[? ->]]; [lra|].
    destruct Hi as [(H0 & _)|[? ?]]; [rewrite H0 in *|]; lra. }
  unfold hitObstacle.
  repeat match goal with |- context [if ?c then _ else _] => destruct c end;
    exact H.
Qed.

Lemma obstacleCollisions_shakeBounded (l : list Obstacle.t) :
  forall w : World,
    shakeBounded (ship w) ->
    shakeBounded (ship (fst (obstacleCollisions l w))).
Proof.
  induction l as [|o l IH]; intros w H; [exact H|].
  cbn [obstacleCollisions].
  destruct (Spaceship.isInvisible (ship w)); [apply IH, H|].
  destruct (Spaceship.shield (ship w)); [apply IH, H|].
  destruct (overlapsObstacle (ship w) o); [|apply IH, H].
  pose proof (hitObstacle_shakeBounded o w H) as H'.
  destruct (hitObstacle o w) as [w' returned]. cbn [fst] in H'.
  destruct returned; cbn [fst]; [exact H'|apply IH, H'].
Qed.

Lemma applyEffect_shakeOf (t : PowerUpType.t) (s : Spaceship.t) :
  shakeOf (applyEffect t s) = shakeOf s.
Proof. destruct t; reflexivity. Qed.

Lemma powerUpCollisions_shakeOf (n : nat) :
  forall w : World, shakeOf (ship (powerUpCollisions n w)) = shakeOf (ship w).
Proof.
  induction n as [|n IH]; intros w; [reflexivity|].
  cbn [powerUpCollisions].
  destruct (powerUps w !! n) as [p|]; [|reflexivity].
  destruct (overlapsPowerUp (ship w) p); [|apply IH].
  rewrite IH. cbn [ship with_powerUps]. rewrite collectPowerUp_ship.
  apply applyEffect_shakeOf.
Qed.

Lemma updateShip_shakeBounded (keys : gset string) (deltaTime r1 r2 : Q)
    (g : GameState.t) (s : Spaceship.t) :
  0 <= r1 -> r1 <= 1 -> 0 <= r2 -> r2 <= 1 ->
  shakeBounded s -> shakeBounded (updateShip keys deltaTime r1 r2 g s).
Proof.
  intros Hr1 Hr1' Hr2 Hr2' Hs.
  apply (shakeBounded_shakeOf (updateScreenShake r1 r2 s));
    [apply updateShip_shakeOf|].
  apply updateScreenShake_shakeBounded; assumption.
Qed.

Lemma checkCollisions_shakeBounded (w : World) :
  shakeBounded (ship w) -> shakeBounded (ship (checkCollisions w)).
Proof.
  intros Hs. unfold checkCollisions.
  pose proof (obstacleCollisions_shakeBounded (obstacles w) w Hs) as H.
  destruct (obstacleCollisions (obstacles w) w) as [w' returned].
  cbn [fst] in H. destruct returned; [exact H|].
  apply (shakeBounded_shakeOf (ship w'));
    [apply powerUpCollisions_shakeOf|exact H].
Qed.

(** X2. The screen shake stays in its range: from the start of a game and
    after a restart, through every frame whose two shake draws lie in [0, 1]
    and through every collision pass, the shake intensity is 0 (with both
    offsets 0) or lies in [0.1, 5], and each offset lies in [-2.5, 2.5]. *)
Theorem screen_shake_bounded :
  shakeBounded initialSpaceship
  /\ (forall w : World, shakeBounded (ship (resetGame w)))
  /\ (forall (keys : gset string) (deltaTime r1 r2 : Q) (g : GameState.t)
             (s : Spaceship.t),
        0 <= r1 -> r1 <= 1 -> 0 <= r2 -> r2 <= 1 ->
        shakeBounded s -> shakeBounded (updateShip keys deltaTime r1 r2 g s))
  /\ (forall w : World,
        shakeBounded (ship w) -> shakeBounded (ship (checkCollisions w))).
Proof.
  assert (H0 : forall s, shakeOf s = (0, 0, 0) -> shakeBounded s).
  { intros s E. apply shakeOf_fields in E as (Ei & Ex & Ey).
    unfold shakeBounded, shakeAtRest. rewrite Ei, Ex, Ey.
    split; [left; auto|split; split; lra]. }
  split; [apply H0; reflexivity|].
  split; [intros w; apply H0; reflexivity|].
  split; [exact updateShip_shakeBounded|exact checkCollisions_shakeBounded].
Qed.

Lemma screen_shake_bounded_witness :
  shakeBounded shakenShip
  /\ shakeBounded (updateShip ∅ 16 0.25 0.75 (initialGameState 0) shakenShip).
Proof.
  destruct screen_shake_bounded as (_ & _ & Hframe & Hpass).
  assert (H : shakeBounded shakenShip).
  { unfold shakenShip, shakeBounded, shakeAtRest.
    split; [right; vm_compute; split; discriminate|].
    vm_compute. repeat split; discriminate. }
  split; [exact H|].
  apply Hframe; [lra|lra|lra|lra|exact H].
Defined.

Lemma fold_left_cons_step {A B : Type} (f : A -> B -> A) (x : B)
    (l : list B) (a : A) :
  fold_left f (x :: l) a = fold_left f l (f a x).
Proof. reflexivity. Qed.

Lemma shipFrames_cons (f : Frame.t) (fs : list Frame.t) (s : Spaceship.t) :
  shipFrames (f :: fs) s
  = shipFrames fs (updateShip (Frame.keys f) (Frame.deltaTime f) (Frame.r1 f)
                     (Frame.r2 f) (Frame.gameState f) s).
Proof.
  unfold shipFrames.
  exact (fold_left_cons_step
           (fun s f =>
              updateShip (Frame.keys f) (Frame.deltaTime f) (Frame.r1 f)
                (Frame.r2 f) (Frame.gameState f) s) f fs s).
Qed.

Lemma shipFrames_app (fs1 fs2 : list Frame.t) (s : Spaceship.t) :
  shipFrames (fs1 ++ fs2) s = shipFrames fs2 (shipFrames fs1 s).
Proof. apply fold_left_app. Qed.

Lemma updateShip_atRest (f : Frame.t) (s : Spaceship.t) :
  shakeAtRest s ->
  shakeAtRest (updateShip (Frame.keys f) (Frame.deltaTime f) (Frame.r1 f)
                 (Frame.r2 f) (Frame.gameState f) s).
Proof.
  intros (Ei & Ex & Ey).
  pose proof (updateShip_shakeOf (Frame.keys f) (Frame.deltaTime f)
                (Frame.r1 f) (Frame.r2 f) (Frame.gameState f) s) as E.
  destruct (updateScreenShake_cases (Frame.r1 f) (Frame.r2 f) s)
    as [[_ E']|[(Hi & _)|(Hi & _)]]; try (rewrite Ei in Hi; lra).
  rewrite E' in E. apply shakeOf_fields in E as (Ei' & Ex' & Ey').
  unfold shakeAtRest. rewrite Ei', Ex', Ey'. auto.
Qed.

Lemma shipFrames_atRest (fs : list Frame.t) :
  forall s : Spaceship.t, shakeAtRest s -> shakeAtRest (shipFrames fs s).
Proof.
  induction fs as [|f fs IH]; intros s H; [exact H|].
  rewrite shipFrames_cons. apply IH, updateShip_atRest, H.
Qed.

(** After [length fs] frames a shake that started at or below [B] is at rest
    or has decayed to at most [B * 0.9 ^ length fs], and after at least one
    frame it is at rest or at least 0.1. *)
Lemma shipFrames_decay (B : Q) (fs : list Frame.t) (s : Spaceship.t) :
  shakeAtRest s
  \/ (0 < Spaceship.screenShakeIntensity s
      /\ Spaceship.screenShakeIntensity s <= B) ->
  let s' := shipFrames fs s in
  (shakeAtRest s'
   \/ (0 < Spaceship.screenShakeIntensity s'
       /\ Spaceship.screenShakeIntensity s'
          <= B * (9 # 10) ^ Z.of_nat (length fs)))
  /\ (fs <> [] ->
      shakeAtRest s' \/ 0.1 <= Spaceship.screenShakeIntensity s').
Proof.
  intros Hs. cbv zeta. induction fs as [|f fs IH] using rev_ind.
  - split; [|congruence]. change (shipFrames [] s) with s.
    change ((9 # 10) ^ Z.of_nat (length (@nil Frame.t))) with 1.
    destruct Hs as [H|[H H']]; [left; exact H|right].
    split; [exact H|]. lra.
  - destruct IH as [IH _]. rewrite shipFrames_app.
    set (s1 := shipFrames fs s) in *.
    rewrite shipFrames_cons. change (shipFrames [] ?x) with x.
    rewrite length_app, Nat2Z.inj_add. change (Z.of_nat (length [f])) with 1%Z.
    rewrite Qpower_plus by discriminate. change ((9 # 10) ^ 1) with (9 # 10).
    destruct IH as [H|[H H']].
    { pose proof (updateShip_atRest f s1 H) as H1. split; [left|intros _; left];
        exact H1. }
    pose proof (updateShip_shakeOf (Frame.keys f) (Frame.deltaTime f)
                  (Frame.r1 f) (Frame.r2 f) (Frame.gameState f) s1) as E.
    destruct (updateScreenShake_cases (Frame.r1 f) (Frame.r2 f) s1)
      as [[Hi _]|[(_ & _ & E')|(_ & Hi & E')]]; [lra| |];
      rewrite E' in E; apply shakeOf_fields in E as (Ei & Ex & Ey).
    + split; [left|intros _; left]; unfold shakeAtRest; auto.
    + rewrite Ei. split; [right; split; [lra|]|intros _; right; exact Hi].
      set (p := (9 # 10) ^ Z.of_nat (length fs)) in *.
      set (i := Spaceship.screenShakeIntensity s1) in *. lra.
Qed.

(** X3. The shake of a hit dies out: a shake of intensity at most 5 (what a
    hit sets) is at rest, intensity and both offsets 0, after 38 frames
    without a further hit, whatever the random draws, keys and frame times,
    and stays at rest; 37 frames are not enough after a hit. *)
Theorem screen_shake_dies_out (fs : list Frame.t) (s : Spaceship.t) :
  Spaceship.screenShakeIntensity s <= 5 ->
  0 < Spaceship.screenShakeIntensity s \/ shakeAtRest s ->
  (38 <= length fs)%nat ->
  shakeAtRest (shipFrames fs s)
  /\ ~ shakeAtRest (shipFrames (repeat idleFrame 37) shakenShip).
Proof.
  intros H5 H0 Hlen. split.
  - rewrite <- (firstn_skipn 38 fs), shipFrames_app.
    apply shipFrames_atRest.
    assert (Hl : length (firstn 38 fs) = 38%nat)
      by (rewrite length_firstn; lia).
    assert (Hne : firstn 38 fs <> [])
      by (intros E; rewrite E in Hl; discriminate).
    destruct (shipFrames_decay 5 (firstn 38 fs) s) as [Hd Hr];
      [destruct H0 as [H0|H0]; [right; split; assumption|left; exact H0]|].
    cbv zeta in Hd, Hr. rewrite Hl in Hd.
    destruct (Hr Hne) as [H|H]; [exact H|].
    destruct Hd as [Hd|[_ Hd]]; [exact Hd|].
    assert (Hp : 5 * (9 # 10) ^ Z.of_nat 38 < 0.1)
      by (vm_compute; reflexivity).
    lra.
  - intros (Hi & _). vm_compute in Hi. discriminate.
Qed.

Lemma screen_shake_dies_out_witness :
  shakeAtRest (shipFrames (repeat idleFrame 38) shakenShip).
Proof.
  apply (screen_shake_dies_out (repeat idleFrame 38) shakenShip).
  - vm_compute. discriminate.
  - left. vm_compute. reflexivity.
  - vm_compute. lia.
Defined.

End Shake.

Section Pickups.

Lemma collectPowerUp_score (p : PowerUp.t) (w : World) :
  GameState.score (gameState (collectPowerUp p w))
  = GameState.score (gameState w)
    + scoreGain (GameState.difficultyLevel (gameState w)) p.
Proof. unfold collectPowerUp, scoreGain. destruct (PowerUp.type p); reflexivity. Qed.

Lemma collectPowerUp_difficultyLevel (p : PowerUp.t) (w : World) :
  GameState.difficultyLevel (gameState (collectPowerUp p w))
  = GameState.difficultyLevel (gameState w).
Proof. reflexivity. Qed.

Lemma collectPowerUp_powerUps (p : PowerUp.t) (w : World) :
  powerUps (collectPowerUp p w) = powerUps w.
Proof. reflexivity. Qed.

Lemma applyEffect_boxOf (t : PowerUpType.t) (s : Spaceship.t) :
  boxOf (applyEffect t s) = boxOf s.
Proof. destruct t; reflexivity. Qed.

Lemma overlapsPowerUp_boxOf (s s' : Spaceship.t) (p : PowerUp.t) :
  boxOf s' = boxOf s -> overlapsPowerUp s' p = overlapsPowerUp s p.
Proof.
  unfold boxOf, overlapsPowerUp, overlaps. intros H.
  injection H as -> -> -> ->. reflexivity.
Qed.

Lemma totalGain_app (level : Q) (l1 l2 : list PowerUp.t) :
  totalGain level (l1 ++ l2) == totalGain level l1 + totalGain level l2.
Proof.
  unfold totalGain.
  induction l1 as [|p l1 IH]; cbn [fold_right app]; lra.
Qed.

(** The reverse index loop over the first [length pre] power-ups. *)
Lemma powerUpCollisions_pre (pre : list PowerUp.t) :
  forall (suf : list PowerUp.t) (w : World),
    powerUps w = pre ++ suf ->
    let w' := powerUpCollisions (length pre) w in
    powerUps w'
    = List.filter (fun p => negb (overlapsPowerUp (ship w) p)) pre ++ suf
    /\ ship w' = applyEffects (List.filter (overlapsPowerUp (ship w)) pre) (ship w)
    /\ GameState.score (gameState w')
       == GameState.score (gameState w)
          + totalGain (GameState.difficultyLevel (gameState w))
              (List.filter (overlapsPowerUp (ship w)) pre)
    /\ GameState.difficultyLevel (gameState w')
       = GameState.difficultyLevel (gameState w)
    /\ boxOf (ship w') = boxOf (ship w).
Proof.
  induction pre as [|p pre IH] using rev_ind; intros suf w Hw; cbv zeta.
  - cbn. split; [exact Hw|]. split; [reflexivity|]. split; [lra|].
    split; reflexivity.
  - rewrite length_app, Nat.add_1_r. cbn [powerUpCollisions].
    rewrite Hw, <- app_assoc. cbn [app].
    rewrite list_lookup_middle by reflexivity.
    rewrite !List.filter_app. cbn [List.filter].
    destruct (overlapsPowerUp (ship w) p) eqn:Ep; cbn [negb].
    + set (w1 := with_powerUps _ _).
      assert (Hw1 : powerUps w1 = pre ++ suf).
      { subst w1. cbn [powerUps with_powerUps].
        rewrite collectPowerUp_powerUps, Hw, <- app_assoc. cbn [app].
        apply delete_middle. }
      assert (Hs1 : ship w1 = applyEffect (PowerUp.type p) (ship w))
        by reflexivity.
      assert (Hb1 : boxOf (ship w1) = boxOf (ship w))
        by (rewrite Hs1; apply applyEffect_boxOf).
      destruct (IH suf w1 Hw1) as (Hp & Hs & Hsc & Hd & Hb). cbv zeta in *.
      assert (Ef : List.filter (overlapsPowerUp (ship w1)) pre
                   = List.filter (overlapsPowerUp (ship w)) pre)
        by (apply List.filter_ext; intros q; apply overlapsPowerUp_boxOf, Hb1).
      assert (Ek : List.filter (fun q => negb (overlapsPowerUp (ship w1) q)) pre
                   = List.filter (fun q => negb (overlapsPowerUp (ship w) q)) pre)
        by (apply List.filter_ext; intros q; f_equal;
            apply overlapsPowerUp_boxOf, Hb1).
      rewrite Ef in Hs, Hsc. rewrite Ek in Hp.
      split; [rewrite Hp, app_nil_r; reflexivity|].
      split; [rewrite Hs, Hs1; unfold applyEffects; rewrite fold_right_app;
              reflexivity|].
      split.
      { rewrite Hsc, totalGain_app. subst w1.
        cbn [gameState with_powerUps].
        rewrite collectPowerUp_score, collectPowerUp_difficultyLevel.
        cbn [totalGain fold_right]. lra. }
      split; [rewrite Hd; reflexivity|congruence].
    + destruct (IH (p :: suf) w) as (Hp & Hs & Hsc & Hd & Hb);
        [rewrite Hw, <- app_assoc; reflexivity|]. cbv zeta in *.
      split; [rewrite Hp, <- app_assoc; reflexivity|].
      rewrite app_nil_r. auto.
Qed.

Lemma hitObstacle_scoring (o : Obstacle.t) (w : World) :
  let w' := fst (hitObstacle o w) in
  GameState.score (gameState w') = GameState.score (gameState w)
  /\ GameState.difficultyLevel (gameState w')
     = GameState.difficultyLevel (gameState w)
  /\ boxOf (ship w') = boxOf (ship w).
Proof.
  cbv zeta. unfold hitObstacle.
  repeat match goal with |- context [if ?c then _ else _] => destruct c end;
    repeat split; reflexivity.
Qed.

Lemma obstacleCollisions_scoring (l : list Obstacle.t) :
  forall w : World,
    let w' := fst (obstacleCollisions l w) in
    GameState.score (gameState w') = GameState.score (gameState w)
    /\ GameState.difficultyLevel (gameState w')
       = GameState.difficultyLevel (gameState w)
    /\ boxOf (ship w') = boxOf (ship w).
Proof.
  induction l as [|o l IH]; intros w; cbv zeta; [repeat split; reflexivity|].
  cbn [obstacleCollisions].
  destruct (Spaceship.isInvisible (ship w)); [apply IH|].
  destruct (Spaceship.shield (ship w)); [apply IH|].
  destruct (overlapsObstacle (ship w) o); [|apply IH].
  pose proof (hitObstacle_scoring o w) as (H1 & H2 & H3). cbv zeta in *.
  destruct (hitObstacle o w) as [w' returned]. cbn [fst] in *.
  destruct returned; cbn [fst]; [auto|].
  destruct (IH w') as (H1' & H2' & H3'). cbv zeta in *.
  repeat split; congruence.
Qed.

(** X4. What a collision pass collects. If the obstacle pass ends the game
    the power-ups and the score are left alone. Otherwise the power-ups
    that remain are exactly those the ship does not overlap, in their
    order; the effect of every overlapped power-up is applied once, last
    one of the array first; and the score grows by the sum of their gains
    at the current difficulty level. *)
Theorem checkCollisions_collects (w : World) :
  let overlapped := List.filter (overlapsPowerUp (ship w)) (powerUps w) in
  let afterObstacles := obstacleCollisions (obstacles w) w in
  let w' := checkCollisions w in
  if snd afterObstacles then
    powerUps w' = powerUps w
    /\ GameState.score (gameState w') = GameState.score (gameState w)
  else
    powerUps w'
    = List.filter (fun p => negb (overlapsPowerUp (ship w) p)) (powerUps w)
    /\ ship w' = applyEffects overlapped (ship (fst afterObstacles))
    /\ GameState.score (gameState w')
       == GameState.score (gameState w)
          + totalGain (GameState.difficultyLevel (gameState w)) overlapped.
Proof.
  cbv zeta. unfold checkCollisions.
  pose proof (obstacleCollisions_frame (obstacles w) w) as [_ Hp].
  pose proof (obstacleCollisions_scoring (obstacles w) w) as (Hs & Hd & Hb).
  cbv zeta in *.
  destruct (obstacleCollisions (obstacles w) w) as [w1 returned].
  cbn [fst snd] in *. destruct returned; [auto|].
  destruct (powerUpCollisions_pre (powerUps w1) [] w1) as (Hp' & Hs' & Hsc & _);
    [rewrite app_nil_r; reflexivity|]. cbv zeta in *.
  rewrite app_nil_r in Hp'. rewrite Hp in *.
  assert (Ef : List.filter (overlapsPowerUp (ship w1)) (powerUps w)
               = List.filter (overlapsPowerUp (ship w)) (powerUps w))
    by (apply List.filter_ext; intros q; apply overlapsPowerUp_boxOf, Hb).
  assert (Ek : List.filter (fun q => negb (overlapsPowerUp (ship w1) q)) (powerUps w)
               = List.filter (fun q => negb (overlapsPowerUp (ship w) q)) (powerUps w))
    by (apply List.filter_ext; intros q; f_equal;
        apply overlapsPowerUp_boxOf, Hb).
  rewrite Ef in Hs', Hsc. rewrite Ek in Hp'. rewrite Hs, Hd in Hsc.
  auto.
Qed.

End Pickups.

Section Score.

Lemma floor_Z (a : Q) : exists z : Z, Js.floor a = inject_Z z.
Proof. eexists. reflexivity. Qed.

(** Every gain is 10 times a positive integer. *)
Lemma scoreGain_multiple (level : Q) (p : PowerUp.t) :
  exists k : Z, (1 <= k)%Z /\ scoreGain level p == 10 * inject_Z k.
Proof.
  unfold scoreGain, Js.floor.
  assert (Hm : exists m : Z, (1 <= m)%Z
                 /\ Qmax 1 (inject_Z (Qfloor level)) == inject_Z m).
  { destruct (Qmax_cases 1 (inject_Z (Qfloor level))) as [[H ->]|[H ->]].
    - exists (Qfloor level). split; [|reflexivity].
      change 1 with (inject_Z 1) in H. rewrite <- Zle_Qle in H. exact H.
    - exists 1%Z. split; [lia|reflexivity]. }
  destruct Hm as (m & Hm & HM).
  set (M := Qmax 1 (inject_Z (Qfloor level))) in *.
  destruct (PowerUp.rarity p), (PowerUp.type p);
    match goal with
    | |- context [10 * M * ?c + 10 * M] => exists (m * (Qnum c + 1))%Z
    | |- context [10 * M * ?c] => exists (m * Qnum c)%Z
    | |- context [10 * M + 10 * M] => exists (m * 2)%Z
    | |- _ => exists m
    end;
    (split; [cbn; lia|]); rewrite ?inject_Z_mult; cbn [Qnum];
    try change (inject_Z (2 + 1)) with 3;
    try change (inject_Z (3 + 1)) with 4;
    try change (inject_Z (5 + 1)) with 6;
    try change (inject_Z 2) with 2; try change (inject_Z 3) with 3;
    try change (inject_Z 5) with 5; lra.
Qed.

Lemma collectPowerUp_scoreKept (p : PowerUp.t) (w : World) :
  scoreKept w -> scoreKept (collectPowerUp p w).
Proof.
  intros ((k & Hk & Ek) & Hh & Hs). unfold scoreKept.
  rewrite collectPowerUp_score.
  destruct (scoreGain_multiple (GameState.difficultyLevel (gameState w)) p)
    as (j & Hj & Ej).
  unfold collectPowerUp. fold (scoreGain (GameState.difficultyLevel (gameState w)) p).
  cbn -[Qplus Qle Qeq Js.gt scoreGain].
  split; [exists (k + j)%Z; split; [lia|rewrite inject_Z_plus; lra]|].
  split.
  - match goal with |- context [if ?c then _ else _] => js_cmp c end; lra.
  - reflexivity.
Qed.

Lemma hitObstacle_scoreKept (o : Obstacle.t) (w : World) :
  scoreKept w -> scoreKept (fst (hitObstacle o w)).
Proof.
  intros H. unfold hitObstacle.
  repeat match goal with |- context [if ?c then _ else _] => destruct c end;
    exact H.
Qed.

Lemma obstacleCollisions_scoreKept (l : list Obstacle.t) :
  forall w : World, scoreKept w -> scoreKept (fst (obstacleCollisions l w)).
Proof.
  induction l as [|o l IH]; intros w H; [exact H|].
  cbn [obstacleCollisions].
  destruct (Spaceship.isInvisible (ship w)); [apply IH, H|].
  destruct (Spaceship.shield (ship w)); [apply IH, H|].
  destruct (overlapsObstacle (ship w) o); [|apply IH, H].
  pose proof (hitObstacle_scoreKept o w H) as H'.
  destruct (hitObstacle o w) as [w' returned]. cbn [fst] in H'.
  destruct returned; cbn [fst]; [exact H'|apply IH, H'].
Qed.

Lemma powerUpCollisions_scoreKept (n : nat) :
  forall w : World, scoreKept w -> scoreKept (powerUpCollisions n w).
Proof.
  induction n as [|n IH]; intros w H; [exact H|].
  cbn [powerUpCollisions].
  destruct (powerUps w !! n) as [p|]; [|exact H].
  destruct (overlapsPowerUp (ship w) p); [|apply IH, H].
  apply IH. apply (collectPowerUp_scoreKept p) in H. exact H.
Qed.

Lemma updateDifficulty_score (fuel : nat) (g g' : GameState.t) :
  updateDifficulty fuel g = Some g' ->
  GameState.score g' = GameState.score g
  /\ GameState.highScore g' = GameState.highScore g.
Proof.
  unfold updateDifficulty.
  destruct (levelLoop fuel (GameState.score g) 1 100) as [[L next]|];
    [|discriminate].
  cbv zeta. destruct (Js.lt _ _); intros H; injection H as <-; [auto|].
  unfold applyDifficulty.
  repeat match goal with |- context [if ?c then _ else _] => destruct c end;
    split; reflexivity.
Qed.

Lemma checkCollisions_scoreKept (w : World) :
  scoreKept w -> scoreKept (checkCollisions w).
Proof.
  intros H. unfold checkCollisions.
  pose proof (obstacleCollisions_scoreKept (obstacles w) w H) as H'.
  destruct (obstacleCollisions (obstacles w) w) as [w' returned].
  cbn [fst] in H'. destruct returned; [exact H'|].
  apply powerUpCollisions_scoreKept, H'.
Qed.

(** X5. The score bookkeeping. From a game started with a stored best
    score that is not negative, through every power-up collection, every
    collision pass, every difficulty update and every restart: the score
    is a non-negative multiple of 10, it never exceeds the high score, and
    the stored best score equals the high score. *)
Theorem score_bookkeeping :
  (forall stored : Q, 0 <= stored -> scoreKept (initialWorld stored))
  /\ (forall w : World, scoreKept w -> scoreKept (resetGame w))
  /\ (forall (p : PowerUp.t) (w : World),
        scoreKept w -> scoreKept (collectPowerUp p w))
  /\ (forall w : World, scoreKept w -> scoreKept (checkCollisions w))
  /\ (forall (fuel : nat) (w : World) (g' : GameState.t),
        updateDifficulty fuel (gameState w) = Some g' ->
        scoreKept w -> scoreKept (with_gameState g' w)).
Proof.
  split.
  { intros stored Hs. unfold scoreKept, initialWorld, initialGameState.
    cbn [gameState starRunHighScore GameState.score GameState.highScore].
    split; [exists 0%Z; split; [lia|reflexivity]|].
    unfold Js.or, Js.truthy, Js.truthy_number.
    destruct (Qeq_bool stored 0) eqn:E; cbn [negb];
      [apply Qeq_bool_eq in E|]; split; lra. }
  split.
  { intros w ((k & Hk & Ek) & Hh & Hs). unfold scoreKept.
    cbn [resetGame gameState starRunHighScore with_powerUps with_obstacles
         with_ship with_gameState GameState.score GameState.highScore].
    split; [exists 0%Z; split; [lia|reflexivity]|].
    split; [|exact Hs].
    assert (0 <= inject_Z k) by (change 0 with (inject_Z 0);
                                 rewrite <- Zle_Qle; exact Hk).
    lra. }
  split; [exact collectPowerUp_scoreKept|].
  split; [exact checkCollisions_scoreKept|].
  intros fuel w g' E H. apply updateDifficulty_score in E as [Es Eh].
  unfold scoreKept. cbn [gameState with_gameState starRunHighScore].
  rewrite Es, Eh. exact H.
Qed.

Lemma score_bookkeeping_witness :
  scoreKept (checkCollisions pickupWorld)
  /\ GameState.score (gameState (checkCollisions pickupWorld)) == 10.
Proof.
  destruct score_bookkeeping as (Hinit & _ & _ & Hpass & _).
  split; [|vm_compute; reflexivity].
  apply Hpass. apply (Hinit 120). lra.
Defined.

End Score.

Section Survivors.

Variable sqrt : Q -> Q.

Lemma repel_sansVelocity (obstacle other : Obstacle.t) :
  sansVelocity (repel sqrt obstacle other) = sansVelocity obstacle.
Proof.
  unfold repel. destruct (Js.lt _ 30 && Js.gt _ 0); reflexivity.
Qed.

Lemma avoidFrom_sansVelocity (rest : list Obstacle.t) :
  forall (i currentIndex : nat) (obstacle : Obstacle.t),
    sansVelocity (avoidFrom sqrt i rest currentIndex obstacle)
    = sansVelocity obstacle.
Proof.
  induction rest as [|other rest IH]; intros i currentIndex obstacle;
    [reflexivity|].
  cbn [avoidFrom]. destruct (Nat.eqb i currentIndex); rewrite IH;
    [reflexivity|apply repel_sansVelocity].
Qed.

(** The loop, entered with the slots below [length pre] still to visit. *)
Lemma obstacleLoop_sansVelocity (frozen : bool) (g : GameState.t)
    (pre : list Obstacle.t) :
  forall post : list Obstacle.t,
    map sansVelocity (obstacleLoop sqrt (length pre) frozen g (pre ++ post))
    = map sansVelocity
        (List.filter (onScreen g) (map (moveObstacle frozen) pre))
      ++ map sansVelocity post.
Proof.
  induction pre as [|o pre IH] using rev_ind; intros post; [reflexivity|].
  rewrite length_app, Nat.add_1_r, <- app_assoc.
  cbn [app obstacleLoop].
  rewrite list_lookup_middle by reflexivity.
  rewrite map_app, List.filter_app, map_app, <- app_assoc.
  cbn [map List.filter]. unfold onScreen at 2.
  destruct (isOffScreen g (moveObstacle frozen o)); cbn [negb app].
  - rewrite delete_middle. apply IH.
  - rewrite !insert_middle, IH. cbn [map app]. f_equal. f_equal.
    apply avoidFrom_sansVelocity.
Qed.

Lemma updateObstacles_sansVelocity (w : World) :
  map sansVelocity (obstacles (updateObstacles sqrt w))
  = map sansVelocity
      (List.filter (onScreen (gameState w))
         (map (moveObstacle (Spaceship.isTimeFrozen (ship w))) (obstacles w))).
Proof.
  unfold updateObstacles. cbn [obstacles with_obstacles].
  pose proof (obstacleLoop_sansVelocity (Spaceship.isTimeFrozen (ship w))
                (gameState w) (obstacles w) []) as H.
  rewrite !app_nil_r in H. exact H.
Qed.

Lemma updateObstacles_length (w : World) :
  (length (obstacles (updateObstacles sqrt w)) <= length (obstacles w))%nat.
Proof.
  pose proof (updateObstacles_sansVelocity w) as H.
  apply (f_equal (@length _)) in H. rewrite !length_map in H. rewrite H.
  etransitivity; [apply List.filter_length_le|]. rewrite length_map. lia.
Qed.

(** X6. The obstacle pass of a frame touches nothing but what it is meant
    to: the obstacles kept are, in their order, those still within the exit
    margin after their step, and apart from the two velocity components,
    which the separation pass adjusts, each is exactly its stepped self
    (same id, type, size, damage, health, position and rotation); the ship,
    the power-ups and the game state are left alone and no obstacle is
    added. *)
Theorem updateObstacles_keeps_bodies (w : World) :
  let w' := updateObstacles sqrt w in
  map sansVelocity (obstacles w')
  = map sansVelocity
      (List.filter (onScreen (gameState w))
         (map (moveObstacle (Spaceship.isTimeFrozen (ship w))) (obstacles w)))
  /\ (length (obstacles w') <= length (obstacles w))%nat
  /\ ship w' = ship w /\ powerUps w' = powerUps w
  /\ gameState w' = gameState w.
Proof.
  cbv zeta. split; [apply updateObstacles_sansVelocity|].
  split; [apply updateObstacles_length|repeat split; reflexivity].
Qed.

End Survivors.

Section Bursts.

Variable sqrt : Q -> Q.
Variable draws : nat -> Q.
Variable now : Q.
Variable atan2 : Q -> Q -> Q.

Lemma orb4_true (a b c d : bool) :
  a = true \/ b = true \/ c = true \/ d = true -> a || b || c || d = true.
Proof. destruct a, b, c, d; cbn; intuition discriminate. Qed.

Lemma spawnOne_late (i : nat) (w : World) (n : nat) :
  drawsInRange draws -> spawnerTuned (gameState w) ->
  exists o : Obstacle.t,
    fst (spawnOne draws now atan2 i w n) = with_obstacles (obstacles w ++ [o]) w
    /\ ((1 <= i)%nat ->
        forall frozen : bool,
          isOffScreen (gameState w) (moveObstacle frozen o) = true).
Proof.
  intros Hr (Hg0 & Hg30 & Hsize & Hspeed & HW & HH).
  unfold spawnOne, mbind, Rand_bind, mathRandom. rewrite Hsize, Hspeed.
  pose proof (Hr (S n)) as [Hs0 Hs1].
  pose proof (Hr (S (S n))) as [Hv0 Hv1].
  set (rsize := draws (S n)) in *. set (rspeed := draws (S (S n))) in *.
  set (gs := GameState.gameSpeed (gameState w)) in *.
  assert (Hsp : 0 <= rspeed * gs /\ rspeed * gs <= 30) by (split; nra).
  set (speed := (2 + rspeed * gs) * 1).
  assert (Hspeed' : 2 <= speed /\ speed <= 32) by (subst speed; split; lra).
  clearbody speed.
  pose proof (Hr (S (S (S (S (S n)))))) as [Ha0 Ha1].
  pose proof (Hr (S (S (S (S (S (S n))))))) as [Hb0 Hb1].
  assert (Hfa : 0 <= speed * (0.8 + draws (S (S (S (S (S n))))) * 0.4)
                /\ speed * (0.8 + draws (S (S (S (S (S n))))) * 0.4) <= 38.4)
    by (split; nra).
  assert (Hfb : 0 <= speed * (0.8 + draws (S (S (S (S (S (S n)))))) * 0.4)
                /\ speed * (0.8 + draws (S (S (S (S (S (S n)))))) * 0.4)
                   <= 38.4)
    by (split; nra).
  destruct (pick (draws (S (S (S n)))) _ SpawnSide.top);
    cbn [fst snd]; (eexists; split; [reflexivity|]); intros Hi frozen;
    assert (Hd : 1 <= inject_Z (Z.of_nat i))
      by (change 1 with (inject_Z 1); rewrite <- Zle_Qle; lia);
    set (d := inject_Z (Z.of_nat i)) in *;
    unfold isOffScreen, moveObstacle, margin; apply orb4_true;
    destruct frozen;
    cbn [Obstacle.x Obstacle.y Obstacle.velocityX Obstacle.velocityY
         Obstacle.set_x Obstacle.set_y Obstacle.set_rotation];
    rewrite !lt_true, !gt_true.
  all: try (left; lra).
  all: try (right; left; lra).
  all: try (right; right; left; lra).
  all: try (right; right; right; lra).
Qed.

Lemma spawnBurst_late (remaining : nat) :
  forall (i : nat) (w : World) (n : nat),
    drawsInRange draws -> spawnerTuned (gameState w) -> (1 <= i)%nat ->
    exists late : list Obstacle.t,
      fst (spawnBurst draws now atan2 remaining i w n)
      = with_obstacles (obstacles w ++ late) w
      /\ length late = remaining
      /\ Forall (leavesAtOnce (gameState w)) late.
Proof.
  induction remaining as [|remaining IH]; intros i w n Hr Hg Hi.
  - exists []. rewrite app_nil_r. destruct w. repeat split. constructor.
  - cbn [spawnBurst]. unfold mbind, Rand_bind.
    destruct (spawnOne_late i w n Hr Hg) as (o & Eo & Ho).
    destruct (spawnOne draws now atan2 i w n) as [w1 n1]. cbn [fst] in Eo.
    subst w1.
    destruct (IH (S i) (with_obstacles (obstacles w ++ [o]) w) n1 Hr Hg)
      as (late & El & Hlen & Hl); [lia|].
    exists (o :: late). rewrite El. cbn [obstacles with_obstacles gameState].
    rewrite <- app_assoc. split; [reflexivity|].
    split; [cbn [length]; lia|]. constructor; [exact (Ho Hi)|exact Hl].
Qed.

Lemma filter_leavesAtOnce (g : GameState.t) (frozen : bool)
    (late : list Obstacle.t) :
  Forall (leavesAtOnce g) late ->
  List.filter (onScreen g) (map (moveObstacle frozen) late) = [].
Proof.
  induction 1 as [|o late Ho _ IH]; [reflexivity|].
  cbn [map List.filter]. unfold onScreen at 1. rewrite (Ho frozen). exact IH.
Qed.

(** X7. Only the first obstacle of a burst can reach the playfield. With
    draws in [0, 1) and the values the game keeps (game speed at most 30,
    both obstacle multipliers 1), [spawnRandomObstacle] adds the obstacle of
    its first iteration followed by [obstacleCount - 1] more, each placed
    [200 * i] beyond its edge, which is beyond the exit margin of 100: the
    next obstacle pass removes every one of them, frozen or not, so that
    after it the obstacles are those a burst of one would have left. *)
Theorem burst_keeps_only_first (w : World) (n : nat) :
  drawsInRange draws -> spawnerTuned (gameState w) ->
  let one := fst (spawnOne draws now atan2 0 w n) in
  let burst := fst (spawnRandomObstacle draws now atan2 w n) in
  exists late : list Obstacle.t,
    obstacles burst = obstacles one ++ late
    /\ S (length late)
       = obstacleCount (GameState.difficultyLevel (gameState w))
    /\ Forall (leavesAtOnce (gameState w)) late
    /\ map sansVelocity (obstacles (updateObstacles sqrt burst))
       = map sansVelocity (obstacles (updateObstacles sqrt one)).
Proof.
  intros Hr Hg. cbv zeta. unfold spawnRandomObstacle.
  assert (Hc : exists k, obstacleCount (GameState.difficultyLevel (gameState w))
                         = S k).
  { unfold obstacleCount.
    repeat match goal with |- context [if ?c then _ else _] => destruct c end;
      eexists; reflexivity. }
  destruct Hc as (k & ->). cbn [spawnBurst]. unfold mbind, Rand_bind.
  destruct (spawnOne_late 0 w n Hr Hg) as (o & Eo & _).
  destruct (spawnOne draws now atan2 0 w n) as [w1 n1]. cbn [fst] in Eo |- *.
  subst w1.
  destruct (spawnBurst_late k 1 (with_obstacles (obstacles w ++ [o]) w) n1
              Hr Hg) as (late & El & Hlen & Hl); [lia|].
  exists late. rewrite El. cbn [obstacles with_obstacles gameState] in *.
  split; [reflexivity|]. split; [congruence|]. split; [exact Hl|].
  rewrite !updateObstacles_sansVelocity.
  cbn [obstacles with_obstacles gameState ship].
  rewrite (map_app _ (obstacles w ++ [o]) late), List.filter_app.
  rewrite (filter_leavesAtOnce _ _ late Hl), app_nil_r. reflexivity.
Qed.

End Bursts.

Lemma burst_keeps_only_first_witness :
  exists late : list Obstacle.t,
    spawnedAt 4
    = obstacles (fst (spawnOne halfDraws 0 flatAtan2 0 (worldAtLevel 4) 0%nat))
      ++ late
    /\ length late = 2%nat
    /\ Forall (leavesAtOnce (gameState (worldAtLevel 4))) late.
Proof.
  assert (Hr : drawsInRange halfDraws)
    by (intros k; unfold halfDraws; split; lra).
  assert (Hg : spawnerTuned (gameState (worldAtLevel 4)))
    by (unfold spawnerTuned; cbn -[Qle]; conjuncts; (reflexivity || lra)).
  destruct (burst_keeps_only_first flatSqrt halfDraws 0 flatAtan2
              (worldAtLevel 4) 0%nat Hr Hg)
    as (late & E & Hlen & Hl & _).
  exists late. split; [exact E|]. split; [|exact Hl].
  assert (E3 : obstacleCount
                 (GameState.difficultyLevel (gameState (worldAtLevel 4)))
               = 3%nat) by (vm_compute; reflexivity).
  rewrite E3 in Hlen. lia.
Defined.

(** ** The page around the game *)

Section Page.

Lemma arrivals_cons (a : ViewerAction.t) (actions : list ViewerAction.t)
    (h : Home.t) :
  arrivals (a :: actions) h = arrivals actions (Home.handleViewerAction a h).
Proof. reflexivity. Qed.

(** X8. The page keeps the newest 50 viewer actions, newest first: after any
    sequence of arrivals the queue is the first 50 of the arrivals, latest
    first, followed by what was queued before; in particular it never holds
    more than 50, and an action is dropped after 50 later arrivals whether
    it was handled or not. *)
Theorem queue_keeps_newest_50 (actions : list ViewerAction.t) (h : Home.t) :
  (length (Home.viewerActions h) <= 50)%nat ->
  let h' := arrivals actions h in
  Home.viewerActions h' = take 50 (rev actions ++ Home.viewerActions h)
  /\ (length (Home.viewerActions h') <= 50)%nat
  /\ Home.processedActions h' = Home.processedActions h.
Proof.
  intros Hlen. cbv zeta.
  assert (H : Home.viewerActions (arrivals actions h)
              = take 50 (rev actions ++ Home.viewerActions h)
              /\ Home.processedActions (arrivals actions h)
                 = Home.processedActions h).
  { revert h Hlen. induction actions as [|a actions IH]; intros h Hlen.
    - cbn [arrivals fold_left rev app]. rewrite take_ge by exact Hlen. auto.
    - rewrite arrivals_cons.
      destruct (IH (Home.handleViewerAction a h)) as [-> ->].
      { cbn [Home.handleViewerAction Home.viewerActions length].
        rewrite length_take. lia. }
      split; [|reflexivity].
      cbn [Home.handleViewerAction Home.viewerActions rev].
      rewrite <- app_assoc. cbn [app].
      rewrite !take_app.
      f_equal.
      destruct (50 - length (rev actions))%nat as [|k] eqn:Ek; [reflexivity|].
      cbn [take]. f_equal. rewrite take_take. f_equal. lia. }
  destruct H as [Hq Hp]. split; [exact Hq|]. split; [|exact Hp].
  rewrite Hq, length_take. lia.
Qed.

Lemma queue_keeps_newest_50_witness :
  map ViewerAction.id
    (Home.viewerActions
       (arrivals (repeat (boostAction "b") 60) busyHome))
  = repeat "b" 50.
Proof.
  destruct (queue_keeps_newest_50 (repeat (boostAction "b") 60) busyHome)
    as (Hq & _ & _); [vm_compute; lia|].
  rewrite Hq. vm_compute. reflexivity.
Defined.

Lemma acknowledged_fields (ids : list string) :
  forall h : Home.t,
    Home.viewerActions (acknowledged ids h) = Home.viewerActions h
    /\ Home.processedActions (acknowledged ids h)
       = list_to_set ids ∪ Home.processedActions h.
Proof.
  induction ids as [|actionId ids IH]; intros h.
  - split; [reflexivity|]. cbn [list_to_set foldr].
    symmetry. apply (left_id_L ∅ (∪)).
  - change (acknowledged (actionId :: ids) h)
      with (acknowledged ids (Home.handleViewerActionProcessed actionId h)).
    destruct (IH (Home.handleViewerActionProcessed actionId h)) as [-> ->].
    split; [reflexivity|].
    cbn [Home.handleViewerActionProcessed Home.processedActions list_to_set].
    apply set_eq. intros x. rewrite !elem_of_union. tauto.
Qed.

Lemma filter_nothing {A : Type} (f : A -> bool) (l : list A) :
  (forall a, In a l -> f a = false) -> List.filter f l = [].
Proof.
  induction l as [|a l IH]; intros H; [reflexivity|].
  cbn [List.filter]. rewrite (H a) by (left; reflexivity).
  apply IH. intros b Hb. apply H. right. exact Hb.
Qed.

Section Effect.

Variable draws : nat -> Q.
Variable now : Q.
Variable atan2 : Q -> Q -> Q.

Lemma handleViewerActions_ids (actions : list ViewerAction.t) :
  forall (w : World) (n : nat),
    snd (fst (handleViewerActions draws now atan2 actions w n))
    = map ViewerAction.id actions.
Proof.
  induction actions as [|a actions IH]; intros w n; [reflexivity|].
  cbn [handleViewerActions]. unfold mbind, Rand_bind.
  match goal with
  | |- context [let (_, _) := ?m in _] => destruct m as [w1 n1]
  end.
  specialize (IH w1 n1).
  destruct (handleViewerActions draws now atan2 actions w1 n1)
    as [[w2 ids] n2].
  cbn in IH |- *. rewrite IH. reflexivity.
Qed.

(** X9. A viewer action is handled once. One run of the effect over the
    actions the page hands to the game reports the id of every one of them,
    in order; once the page has recorded these ids it hands over no action
    at all, although its queue still holds them, so that the next run of
    the effect changes nothing and draws no random number. *)
Theorem viewer_actions_handled_once (h : Home.t) (w : World) (n : nat) :
  let run := handleViewerActions draws now atan2 (Home.pendingActions h) w n in
  let h' := acknowledged (snd (fst run)) h in
  snd (fst run) = map ViewerAction.id (Home.pendingActions h)
  /\ Home.viewerActions h' = Home.viewerActions h
  /\ Home.pendingActions h' = []
  /\ handleViewerActions draws now atan2 (Home.pendingActions h')
       (fst (fst run)) (snd run)
     = (fst (fst run), [], snd run).
Proof.
  cbv zeta. rewrite handleViewerActions_ids.
  set (ids := map ViewerAction.id (Home.pendingActions h)).
  destruct (acknowledged_fields ids h) as [Hq Hp].
  assert (Hnone : Home.pendingActions (acknowledged ids h) = []).
  { unfold Home.pendingActions at 1. rewrite Hq, Hp.
    apply filter_nothing. intros a Ha.
    apply negb_false_iff, bool_decide_eq_true.
    destruct (decide (ViewerAction.id a ∈ Home.processedActions h))
      as [Hin|Hout]; [apply elem_of_union_r; exact Hin|].
    apply elem_of_union_l, elem_of_list_to_set, list_elem_of_In.
    subst ids. apply in_map. unfold Home.pendingActions.
    apply filter_In. split; [exact Ha|].
    apply negb_true_iff, bool_decide_eq_false. exact Hout. }
  split; [reflexivity|]. split; [exact Hq|]. split; [exact Hnone|].
  rewrite Hnone. reflexivity.
Qed.

End Effect.

End Page.

Section Stats.

Lemma multipleOfTen_gain (level : Q) (p : PowerUp.t) (q : Q) :
  multipleOfTen q -> multipleOfTen (q + scoreGain level p).
Proof.
  intros (k & Hk & Ek). destruct (scoreGain_multiple level p) as (j & Hj & Ej).
  exists (k + j)%Z. split; [lia|]. rewrite inject_Z_plus. lra.
Qed.

Lemma applyOp_score (w : World) (op : CraftOp) :
  multipleOfTen (GameState.score (gameState w)) ->
  multipleOfTen (GameState.score (gameState (applyOp w op)))
  /\ GameState.score (gameState w)
     + 10 * inject_Z (Z.of_nat (collections [op]))
     <= GameState.score (gameState (applyOp w op)).
Proof.
  intros Hm. destruct op as [o|p]; cbn [applyOp collections List.filter length].
  - destruct (hitObstacle_scoring o w) as (-> & _). cbv zeta.
    split; [exact Hm|]. change (inject_Z (Z.of_nat 0)) with 0. lra.
  - rewrite collectPowerUp_score.
    split; [apply multipleOfTen_gain, Hm|].
    destruct (scoreGain_multiple (GameState.difficultyLevel (gameState w)) p)
      as (j & Hj & ->).
    change (inject_Z (Z.of_nat 1)) with 1.
    assert (1 <= inject_Z j)
      by (change 1 with (inject_Z 1); rewrite <- Zle_Qle; exact Hj).
    lra.
Qed.

Lemma runOps_score (ops : list CraftOp) :
  forall w : World,
    multipleOfTen (GameState.score (gameState w)) ->
    multipleOfTen (GameState.score (gameState (runOps ops w)))
    /\ GameState.score (gameState w)
       + 10 * inject_Z (Z.of_nat (collections ops))
       <= GameState.score (gameState (runOps ops w)).
Proof.
  induction ops as [|op ops IH]; intros w Hm.
  - change (runOps [] w) with w.
    change (inject_Z (Z.of_nat (collections []))) with 0.
    split; [exact Hm|]. lra.
  - change (runOps (op :: ops) w) with (runOps ops (applyOp w op)).
    destruct (applyOp_score w op Hm) as [Hm1 Hs1].
    destruct (IH (applyOp w op) Hm1) as [Hm2 Hs2].
    split; [exact Hm2|].
    assert (E : inject_Z (Z.of_nat (collections (op :: ops)))
                == inject_Z (Z.of_nat (collections [op]))
                   + inject_Z (Z.of_nat (collections ops))).
    { rewrite <- inject_Z_plus, <- Nat2Z.inj_add. unfold collections.
      rewrite <- length_app, <- List.filter_app. reflexivity. }
    rewrite E. lra.
Qed.

(** X10. The statistic [itemsCollected] the page shows at game over is an
    upper estimate of the power-ups collected. After any sequence of hits
    and collections from the start of a game, [Math.floor(score / 10)] is
    exactly a tenth of the score (the score being a multiple of 10), and the
    number of collections is at most that; the two agree when all gains are
    10, as for a single common power-up at level 1. *)
Theorem itemsCollected_is_an_upper_estimate (stored : Q) (ops : list CraftOp) :
  let score := GameState.score (gameState (runOps ops (initialWorld stored))) in
  Home.itemsCollected score * 10 == score
  /\ inject_Z (Z.of_nat (collections ops)) <= Home.itemsCollected score
  /\ Home.itemsCollected
       (GameState.score
          (gameState
             (runOps [Collect (pickup PowerUpType.shield 0 0)]
                (initialWorld stored))))
     == 1.
Proof.
  cbv zeta.
  destruct (runOps_score ops (initialWorld stored)) as [(k & Hk & Ek) Hs];
    [exists 0%Z; split; [lia|reflexivity]|].
  set (score := GameState.score (gameState (runOps ops (initialWorld stored))))
    in *.
  assert (Ei : Home.itemsCollected score = inject_Z k).
  { unfold Home.itemsCollected, Js.floor. f_equal.
    rewrite <- (Qfloor_Z k). apply Qfloor_comp. rewrite Ek. field. }
  rewrite Ei. split; [lra|]. split; [|vm_compute; reflexivity].
  change (GameState.score (gameState (initialWorld stored))) with 0 in Hs.
  lra.
Qed.

Lemma floor_mono (a b : Q) : a <= b -> Js.floor a <= Js.floor b.
Proof.
  intros H. unfold Js.floor. rewrite <- Zle_Qle. apply Qfloor_resp_le, H.
Qed.

Lemma floor_nonneg (a : Q) : 0 <= a -> 0 <= Js.floor a.
Proof. intros H. apply (floor_mono 0 a) in H. exact H. Qed.

Lemma div_mono (a b c : Q) : 0 < c -> a <= b -> a / c <= b / c.
Proof.
  intros Hc H. unfold Qdiv. apply Qmult_le_compat_r; [exact H|].
  apply Qlt_le_weak, Qinv_lt_0_compat, Hc.
Qed.

(** X11. The reward computed at game over is a whole number of at least 1
    and never decreases when the score grows. *)
Theorem bonkReward_positive_and_monotone (score score' : Q) :
  score <= score' ->
  1 <= Home.bonkReward score
  /\ Home.bonkReward score <= Home.bonkReward score'
  /\ exists z : Z, Home.bonkReward score == inject_Z z.
Proof.
  intros Hle. unfold Home.bonkReward.
  assert (Hb : Js.floor (score / 100) <= Js.floor (score' / 100))
    by (apply floor_mono, div_mono; [reflexivity|exact Hle]).
  assert (Hx : (if Js.gt score 1000 then Js.floor (score / 500) else 0)
               <= (if Js.gt score' 1000 then Js.floor (score' / 500) else 0)).
  { js_cmp (Js.gt score 1000); js_cmp (Js.gt score' 1000); try lra.
    - apply floor_mono, div_mono; [reflexivity|exact Hle].
    - apply floor_nonneg. apply Qle_shift_div_l; [reflexivity|lra]. }
  split; [|split].
  - destruct (Qmax_cases 1 (Js.floor (score / 100)
                + (if Js.gt score 1000 then Js.floor (score / 500) else 0)))
      as [[? ->]|[? ->]]; lra.
  - destruct (Qmax_cases 1 (Js.floor (score / 100)
                + (if Js.gt score 1000 then Js.floor (score / 500) else 0)))
      as [[? ->]|[? ->]];
    destruct (Qmax_cases 1 (Js.floor (score' / 100)
                + (if Js.gt score' 1000 then Js.floor (score' / 500) else 0)))
      as [[? ->]|[? ->]]; lra.
  - destruct (Qmax_cases 1 (Js.floor (score / 100)
                + (if Js.gt score 1000 then Js.floor (score / 500) else 0)))
      as [[? ->]|[? ->]]; [|exists 1%Z; reflexivity].
    unfold Js.floor. destruct (Js.gt score 1000).
    + eexists. rewrite <- inject_Z_plus. reflexivity.
    + eexists (Qfloor (score / 100) + 0)%Z. rewrite inject_Z_plus. reflexivity.
Qed.

Lemma bonkReward_positive_and_monotone_witness :
  Home.bonkReward 990 <= Home.bonkReward 1010
  /\ Home.bonkReward 990 == 9 /\ Home.bonkReward 1010 == 12.
Proof.
  destruct (bonkReward_positive_and_monotone 990 1010) as (_ & H & _);
    [lra|].
  split; [exact H|]. split; vm_compute; reflexivity.
Defined.

End Stats.

(** ** Drop events, from the socket to the playfield *)

Section DropEvents.

Variable draws : nat -> Q.
Variable now : Q.
Variable atan2 : Q -> Q -> Q.
Variable dropId : Q -> Q -> string.

Lemma randomSide_cases (r : Q) :
  randomSide r = SpawnSide.left \/ randomSide r = SpawnSide.right
  \/ randomSide r = SpawnSide.top \/ randomSide r = SpawnSide.bottom.
Proof.
  unfold randomSide, pick.
  destruct (Z.to_nat _) as [|[|[|[|k]]]]; cbn; auto.
  destruct k; auto.
Qed.

(** X12. An obstacle dropped by a viewer. A drop event named "Drop
    Obstacle" or "Spawn Asteroid" yields one action, and handling it adds
    exactly one obstacle at the end of the list: an asteroid of 40 by 40
    with speed 4, damage 1 and health 1. Whatever position the event asks
    for, the obstacle starts on an edge of the playfield, so at most one
    coordinate of the request is honoured. *)
Theorem dropped_obstacle_starts_on_an_edge (d : DropEvent.t) (w : World)
    (n : nat) :
  DropEvent.eventName d = "Drop Obstacle"
  \/ DropEvent.eventName d = "Spawn Asteroid" ->
  exists (action : ViewerAction.t) (n1 : nat),
    handleDropEvent draws now dropId d n = (Some action, n1)
    /\ exists o : Obstacle.t,
         fst (fst (handleViewerActions draws now atan2 [action] w n1))
         = with_obstacles (obstacles w ++ [o]) w
         /\ Obstacle.type o = ObstacleType.asteroid
         /\ Obstacle.width o = 40 /\ Obstacle.height o = 40
         /\ Obstacle.speed o = 4
         /\ damageOf o = 1 /\ Obstacle.health o = Some 1
         /\ (Obstacle.x o == - (40)
             \/ Obstacle.x o = GameState.width (gameState w)
             \/ Obstacle.y o == - (40)
             \/ Obstacle.y o = GameState.height (gameState w)).
Proof.
  intros He. destruct d as [ev item pos]. cbn [DropEvent.eventName] in He.
  unfold handleDropEvent, handleViewerActions.
  cbn [DropEvent.eventName DropEvent.position DropEvent.itemName].
  assert (E1 : String.eqb ev "Drop Power-up" || String.eqb ev "Drop Shield"
               = false) by (destruct He; subst ev; reflexivity).
  assert (E2 : String.eqb ev "Drop Obstacle" || String.eqb ev "Spawn Asteroid"
               = true) by (destruct He; subst ev; reflexivity).
  rewrite E1, E2. clear E1 E2 He.
  unfold spawnObstacle, orElse, mbind, Rand_bind, mret, Rand_ret, mathRandom.
  destruct pos as [[px py]|]; cbn [option_map fst snd];
    [destruct (Js.truthy px); destruct (Js.truthy py)|].
  all: eexists _, _; (split; [reflexivity|]).
  all: repeat (cbn -[Qmult Qplus Qminus Qopp Qdiv randomSide Js.truthy];
               match goal with
               | |- context [Js.truthy ?q] =>
                 first [ change (Js.truthy q) with true
                       | destruct (Js.truthy q) ]
               | |- context [randomSide ?r] =>
                 destruct (randomSide_cases r) as [E|[E|[E|E]]]; rewrite E;
                 clear E
               end).
  all: eexists; (split; [reflexivity|]).
  all: cbn -[Qmult Qplus Qminus Qopp Qdiv].
  all: change (Js.truthy 1) with true; cbn [damageOf Js.or].
  all: repeat (split; [reflexivity|]).
  all: first [ left; reflexivity | right; left; reflexivity
             | right; right; left; reflexivity
             | right; right; right; reflexivity ].
Qed.

Lemma truthy_nonzero (q : Q) : ~ q == 0 -> Js.truthy q = true.
Proof.
  intros H. unfold Js.truthy, Js.truthy_number.
  destruct (Qeq_bool q 0) eqn:E; [|reflexivity].
  apply Qeq_bool_eq in E. contradiction.
Qed.

(** X13. A power-up dropped by a viewer. A drop event named "Drop Power-up"
    or "Drop Shield" that carries a position with both coordinates non-zero
    yields one action, and handling it adds exactly one power-up at the end
    of the list, at the requested position. It is a shield only when the
    item, not the event, is named "Drop Shield", and a bonus otherwise; it is
    common, and its 20 points play no role in the score it gives. *)
Theorem dropped_powerup_lands_where_asked (d : DropEvent.t) (w : World)
    (n : nat) (px py : Q) :
  DropEvent.eventName d = "Drop Power-up"
  \/ DropEvent.eventName d = "Drop Shield" ->
  DropEvent.position d = Some (px, py) -> ~ px == 0 -> ~ py == 0 ->
  exists (action : ViewerAction.t) (n1 : nat),
    handleDropEvent draws now dropId d n = (Some action, n1)
    /\ exists p : PowerUp.t,
         fst (fst (handleViewerActions draws now atan2 [action] w n1))
         = with_powerUps (powerUps w ++ [p]) w
         /\ PowerUp.x p = px /\ PowerUp.y p = py
         /\ PowerUp.type p
            = (if String.eqb (DropEvent.itemName d) "Drop Shield"
               then PowerUpType.shield else PowerUpType.bonus)
         /\ PowerUp.points p = 20
         /\ PowerUp.rarity p = Rarity.common
         /\ forall level : Q,
              scoreGain level p
              = (if String.eqb (DropEvent.itemName d) "Drop Shield"
                 then 10 * Qmax 1 (Js.floor level)
                 else 10 * Qmax 1 (Js.floor level)
                      + 10 * Qmax 1 (Js.floor level)).
Proof.
  intros He Hpos Hx Hy. destruct d as [ev item pos].
  cbn [DropEvent.eventName DropEvent.position DropEvent.itemName] in *.
  subst pos. apply truthy_nonzero in Hx, Hy.
  unfold handleDropEvent, handleViewerActions.
  cbn [DropEvent.eventName DropEvent.position DropEvent.itemName].
  assert (E1 : String.eqb ev "Drop Power-up" || String.eqb ev "Drop Shield"
               = true) by (destruct He; subst ev; reflexivity).
  rewrite E1. clear E1 He.
  unfold spawnPowerUp, orElse, mbind, Rand_bind, mret, Rand_ret, mathRandom.
  cbn [option_map fst snd]. rewrite Hx, Hy.
  eexists _, _. split; [reflexivity|].
  cbn -[Qmult Qplus Qminus Qopp Qdiv Js.truthy String.eqb].
  rewrite Hy.
  eexists. split; [reflexivity|].
  cbn -[Qmult Qplus Qminus Qopp Qdiv Js.truthy String.eqb scoreGain].
  rewrite Hx. change (Js.truthy 20) with true. cbv iota.
  split; [reflexivity|]. split; [reflexivity|].
  unfold scoreGain, Js.truthy, Js.truthy_boolean.
  destruct (String.eqb item "Drop Shield");
    cbn -[Qmult Qplus Qminus Qopp Qdiv Qmax Js.floor]; repeat split.
Qed.

End DropEvents.

Lemma dropped_obstacle_starts_on_an_edge_witness :
  exists (action : ViewerAction.t) (n1 : nat),
    handleDropEvent halfDraws 0 fixedDropId asteroidDrop 0%nat = (Some action, n1)
    /\ exists o : Obstacle.t,
         fst (fst (handleViewerActions halfDraws 0 flatAtan2 [action]
                     (initialWorld 0) n1))
         = with_obstacles [o] (initialWorld 0)
         /\ (Obstacle.x o, Obstacle.y o) = (300, - (40)).
Proof.
  destruct (dropped_obstacle_starts_on_an_edge halfDraws 0 flatAtan2
              fixedDropId asteroidDrop (initialWorld 0) 0%nat)
    as (action & n1 & E & _); [right; reflexivity|].
  exists action, n1. split; [exact E|].
  vm_compute in E. injection E as <- <-.
  eexists. split; vm_compute; reflexivity.
Defined.

Lemma dropped_powerup_lands_where_asked_witness :
  exists (action : ViewerAction.t) (n1 : nat) (p : PowerUp.t),
    handleDropEvent halfDraws 0 fixedDropId shieldDrop 0%nat = (Some action, n1)
    /\ fst (fst (handleViewerActions halfDraws 0 flatAtan2 [action]
                   (initialWorld 0) n1))
       = with_powerUps [p] (initialWorld 0)
    /\ (PowerUp.x p, PowerUp.y p, PowerUp.type p)
       = (300, 200, PowerUpType.bonus).
Proof.
  destruct (dropped_powerup_lands_where_asked halfDraws 0 flatAtan2
              fixedDropId shieldDrop (initialWorld 0) 0%nat 300 200)
    as (action & n1 & E & p & Ep & Hx & Hy & Ht & _);
    [right; reflexivity|reflexivity|discriminate|discriminate|].
  exists action, n1, p. split; [exact E|]. split; [exact Ep|].
  rewrite Hx, Hy, Ht. reflexivity.
Defined.

(** ** Power-ups across a frame *)

Section PowerUpMotion.

Variable sqrt : Q -> Q.

(** The loop, entered with the slots below [length pre] still to visit. *)
Lemma powerUpLoop_pre (s : Spaceship.t) (g : GameState.t)
    (pre : list PowerUp.t) :
  forall post lost : list PowerUp.t,
    powerUpLoop sqrt (length pre) s g (pre ++ post) lost
    = (omap (movedPowerUp sqrt s g) pre ++ post,
       List.filter (goesAdrift sqrt s) pre ++ lost).
Proof.
  induction pre as [|p pre IH] using rev_ind; intros post lost;
    [reflexivity|].
  rewrite length_app, Nat.add_1_r, <- app_assoc.
  cbn [app powerUpLoop].
  rewrite list_lookup_middle by reflexivity.
  rewrite omap_app, List.filter_app, <- !app_assoc.
  cbn [omap list_omap List.filter]. unfold movedPowerUp, goesAdrift.
  destruct (attractPowerUp sqrt s p) as [q|].
  - cbv zeta. destruct (pastLeftEdge (driftPowerUp s g q)); cbn [app].
    + rewrite delete_middle. apply IH.
    + rewrite insert_app_r_alt by lia. rewrite Nat.sub_diag.
      cbn [insert list_insert]. apply IH.
  - rewrite delete_middle.
    destruct (pulledToMinusInfinity s p); cbn [negb app]; apply IH.
Qed.

Lemma updatePowerUps_spec (w : World) :
  updatePowerUps sqrt w
  = (with_powerUps (omap (movedPowerUp sqrt (ship w) (gameState w)) (powerUps w))
       w,
     List.filter (goesAdrift sqrt (ship w)) (powerUps w)).
Proof.
  unfold updatePowerUps.
  pose proof (powerUpLoop_pre (ship w) (gameState w) (powerUps w) [] []) as H.
  rewrite !app_nil_r in H. rewrite H. reflexivity.
Qed.

(** A power-up is kept, lost, or neither: never both. *)
Lemma kept_and_lost_length (s : Spaceship.t) (g : GameState.t)
    (l : list PowerUp.t) :
  (length (omap (movedPowerUp sqrt s g) l)
   + length (List.filter (goesAdrift sqrt s) l) <= length l)%nat.
Proof.
  induction l as [|p l IH]; [reflexivity|].
  cbn [omap list_omap List.filter length].
  destruct (movedPowerUp sqrt s g p) eqn:E1;
    destruct (goesAdrift sqrt s p) eqn:E2; cbn [length]; try lia.
  unfold movedPowerUp, goesAdrift in E1, E2.
  destruct (attractPowerUp sqrt s p); discriminate.
Qed.

Lemma updatePowerUps_length (w : World) :
  (length (powerUps (fst (updatePowerUps sqrt w))) <= length (powerUps w))%nat.
Proof.
  rewrite updatePowerUps_spec. cbn [fst powerUps with_powerUps].
  pose proof (kept_and_lost_length (ship w) (gameState w) (powerUps w)). lia.
Qed.

(** X14. The power-up pass of a frame, for every world.  A power-up at
    distance 0 from the ship while the magnet is on and has a range is
    where the pull is no number ([attractPowerUp] is [None]); it is lost to
    the field: it stays in the array for good, or is removed at once if its
    [x] went to minus infinity.  The power-ups kept are, in their order,
    the others that are not past the left edge after the pull and the
    leftward drift; none is added, and every one kept has its right side at
    or right of the edge.  Without the magnet none is lost, and a power-up
    keeps its height and everything else but [x], which drops by twice the
    game speed, or by 1 under time-freeze. *)
Theorem updatePowerUps_closed_form (w : World) :
  let s := ship w in
  let g := gameState w in
  let w' := fst (updatePowerUps sqrt w) in
  let lost := snd (updatePowerUps sqrt w) in
  powerUps w' = omap (movedPowerUp sqrt s g) (powerUps w)
  /\ lost = List.filter (goesAdrift sqrt s) (powerUps w)
  /\ (length (powerUps w') + length lost <= length (powerUps w))%nat
  /\ Forall (fun p => 0 <= PowerUp.x p + PowerUp.width p) (powerUps w')
  /\ (forall p : PowerUp.t,
        let dx :=
          Spaceship.x s + Spaceship.width s / 2
          - (PowerUp.x p + PowerUp.width p / 2) in
        let dy :=
          Spaceship.y s + Spaceship.height s / 2
          - (PowerUp.y p + PowerUp.height p / 2) in
        let distance := sqrt (dx * dx + dy * dy) in
        (attractPowerUp sqrt s p = None
         <-> Spaceship.hasMagnet s = true /\ distance == 0
             /\ 0 < Spaceship.magnetRange s)
        /\ (attractPowerUp sqrt s p = None ->
            movedPowerUp sqrt s g p = None
            /\ goesAdrift sqrt s p = negb (Js.lt dx 0)))
  /\ (Spaceship.hasMagnet s = false ->
      lost = []
      /\ forall p : PowerUp.t,
          attractPowerUp sqrt s p = Some p
          /\ driftPowerUp s g p
             = setPowerUpX
                 (PowerUp.x p
                  - (if Spaceship.isTimeFrozen s then 1
                     else 2 * GameState.gameSpeed g))
                 p)
  /\ ship w' = ship w /\ obstacles w' = obstacles w
  /\ gameState w' = gameState w.
Proof.
  cbv zeta. rewrite updatePowerUps_spec. cbn [fst snd powerUps with_powerUps].
  split; [reflexivity|]. split; [reflexivity|].
  split; [apply kept_and_lost_length|].
  split; [|split; [|split]].
  - apply List.Forall_forall. intros q Hq.
    apply list_elem_of_In, list_elem_of_omap in Hq as (p & _ & Hp).
    unfold movedPowerUp in Hp.
    destruct (attractPowerUp sqrt (ship w) p) as [p'|]; [|discriminate].
    cbv zeta in Hp.
    destruct (pastLeftEdge (driftPowerUp (ship w) (gameState w) p')) eqn:E;
      [discriminate|].
    injection Hp as <-. unfold pastLeftEdge in E. apply lt_false in E. lra.
  - intros p. split.
    + unfold attractPowerUp.
      destruct (Spaceship.hasMagnet (ship w)).
      * match goal with
        | |- context [Js.lt ?d ?r] => js_cmp (Js.lt d r)
        end.
        -- match goal with
           | |- context [Qeq_bool ?d 0] => destruct (Qeq_bool d 0) eqn:E0
           end.
           ++ apply Qeq_bool_iff in E0. split; [intros _|reflexivity].
              split; [reflexivity|]. split; [exact E0|]. rewrite <- E0. exact E.
           ++ split; [discriminate|]. intros (_ & H0 & _).
              apply Qeq_bool_iff in H0. congruence.
        -- split; [discriminate|]. intros (_ & H0 & Hr). exfalso. lra.
      * split; [discriminate|]. intros (H & _). discriminate.
    + intros H. unfold movedPowerUp, goesAdrift, pulledToMinusInfinity.
      rewrite H. split; reflexivity.
  - intros Hm.
    assert (Ha : forall p, attractPowerUp sqrt (ship w) p = Some p).
    { intros p. unfold attractPowerUp. rewrite Hm. reflexivity. }
    split.
    + apply filter_nothing. intros p _. unfold goesAdrift. rewrite Ha.
      reflexivity.
    + intros p. split; [apply Ha|]. unfold driftPowerUp.
      destruct (Spaceship.isTimeFrozen (ship w)); reflexivity.
  - repeat split; reflexivity.
Qed.

End PowerUpMotion.

Lemma updatePowerUps_closed_form_witness :
  exists p : PowerUp.t,
    updatePowerUps flatSqrt pickupWorld = (with_powerUps [p] pickupWorld, [])
    /\ PowerUp.x p == 396 /\ PowerUp.y p == 500.
Proof.
  destruct (updatePowerUps_closed_form flatSqrt pickupWorld)
    as (E & El & _ & _ & _ & H & _).
  destruct (H eq_refl) as [_ Hp].
  eexists. split; [vm_compute; reflexivity|].
  split; vm_compute; reflexivity.
Defined.

(** With the magnet on, a power-up centred on the ship is lost to the
    field: its coordinates are no numbers any more, it is neither moved nor
    removed, and a power-up beside it drifts on. *)
Lemma centred_powerUp_goes_adrift :
  let s := magnetShip in
  let centred := pickup PowerUpType.bonus 407.5 502.5 in
  let w :=
    with_powerUps [centred; nearbyPickup] (with_ship s (initialWorld 0)) in
  attractPowerUp sqrtAt25 s centred = None
  /\ snd (updatePowerUps sqrtAt25 w) = [centred]
  /\ length (powerUps (fst (updatePowerUps sqrtAt25 w))) = 1%nat.
Proof.
  cbv zeta. split; [vm_compute; reflexivity|].
  split; vm_compute; reflexivity.
Qed.

Section RandomPowerUps.

Variable draws : nat -> Q.
Variable now : Q.

(** X15. A power-up of [spawnRandomPowerUp]. With draws in [0, 1) and a
    playfield at least 30 high, the spawner makes four draws and adds one
    power-up of 25 by 25 at the end of the list, on the right edge and
    between the top and 30 above the bottom. Its [points] are not what
    collecting it gives: collected at the level it was made for, it gives
    twice its points, except for a bonus, which gives its points plus 10
    times the level multiplier. *)
Theorem spawnRandomPowerUp_points_and_place (w : World) (n : nat) :
  drawsInRange draws -> 30 <= GameState.height (gameState w) ->
  let level := GameState.difficultyLevel (gameState w) in
  exists p : PowerUp.t,
    spawnRandomPowerUp draws now w n
    = (with_powerUps (powerUps w ++ [p]) w, (n + 4)%nat)
    /\ PowerUp.x p = GameState.width (gameState w)
    /\ PowerUp.width p = 25 /\ PowerUp.height p = 25
    /\ 0 <= PowerUp.y p
    /\ PowerUp.y p <= GameState.height (gameState w) - 30
    /\ scoreGain level p
       == match PowerUp.type p with
          | PowerUpType.bonus =>
            PowerUp.points p + 10 * Qmax 1 (Js.floor level)
          | _ => 2 * PowerUp.points p
          end.
Proof.
  intros Hr HH. cbv zeta.
  unfold spawnRandomPowerUp, mbind, Rand_bind, mret, Rand_ret, mathRandom.
  replace (n + 4)%nat with (S (S (S (S n)))) by lia.
  eexists. split; [reflexivity|].
  cbn [PowerUp.x PowerUp.y PowerUp.width PowerUp.height PowerUp.type
       PowerUp.points].
  split; [reflexivity|]. split; [reflexivity|]. split; [reflexivity|].
  destruct (Hr (S (S n))) as [H0 H1].
  set (ry := draws (S (S n))) in *.
  set (H := GameState.height (gameState w)) in *.
  split; [nra|]. split; [nra|].
  unfold scoreGain.
  cbn [PowerUp.x PowerUp.y PowerUp.width PowerUp.height PowerUp.type
       PowerUp.points PowerUp.rarity].
  set (M := Qmax 1 (Js.floor (GameState.difficultyLevel (gameState w)))).
  destruct (pick (draws n) _ PowerUpType.shield);
    destruct (rarityOfRoll _ _); cbn [rarityMultiplier]; ring.
Qed.

End RandomPowerUps.

Lemma spawnRandomPowerUp_points_and_place_witness :
  exists p : PowerUp.t,
    powerUps (fst (spawnRandomPowerUp halfDraws 0 (initialWorld 0) 0%nat)) = [p]
    /\ (PowerUp.x p, PowerUp.type p, PowerUp.rarity p, PowerUp.points p)
       = (800, PowerUpType.boost, Rarity.rare, 5 * 1 * 2).
Proof.
  destruct (spawnRandomPowerUp_points_and_place halfDraws 0 (initialWorld 0)
              0%nat) as (p & E & _).
  - intros k. unfold halfDraws. split; lra.
  - cbn. lra.
  - vm_compute in E. injection E as <-.
    eexists. split; vm_compute; reflexivity.
Defined.

(** ** The difficulty tunables *)

Section Tunables2.

Lemma applyDifficulty_other (r : Q) (g : GameState.t) :
  let g' := applyDifficulty r g in
  GameState.obstacleSizeMultiplier g' = GameState.obstacleSizeMultiplier g
  /\ GameState.obstacleSpeedMultiplier g' = GameState.obstacleSpeedMultiplier g
  /\ GameState.obstacleCountMultiplier g' = GameState.obstacleCountMultiplier g
  /\ GameState.powerUpRarity g' = GameState.powerUpRarity g
  /\ GameState.width g' = GameState.width g
  /\ GameState.height g' = GameState.height g
  /\ GameState.isGameOver g' = GameState.isGameOver g.
Proof.
  cbv zeta. unfold applyDifficulty.
  repeat match goal with |- context [if ?c then _ else _] => destruct c end;
    repeat split; reflexivity.
Qed.

(** The values of the three formulas at a level between 1 and 20. *)
Lemma newTunables_range (level : Q) :
  1 <= level <= 20 ->
  (2 <= newGameSpeed level /\ newGameSpeed level <= 30)
  /\ (300 <= newObstacleSpawnRate level /\ newObstacleSpawnRate level <= 1400)
  /\ (5000 <= newPowerUpSpawnRate level /\ newPowerUpSpawnRate level <= 9000).
Proof.
  intros HL.
  unfold newGameSpeed, newObstacleSpawnRate, newPowerUpSpawnRate,
    F64.add, F64.sub, F64.mul.
  assert (Hc : 0 <= F64.nearest 1.2) by (vm_compute; discriminate).
  assert (H1 : 0 <= F64.nearest (level * F64.nearest 1.2)).
  { apply nearest_nonneg. apply Qmult_le_0_compat; lra. }
  assert (H2 : 0 <= F64.nearest (level * 60)) by (apply nearest_nonneg; lra).
  assert (H3 : 0 <= F64.nearest (level * 200)) by (apply nearest_nonneg; lra).
  assert (H4 : F64.nearest (level * 200) <= 4000).
  { apply (nearest_le_Z _ 4000); [lia|]. change (inject_Z 4000) with 4000. lra. }
  assert (G1 : 2 <= F64.nearest (2 + F64.nearest (level * F64.nearest 1.2))).
  { apply (nearest_ge_Z _ 2); [lia|]. change (inject_Z 2) with 2. lra. }
  assert (O1 : F64.nearest (1400 - F64.nearest (level * 60)) <= 1400).
  { apply (nearest_le_Z _ 1400); [lia|]. change (inject_Z 1400) with 1400. lra. }
  assert (P1 : 5000 <= F64.nearest (5000 + F64.nearest (level * 200))).
  { apply (nearest_ge_Z _ 5000); [lia|]. change (inject_Z 5000) with 5000. lra. }
  assert (P2 : F64.nearest (5000 + F64.nearest (level * 200)) <= 9000).
  { apply (nearest_le_Z _ 9000); [lia|]. change (inject_Z 9000) with 9000. lra. }
  split; [|split].
  - destruct (Qmin_cases (F64.nearest (2 + F64.nearest (level * F64.nearest 1.2)))
                30) as [[? ->]|[? ->]]; lra.
  - destruct (Qmax_cases (F64.nearest (1400 - F64.nearest (level * 60))) 300)
      as [[? ->]|[? ->]]; lra.
  - destruct (Qmax_cases (F64.nearest (5000 + F64.nearest (level * 200))) 3000)
      as [[? ->]|[? ->]]; lra.
Qed.

Lemma applyDifficulty_tuned (r : Q) (g : GameState.t) :
  1 <= r -> tuned g -> tuned (applyDifficulty r g).
Proof.
  intros Hr ((Hl1 & Hl2) & (Hg1 & Hg2) & (Ho1 & Ho2) & (Hp1 & Hp2)
             & Hm1 & Hm2 & Hm3 & Hm4).
  destruct (applyDifficulty_tunables r g) as (Hg & Ho & Hp).
  destruct (applyDifficulty_other r g) as (E1 & E2 & E3 & E4 & _).
  cbv zeta in *.
  set (level := Qmin r 20) in *.
  assert (Hlevel : 1 <= level /\ level <= 20)
    by (subst level; destruct (Qmin_cases r 20) as [[? ->]|[? ->]]; lra).
  destruct (newTunables_range level Hlevel)
    as ((G1 & G2) & (O1 & O2) & (P1 & P2)).
  unfold tuned. rewrite applyDifficulty_level, E1, E2, E3, E4, Hg, Ho, Hp.
  clear Hg Ho Hp. fold level. split; [exact Hlevel|].
  split; [|split; [|split; [|auto]]].
  - match goal with |- context [if ?c then _ else _] => destruct c end;
      [|auto].
    pose proof (rounded_ge (newGameSpeed level) 2) as R1.
    pose proof (rounded_le (newGameSpeed level) 30) as R2.
    change (inject_Z 2) with 2 in R1. change (inject_Z 30) with 30 in R2.
    split; [|apply R2; [lia|exact G2]].
    assert (2 <= F64.div (Js.round (F64.mul (newGameSpeed level) 100)) 100)
      by (apply R1; [lia|exact G1]).
    lra.
  - match goal with |- context [if ?c then _ else _] => destruct c end;
      [|auto].
    split; lra.
  - match goal with |- context [if ?c then _ else _] => destruct c end;
      [|auto].
    split; lra.
Qed.

Lemma updateDifficulty_tuned (fuel : nat) (g g' : GameState.t) :
  0 <= GameState.score g -> tuned g ->
  updateDifficulty fuel g = Some g' -> tuned g'.
Proof.
  intros Hs Ht. unfold updateDifficulty.
  destruct (levelLoop fuel (GameState.score g) 1 100) as [[L next]|] eqn:El;
    [|discriminate].
  destruct (levelLoop_sound fuel (GameState.score g) 1 100 L next)
    as [HL Hlow]; [lia|reflexivity|rewrite threshold_Z; exact Hs|exact El|].
  cbv zeta. destruct (Js.lt _ _); intros E; injection E as <-; [exact Ht|].
  apply applyDifficulty_tuned; [|exact Ht].
  apply roundedDifficulty_lower; assumption.
Qed.

Lemma updateDifficulty_returns (fuel : nat) (g : GameState.t) :
  0 <= GameState.score g ->
  (Z.to_nat (Qfloor (GameState.score g)) < fuel)%nat ->
  exists g' : GameState.t, updateDifficulty fuel g = Some g'.
Proof.
  intros Hs Hfuel. unfold updateDifficulty.
  destruct (levelLoop_enough fuel (GameState.score g) 1 100)
    as (L & -> & _); [lia|reflexivity|lia|rewrite threshold_Z; exact Hs|].
  cbv zeta. destruct (Js.lt _ _); eexists; reflexivity.
Qed.

(** X16. The difficulty tunables stay in range. From the start of a game,
    through every difficulty update of a game whose score is not negative,
    every power-up collection and every restart: the difficulty level
    stays in [1, 20], the game speed in [1, 30], the obstacle spawn interval
    in [300, 1800] ms and the power-up spawn interval in [5000, 9000] ms,
    while the three obstacle multipliers and the rarity factor stay 1. *)
Theorem tunables_stay_in_range :
  (forall stored : Q, tuned (initialGameState stored))
  /\ (forall w : World, tuned (gameState (resetGame w)))
  /\ (forall (p : PowerUp.t) (w : World),
        tuned (gameState w) -> tuned (gameState (collectPowerUp p w)))
  /\ (forall (fuel : nat) (g g' : GameState.t),
        0 <= GameState.score g -> tuned g ->
        updateDifficulty fuel g = Some g' -> tuned g')
  /\ (forall (fuel : nat) (g : GameState.t),
        0 <= GameState.score g ->
        (Z.to_nat (Qfloor (GameState.score g)) < fuel)%nat ->
        exists g' : GameState.t, updateDifficulty fuel g = Some g').
Proof.
  split; [intros stored; unfold tuned; cbn -[Qle]; conjuncts;
          first [reflexivity | lra]|].
  split; [intros w; unfold tuned; cbn -[Qle]; conjuncts;
          first [reflexivity | lra]|].
  split; [intros p w H; exact H|].
  split; [exact updateDifficulty_tuned|exact updateDifficulty_returns].
Qed.

Lemma tunables_stay_in_range_witness :
  exists g' : GameState.t,
    updateDifficulty 2000 scored250 = Some g'
    /\ tuned g' /\ GameState.difficultyLevel g' == 2.75.
Proof.
  destruct tunables_stay_in_range as (Hinit & _ & _ & Hkeep & Hret).
  destruct (Hret 2000%nat scored250) as (g' & E);
    [vm_compute; discriminate|vm_compute; lia|].
  exists g'. split; [exact E|]. split.
  - apply (Hkeep 2000%nat scored250 g');
      [vm_compute; discriminate| |exact E].
    unfold tuned. cbn -[Qle]. conjuncts; first [reflexivity | lra].
  - vm_compute in E. injection E as <-. vm_compute. reflexivity.
Defined.

End Tunables2.

(** ** A whole frame *)

Section Frames.

Variable sqrt : Q -> Q.
Variable atan2 : Q -> Q -> Q.
Variable draws : nat -> Q.

Lemma with_obstacles_same (w : World) : with_obstacles (obstacles w) w = w.
Proof. destruct w. reflexivity. Qed.

Lemma with_powerUps_same (w : World) : with_powerUps (powerUps w) w = w.
Proof. destruct w. reflexivity. Qed.

(** The shake block is [updateScreenShake] at two numbers, draws of the
    generator whenever it draws. *)
Lemma shakeShip_stage (s : Spaceship.t) (n : nat) :
  exists (r1 r2 : Q) (n' : nat),
    shakeShip draws s n = (updateScreenShake r1 r2 s, n')
    /\ (drawsInRange draws -> (0 <= r1 /\ r1 <= 1) /\ (0 <= r2 /\ r2 <= 1)).
Proof.
  unfold shakeShip.
  destruct (Js.gt (Spaceship.screenShakeIntensity s) 0) eqn:E.
  - exists (draws n), (draws (S n)), (S (S n)). split; [reflexivity|].
    intros Hr. destruct (Hr n), (Hr (S n)). split; split; lra.
  - exists 0, 0, n. split; [|intros _; split; split; lra].
    unfold updateScreenShake. rewrite E. reflexivity.
Qed.

Lemma spawnOne_frame (now : Q) (i : nat) (w : World) (n : nat) :
  exists o : Obstacle.t,
    fst (spawnOne draws now atan2 i w n) = with_obstacles (obstacles w ++ [o]) w.
Proof.
  unfold spawnOne, mbind, Rand_bind, mathRandom.
  destruct (pick (draws (S (S (S n)))) _ SpawnSide.top);
    cbn [fst]; eexists; reflexivity.
Qed.

Lemma spawnBurst_frame (now : Q) (remaining : nat) :
  forall (i : nat) (w : World) (n : nat),
    exists burst : list Obstacle.t,
      fst (spawnBurst draws now atan2 remaining i w n)
      = with_obstacles (obstacles w ++ burst) w
      /\ length burst = remaining.
Proof.
  induction remaining as [|remaining IH]; intros i w n.
  - exists []. rewrite app_nil_r, with_obstacles_same. split; reflexivity.
  - cbn [spawnBurst]. unfold mbind, Rand_bind.
    destruct (spawnOne_frame now i w n) as (o & Eo).
    destruct (spawnOne draws now atan2 i w n) as [w1 n1]. cbn [fst] in Eo.
    subst w1.
    destruct (IH (S i) (with_obstacles (obstacles w ++ [o]) w) n1)
      as (burst & -> & Hlen).
    exists (o :: burst). cbn [obstacles with_obstacles length].
    rewrite <- app_assoc. split; [reflexivity|lia].
Qed.

Lemma spawnObstaclesWhenDue_stage (now : Q) (c : Game) (n : nat) :
  exists burst : list Obstacle.t,
    let w := world c in
    let c' := fst (spawnObstaclesWhenDue atan2 draws now c n) in
    world c' = with_obstacles (obstacles w ++ burst) w
    /\ (burst = []
        \/ (lengthQ (obstacles w)
            < maxObstaclesOnScreen (GameState.difficultyLevel (gameState w))
            /\ length burst
               = obstacleCount (GameState.difficultyLevel (gameState w))))
    /\ keys c' = keys c /\ frameCount c' = frameCount c
    /\ lastPowerUpSpawn c' = lastPowerUpSpawn c
    /\ onGameInfoUpdate c' = onGameInfoUpdate c
    /\ adrift c' = adrift c.
Proof.
  unfold spawnObstaclesWhenDue. cbv zeta.
  match goal with
  | |- context [if ?a && ?b then _ else _] =>
    destruct a; cbn [andb]; [js_cmp b|]
  end.
  - unfold mbind, Rand_bind, mret, Rand_ret, spawnRandomObstacle.
    destruct (spawnBurst_frame now
                (obstacleCount (GameState.difficultyLevel (gameState (world c))))
                0 (world c) n) as (burst & Eb & Hlen).
    match goal with
    | |- context [let (_, _) := ?m in _] => destruct m as [w1 n1]
    end.
    cbn [fst] in Eb |- *. subst w1. exists burst. cbn. auto 10.
  - exists []. rewrite app_nil_r, with_obstacles_same. cbn. auto 10.
  - exists []. rewrite app_nil_r, with_obstacles_same. cbn. auto 10.
Qed.

Lemma spawnPowerUpWhenDue_stage (now : Q) (c : Game) (n : nat) :
  exists fresh : list PowerUp.t,
    let w := world c in
    let c' := fst (spawnPowerUpWhenDue draws now c n) in
    world c' = with_powerUps (powerUps w ++ fresh) w
    /\ (length fresh <= 1)%nat
    /\ keys c' = keys c /\ frameCount c' = frameCount c
    /\ onGameInfoUpdate c' = onGameInfoUpdate c
    /\ adrift c' = adrift c.
Proof.
  unfold spawnPowerUpWhenDue. cbv zeta.
  match goal with |- context [if ?a then _ else _] => destruct a end.
  - unfold mbind, Rand_bind, mret, Rand_ret, spawnRandomPowerUp, mathRandom.
    eexists [_]. cbn. auto 10.
  - exists []. rewrite app_nil_r, with_powerUps_same. cbn. auto 10.
Qed.

(** The stages of one frame of a running game. *)
Lemma updateGame_stages (deltaTime now : Q) (c : Game) (n : nat) :
  GameState.isGameOver (gameState (world c)) = false ->
  exists (r1 r2 : Q) (burst : list Obstacle.t) (fresh : list PowerUp.t)
         (c5 : Game) (n' : nat),
    (forall fuel : nat,
        updateGame sqrt atan2 draws fuel deltaTime now c n
        = (endOfFrame fuel c5, n'))
    /\ (drawsInRange draws -> (0 <= r1 /\ r1 <= 1) /\ (0 <= r2 /\ r2 <= 1))
    /\ let w := world c in
       let level := GameState.difficultyLevel (gameState w) in
       let w1 :=
         updateObstacles sqrt
           (with_ship
              (updateShip (keys c) deltaTime r1 r2 (gameState w) (ship w)) w) in
       let w2 := with_obstacles (obstacles w1 ++ burst) w1 in
       let w3 := fst (updatePowerUps sqrt w2) in
       let w4 := with_powerUps (powerUps w3 ++ fresh) w3 in
       world c5 = checkCollisions w4
       /\ (burst = []
           \/ (lengthQ (obstacles w1) < maxObstaclesOnScreen level
               /\ length burst = obstacleCount level))
       /\ (length fresh <= 1)%nat
       /\ keys c5 = keys c /\ frameCount c5 = frameCount c
       /\ onGameInfoUpdate c5 = onGameInfoUpdate c
       /\ adrift c5 = adrift c ++ snd (updatePowerUps sqrt w2).
Proof.
  intros Hrun.
  destruct (shakeShip_stage (moveShip (keys c) (gameState (world c))
                               (ship (world c))) n)
    as (r1 & r2 & n1 & Es & Hr).
  set (w1 := updateObstacles sqrt
               (with_ship
                  (updateShip (keys c) deltaTime r1 r2 (gameState (world c))
                     (ship (world c))) (world c))).
  destruct (spawnObstaclesWhenDue_stage now (with_world w1 c) n1)
    as (burst & Hb).
  cbv zeta in Hb.
  destruct (spawnObstaclesWhenDue atan2 draws now (with_world w1 c) n1)
    as [c2 n2] eqn:E2.
  cbn [fst world with_world keys frameCount onGameInfoUpdate lastPowerUpSpawn
       adrift] in Hb.
  destruct Hb as (Hw2 & Hburst & Hk2 & Hf2 & _ & Hi2 & Ha2).
  set (c3 := with_adrift (adrift c2 ++ snd (updatePowerUps sqrt (world c2)))
               (with_world (fst (updatePowerUps sqrt (world c2))) c2)).
  destruct (spawnPowerUpWhenDue_stage now c3 n2) as (fresh & Hp).
  cbv zeta in Hp.
  destruct (spawnPowerUpWhenDue draws now c3 n2) as [c4 n3] eqn:E4.
  cbn [fst] in Hp. destruct Hp as (Hw4 & Hfresh & Hk4 & Hf4 & Hi4 & Ha4).
  exists r1, r2, burst, fresh, (with_world (checkCollisions (world c4)) c4), n3.
  split; [|split; [exact Hr|]].
  - intros fuel. unfold updateGame. rewrite Hrun.
    unfold mbind, Rand_bind. rewrite Es.
    change (updateObstacles sqrt
              (with_ship
                 (updateTimers deltaTime
                    (updateBoost (keys c) deltaTime
                       (updateScreenShake r1 r2
                          (moveShip (keys c) (gameState (world c))
                             (ship (world c))))))
                 (world c)))
      with w1.
    rewrite E2. subst c3.
    destruct (updatePowerUps sqrt (world c2)) as [w3 lost].
    cbn [fst snd] in E4. rewrite E4. reflexivity.
  - cbv zeta. fold w1.
    cbn [world with_world keys frameCount onGameInfoUpdate adrift].
    rewrite Hw4. subst c3.
    cbn [world with_world with_adrift keys frameCount onGameInfoUpdate adrift]
      in *.
    rewrite Hw2. split; [reflexivity|].
    split; [exact Hburst|]. split; [exact Hfresh|].
    split; [congruence|]. split; [congruence|]. split; congruence.
Qed.

Lemma endOfFrame_world (fuel : nat) (c c' : Game) :
  endOfFrame fuel c = Some c' ->
  ship (world c') = ship (world c)
  /\ obstacles (world c') = obstacles (world c)
  /\ powerUps (world c') = powerUps (world c)
  /\ starRunHighScore (world c') = starRunHighScore (world c)
  /\ (gameState (world c') = gameState (world c)
      \/ updateDifficulty fuel (gameState (world c))
         = Some (gameState (world c')))
  /\ keys c' = keys c /\ frameCount c' = S (frameCount c)
  /\ adrift c' = adrift c.
Proof.
  unfold endOfFrame. cbv zeta.
  cbn [frameCount with_frameCount world].
  destruct (Nat.eqb (S (frameCount c) mod 60) 0).
  - destruct (updateDifficulty fuel (gameState (world c))) as [g|] eqn:Eg;
      [|discriminate].
    cbn [frameCount with_frameCount with_world world].
    destruct (Nat.eqb (S (frameCount c) mod 30) 0); intros E;
      injection E as <-; cbn; auto 10.
  - cbn [frameCount with_frameCount with_world world].
    destruct (Nat.eqb (S (frameCount c) mod 30) 0); intros E;
      injection E as <-; cbn; auto 10.
Qed.

Lemma endOfFrame_returns (fuel : nat) (c : Game) :
  0 <= GameState.score (gameState (world c)) ->
  (Z.to_nat (Qfloor (GameState.score (gameState (world c)))) < fuel)%nat ->
  exists c' : Game, endOfFrame fuel c = Some c'.
Proof.
  intros Hs Hfuel. unfold endOfFrame. cbv zeta.
  cbn [frameCount with_frameCount world].
  destruct (Nat.eqb (S (frameCount c) mod 60) 0).
  - destruct (updateDifficulty_returns fuel (gameState (world c)) Hs Hfuel)
      as (g & ->).
    match goal with |- context [if ?b then _ else _] => destruct b end;
      eexists; reflexivity.
  - match goal with |- context [if ?b then _ else _] => destruct b end;
      eexists; reflexivity.
Qed.

Lemma scoreKept_nonneg (w : World) :
  scoreKept w -> 0 <= GameState.score (gameState w).
Proof.
  intros ((k & Hk & Ek) & _).
  assert (0 <= inject_Z k)
    by (change 0 with (inject_Z 0); rewrite <- Zle_Qle; exact Hk).
  lra.
Qed.

Lemma hitObstacle_tuned (o : Obstacle.t) (w : World) :
  tuned (gameState w) -> tuned (gameState (fst (hitObstacle o w))).
Proof.
  intros H. unfold hitObstacle.
  repeat match goal with |- context [if ?c then _ else _] => destruct c end;
    exact H.
Qed.

Lemma checkCollisions_tuned (w : World) :
  tuned (gameState w) -> tuned (gameState (checkCollisions w)).
Proof.
  intros H. unfold checkCollisions.
  assert (Ho : forall l w0, tuned (gameState w0) ->
                 tuned (gameState (fst (obstacleCollisions l w0)))).
  { induction l as [|o l IH]; intros w0 H0; [exact H0|].
    cbn [obstacleCollisions].
    destruct (Spaceship.isInvisible (ship w0)); [apply IH, H0|].
    destruct (Spaceship.shield (ship w0)); [apply IH, H0|].
    destruct (overlapsObstacle (ship w0) o); [|apply IH, H0].
    pose proof (hitObstacle_tuned o w0 H0) as H'.
    destruct (hitObstacle o w0) as [w' returned]. cbn [fst] in H'.
    destruct returned; cbn [fst]; [exact H'|apply IH, H']. }
  assert (Hp : forall k w0, tuned (gameState w0) ->
                 tuned (gameState (powerUpCollisions k w0))).
  { induction k as [|k IH]; intros w0 H0; [exact H0|].
    cbn [powerUpCollisions].
    destruct (powerUps w0 !! k) as [p|]; [|exact H0].
    destruct (overlapsPowerUp (ship w0) p); [|apply IH, H0].
    apply IH. exact H0. }
  specialize (Ho (obstacles w) w H).
  destruct (obstacleCollisions (obstacles w) w) as [w' returned].
  cbn [fst] in Ho. destruct returned; [exact Ho|apply Hp, Ho].
Qed.

Lemma wellFormed_same_state (w w' : World) :
  ship w' = ship w -> gameState w' = gameState w ->
  starRunHighScore w' = starRunHighScore w ->
  wellFormed w -> wellFormed w'.
Proof.
  unfold wellFormed, scoreKept. intros -> -> ->. trivial.
Qed.

Lemma checkCollisions_wellFormed (w : World) :
  wellFormed w -> wellFormed (checkCollisions w).
Proof.
  intros (Hc & Hn & Hs & Hk & Ht).
  destruct (checkCollisions_timers w) as [Hc' Hn'].
  split; [auto|]. split; [auto|].
  split; [apply checkCollisions_shakeBounded, Hs|].
  split; [apply checkCollisions_scoreKept, Hk|apply checkCollisions_tuned, Ht].
Qed.

Lemma endOfFrame_wellFormed (fuel : nat) (c c' : Game) :
  endOfFrame fuel c = Some c' ->
  wellFormed (world c) -> wellFormed (world c').
Proof.
  intros E (Hc & Hn & Hs & Hk & Ht).
  destruct (endOfFrame_world fuel c c' E) as (Es & _ & _ & Eh & Eg & _).
  destruct Eg as [Eg|Eg].
  - unfold wellFormed, scoreKept. rewrite Es, Eg, Eh. auto.
  - pose proof (scoreKept_nonneg _ Hk) as H0.
    destruct (updateDifficulty_score fuel _ _ Eg) as [E1 E2].
    unfold wellFormed, scoreKept. rewrite Es, Eh, E1, E2.
    split; [exact Hc|]. split; [exact Hn|]. split; [exact Hs|].
    split; [exact Hk|]. exact (updateDifficulty_tuned fuel _ _ H0 Ht Eg).
Qed.

(** One frame of a running, well-formed game returns, given fuel beyond the
    score it reaches, and its stages are those of [updateGame_stages]. *)
Lemma updateGame_returns (deltaTime now : Q) (c : Game) (n : nat) :
  GameState.isGameOver (gameState (world c)) = false ->
  drawsInRange draws -> wellFormed (world c) ->
  exists (c5 : Game) (n' fuel0 : nat),
    wellFormed (world c5)
    /\ (length (obstacles (world c5))
        <= Nat.max (length (obstacles (world c))) 39)%nat
    /\ (length (powerUps (world c5)) <= S (length (powerUps (world c))))%nat
    /\ (length (powerUps (world c5)) + length (adrift c5)
        <= S (length (powerUps (world c)) + length (adrift c)))%nat
    /\ keys c5 = keys c /\ frameCount c5 = frameCount c
    /\ forall fuel : nat,
         (fuel0 <= fuel)%nat ->
         exists c' : Game,
           updateGame sqrt atan2 draws fuel deltaTime now c n = (Some c', n')
           /\ endOfFrame fuel c5 = Some c'.
Proof.
  intros Hrun Hr Hw.
  destruct (updateGame_stages deltaTime now c n Hrun)
    as (r1 & r2 & burst & fresh & c5 & n' & Hu & Hrange & H5).
  destruct (Hrange Hr) as [[Hr1 Hr1'] [Hr2 Hr2']]. clear Hrange.
  cbv zeta in H5.
  set (sa := updateShip (keys c) deltaTime r1 r2 (gameState (world c))
               (ship (world c))) in *.
  set (w1 := updateObstacles sqrt (with_ship sa (world c))) in *.
  set (w2 := with_obstacles (obstacles w1 ++ burst) w1) in *.
  set (w3 := fst (updatePowerUps sqrt w2)) in *.
  set (w4 := with_powerUps (powerUps w3 ++ fresh) w3) in *.
  destruct H5 as (E5 & Hburst & Hfresh & Hk & Hf & _ & Ha).
  assert (Hwa : wellFormed (with_ship sa (world c))).
  { destruct Hw as (Hc & Hn & Hs & Hsk & Ht).
    destruct (updateShip_timers (keys c) deltaTime r1 r2
                (gameState (world c)) (ship (world c))) as [Hc' Hn'].
    split; [apply Hc', Hc|]. split; [apply Hn', Hn|].
    split; [apply updateShip_shakeBounded; assumption|].
    split; [exact Hsk|exact Ht]. }
  assert (E3 : ship w3 = ship w2 /\ gameState w3 = gameState w2
               /\ starRunHighScore w3 = starRunHighScore w2
               /\ obstacles w3 = obstacles w2).
  { unfold w3. rewrite updatePowerUps_spec. repeat split; reflexivity. }
  destruct E3 as (E3s & E3g & E3h & E3o).
  assert (Hw4 : wellFormed w4).
  { revert Hwa. apply wellFormed_same_state.
    - change (ship w4) with (ship w3). rewrite E3s. reflexivity.
    - change (gameState w4) with (gameState w3). rewrite E3g. reflexivity.
    - change (starRunHighScore w4) with (starRunHighScore w3). rewrite E3h.
      reflexivity. }
  assert (Hw5 : wellFormed (world c5))
    by (rewrite E5; apply checkCollisions_wellFormed, Hw4).
  exists c5, n',
    (S (Z.to_nat (Qfloor (GameState.score (gameState (world c5)))))).
  assert (Hp : (length (powerUps (checkCollisions w4))
                <= length (powerUps w4))%nat).
  { unfold checkCollisions.
    pose proof (obstacleCollisions_frame (obstacles w4) w4) as [_ Ep].
    destruct (obstacleCollisions (obstacles w4) w4) as [wa returned].
    cbn [fst] in Ep. destruct returned; [rewrite Ep; lia|].
    destruct (powerUpCollisions_pre (powerUps wa) [] wa) as (-> & _);
      [rewrite app_nil_r; reflexivity|].
    rewrite app_nil_r, <- Ep. apply List.filter_length_le. }
  assert (H3 : (length (powerUps w3) + length (snd (updatePowerUps sqrt w2))
                <= length (powerUps (world c)))%nat).
  { unfold w3. rewrite updatePowerUps_spec. cbn [fst snd powerUps with_powerUps].
    exact (kept_and_lost_length sqrt (ship w2) (gameState w2)
             (powerUps (world c))). }
  assert (H4 : length (powerUps w4) = (length (powerUps w3) + length fresh)%nat).
  { change (powerUps w4) with (powerUps w3 ++ fresh). apply length_app. }
  split; [exact Hw5|].
  split; [|split; [|split; [|split; [exact Hk|split; [exact Hf|]]]]].
  - rewrite E5, checkCollisions_obstacles.
    replace (obstacles w4) with (obstacles w1 ++ burst)
      by (change (obstacles w4) with (obstacles w3); rewrite E3o; reflexivity).
    rewrite length_app.
    assert (H1 : (length (obstacles w1) <= length (obstacles (world c)))%nat).
    { exact (updateObstacles_length sqrt (with_ship sa (world c))). }
    destruct Hburst as [->|[Hcap Hcount]]; [cbn [length]; lia|].
    rewrite Hcount.
    assert (Hcap' : (length (obstacles w1) < 35)%nat).
    { unfold lengthQ, maxObstaclesOnScreen in Hcap.
      assert (H35 : inject_Z (Z.of_nat (length (obstacles w1))) < inject_Z 35).
      { change (inject_Z 35) with 35.
        match type of Hcap with
        | context [Qmin ?a ?b] =>
          destruct (Qmin_cases a b) as [[? E]|[? E]]; rewrite E in Hcap; lra
        end. }
      rewrite <- Zlt_Qlt in H35. lia. }
    assert (Hc5 : forall level, (obstacleCount level <= 5)%nat).
    { intros level. unfold obstacleCount.
      repeat match goal with |- context [if ?b then _ else _] => destruct b end;
        lia. }
    match goal with |- context [obstacleCount ?l] => specialize (Hc5 l) end.
    lia.
  - rewrite E5. lia.
  - rewrite E5, Ha, length_app. lia.
  - intros fuel Hfuel.
    destruct (endOfFrame_returns fuel c5) as (c' & Ec);
      [apply scoreKept_nonneg; apply Hw5|lia|].
    exists c'. rewrite Hu, Ec. split; reflexivity.
Qed.

Lemma initialWorld_wellFormed (stored : Q) :
  0 <= stored -> wellFormed (initialWorld stored).
Proof.
  intros Hs. unfold wellFormed.
  split; [unfold timersConsistent; cbn; conjuncts; reflexivity|].
  split; [unfold timersNonNegative; cbn -[Qle]; conjuncts; lra|].
  split; [split; [left; repeat split|cbn -[Qle]; split; split; lra]|].
  split.
  - unfold scoreKept, initialWorld, initialGameState.
    cbn [gameState starRunHighScore GameState.score GameState.highScore].
    split; [exists 0%Z; split; [lia|reflexivity]|].
    unfold Js.or, Js.truthy, Js.truthy_number.
    destruct (Qeq_bool stored 0) eqn:E; cbn [negb];
      [apply Qeq_bool_eq in E|]; split; lra.
  - unfold tuned. cbn -[Qle]. conjuncts; first [reflexivity | lra].
Qed.

Lemma resetGame_wellFormed (w : World) :
  wellFormed w -> wellFormed (resetGame w).
Proof.
  intros (_ & _ & _ & ((k & Hk & Ek) & Hh & Hs) & _). unfold wellFormed.
  split; [unfold timersConsistent; cbn; conjuncts; reflexivity|].
  split; [unfold timersNonNegative; cbn -[Qle]; conjuncts; lra|].
  split; [split; [left; repeat split|cbn -[Qle]; split; split; lra]|].
  split.
  - unfold scoreKept.
    cbn [resetGame gameState starRunHighScore with_powerUps with_obstacles
         with_ship with_gameState GameState.score GameState.highScore].
    split; [exists 0%Z; split; [lia|reflexivity]|].
    split; [|exact Hs].
    assert (0 <= inject_Z k) by (change 0 with (inject_Z 0);
                                 rewrite <- Zle_Qle; exact Hk).
    lra.
  - unfold tuned. cbn -[Qle]. conjuncts; first [reflexivity | lra].
Qed.

(** X17. Every frame keeps the game well-formed. A game is well-formed at
    its start (for a stored best score that is not negative) and after a
    restart; and from a well-formed game, with draws in [0, 1), a call of
    [updateGame] returns (its level loop ends) with a game that is again
    well-formed: flags agreeing with their timers, no negative timer, the
    shake in range, the score a multiple of 10 at most the high score, and
    the tunables in range. The keys held are left alone. *)
Theorem frames_keep_the_game_wellFormed (deltaTime now : Q) (c : Game)
    (n : nat) :
  drawsInRange draws -> wellFormed (world c) ->
  wellFormed (resetGame (world c))
  /\ exists n' fuel0 : nat,
       forall fuel : nat,
         (fuel0 <= fuel)%nat ->
         exists c' : Game,
           updateGame sqrt atan2 draws fuel deltaTime now c n = (Some c', n')
           /\ wellFormed (world c') /\ keys c' = keys c.
Proof.
  intros Hr Hw. split; [apply resetGame_wellFormed, Hw|].
  destruct (GameState.isGameOver (gameState (world c))) eqn:Hrun.
  - exists n, 0%nat. intros fuel _. exists c.
    unfold updateGame. rewrite Hrun. auto.
  - destruct (updateGame_returns deltaTime now c n Hrun Hr Hw)
      as (c5 & n' & fuel0 & Hw5 & _ & _ & _ & Hk & _ & Hret).
    exists n', fuel0. intros fuel Hfuel.
    destruct (Hret fuel Hfuel) as (c' & Eu & Ee).
    exists c'. split; [exact Eu|].
    split; [exact (endOfFrame_wellFormed fuel c5 c' Ee Hw5)|].
    destruct (endOfFrame_world fuel c5 c' Ee) as (_ & _ & _ & _ & _ & Ek & _).
    congruence.
Qed.

(** X18. The obstacle cap can be overshot by 4. The spawner tests the cap
    (at most 35) before it adds a burst of up to 5, so a frame of a
    well-formed game leaves at most 39 obstacles, or as many as there were
    if that is more; and it adds at most one power-up, to the power-ups in
    the field as to the whole array (those in the field and those adrift).
    The frame counter advances by one while the game runs. *)
Theorem frame_obstacle_count (deltaTime now : Q) (c : Game) (n : nat) :
  drawsInRange draws -> wellFormed (world c) ->
  GameState.isGameOver (gameState (world c)) = false ->
  exists n' fuel0 : nat,
    forall fuel : nat,
      (fuel0 <= fuel)%nat ->
      exists c' : Game,
        updateGame sqrt atan2 draws fuel deltaTime now c n = (Some c', n')
        /\ (length (obstacles (world c'))
            <= Nat.max (length (obstacles (world c))) 39)%nat
        /\ (length (powerUps (world c')) <= S (length (powerUps (world c))))%nat
        /\ (length (powerUps (world c')) + length (adrift c')
            <= S (length (powerUps (world c)) + length (adrift c)))%nat
        /\ frameCount c' = S (frameCount c).
Proof.
  intros Hr Hw Hrun.
  destruct (updateGame_returns deltaTime now c n Hrun Hr Hw)
    as (c5 & n' & fuel0 & _ & Ho & Hp & Hpa & _ & Hf & Hret).
  exists n', fuel0. intros fuel Hfuel.
  destruct (Hret fuel Hfuel) as (c' & Eu & Ee).
  exists c'. split; [exact Eu|].
  destruct (endOfFrame_world fuel c5 c' Ee)
    as (_ & Eo & Ep & _ & _ & _ & Ef & Ea).
  rewrite Eo, Ep, Ef, Ea, Hf. auto.
Qed.

End Frames.

Lemma frames_keep_the_game_wellFormed_witness :
  wellFormed (resetGame (world (initialGame 0)))
  /\ exists n' fuel0 : nat,
       forall fuel : nat,
         (fuel0 <= fuel)%nat ->
         exists c' : Game,
           updateGame flatSqrt flatAtan2 halfDraws fuel 16 10000
             (initialGame 0) 0%nat = (Some c', n')
           /\ wellFormed (world c') /\ keys c' = keys (initialGame 0).
Proof.
  apply (frames_keep_the_game_wellFormed flatSqrt flatAtan2 halfDraws 16
           10000 (initialGame 0) 0%nat).
  - intros k. unfold halfDraws. split; lra.
  - apply initialWorld_wellFormed. lra.
Defined.

Lemma frame_obstacle_count_witness :
  exists n' fuel0 : nat,
    forall fuel : nat,
      (fuel0 <= fuel)%nat ->
      exists c' : Game,
        updateGame flatSqrt flatAtan2 halfDraws fuel 16 10000
          (initialGame 0) 0%nat = (Some c', n')
        /\ (length (obstacles (world c'))
            <= Nat.max (length (obstacles (world (initialGame 0)))) 39)%nat
        /\ (length (powerUps (world c'))
            <= S (length (powerUps (world (initialGame 0)))))%nat
        /\ (length (powerUps (world c')) + length (adrift c')
            <= S (length (powerUps (world (initialGame 0)))
                  + length (adrift (initialGame 0))))%nat
        /\ frameCount c' = S (frameCount (initialGame 0)).
Proof.
  apply (frame_obstacle_count flatSqrt flatAtan2 halfDraws 16 10000
           (initialGame 0) 0%nat).
  - intros k. unfold halfDraws. split; lra.
  - apply initialWorld_wellFormed. lra.
  - reflexivity.
Defined.

(** ** Boost time *)

Section BoostTime.

Lemma updateShip_boostTime (keys : gset string) (deltaTime r1 r2 : Q)
    (g : GameState.t) (s : Spaceship.t) :
  Spaceship.boostTime (updateShip keys deltaTime r1 r2 g s)
  = (if has "Space" keys && Js.gt (Spaceship.boostTime s) 0
     then Qmax 0 (Spaceship.boostTime s - deltaTime)
     else Spaceship.boostTime s).
Proof.
  unfold updateShip.
  set (s1 := updateScreenShake r1 r2 (moveShip keys g s)).
  assert (E1 : Spaceship.boostTime s1 = Spaceship.boostTime s).
  { subst s1. unfold updateScreenShake, moveShip.
    cbn [Spaceship.screenShakeIntensity Spaceship.set_x Spaceship.set_y
         Spaceship.set_screenShakeX Spaceship.set_screenShakeY
         Spaceship.set_screenShakeIntensity].
    repeat match goal with |- context [if ?c then _ else _] => destruct c end;
      reflexivity. }
  rewrite <- E1. clearbody s1. clear E1.
  set (s2 := updateBoost keys deltaTime s1).
  assert (E2 : Spaceship.boostTime s2
               = (if has "Space" keys && Js.gt (Spaceship.boostTime s1) 0
                  then Qmax 0 (Spaceship.boostTime s1 - deltaTime)
                  else Spaceship.boostTime s1)).
  { subst s2. unfold updateBoost.
    destruct (has "Space" keys && Js.gt (Spaceship.boostTime s1) 0);
      reflexivity. }
  rewrite <- E2. clearbody s2. clear E2.
  apply (updateTimers_preserves
           (fun s' => Spaceship.boostTime s' = Spaceship.boostTime s2));
    [intros s0 H; rewrite <- H; unfold timerBlock;
     match goal with |- context [if ?c then _ else _] => destruct c end;
     reflexivity..|reflexivity].
Qed.

Lemma spaceTime_nonneg (frames : list Frame.t) :
  Forall (fun f => 0 <= Frame.deltaTime f) frames -> 0 <= spaceTime frames.
Proof.
  unfold spaceTime. induction 1 as [|f frames Hdt _ IH]; cbn [fold_right];
    [lra|]. destruct (has "Space" (Frame.keys f)); lra.
Qed.

(** X19. Boost time is spent by holding Space, and by nothing else. Over
    any sequence of frames with frame times that are not negative, the
    boost time left is what there was minus the time Space was held, but
    not below 0; releasing Space keeps what is left. *)
Theorem boost_drains_while_space_is_held (frames : list Frame.t)
    (s : Spaceship.t) :
  0 <= Spaceship.boostTime s ->
  Forall (fun f => 0 <= Frame.deltaTime f) frames ->
  Spaceship.boostTime (shipFrames frames s)
  == Qmax 0 (Spaceship.boostTime s - spaceTime frames).
Proof.
  intros Hb Hf. revert s Hb.
  induction Hf as [|f frames Hdt Hfs IH]; intros s Hb.
  - change (shipFrames [] s) with s. unfold spaceTime. cbn [fold_right].
    destruct (Qmax_cases 0 (Spaceship.boostTime s - 0)) as [[? ->]|[? ->]];
      lra.
  - rewrite shipFrames_cons.
    set (s1 := updateShip (Frame.keys f) (Frame.deltaTime f) (Frame.r1 f)
                 (Frame.r2 f) (Frame.gameState f) s).
    assert (E1 : Spaceship.boostTime s1
                 == Qmax 0 (Spaceship.boostTime s
                            - (if has "Space" (Frame.keys f)
                               then Frame.deltaTime f else 0))).
    { subst s1. rewrite updateShip_boostTime.
      destruct (has "Space" (Frame.keys f)); cbn [andb].
      - js_cmp (Js.gt (Spaceship.boostTime s) 0); [reflexivity|].
        destruct (Qmax_cases 0 (Spaceship.boostTime s - Frame.deltaTime f))
          as [[? ->]|[? ->]]; lra.
      - destruct (Qmax_cases 0 (Spaceship.boostTime s - 0))
          as [[? ->]|[? ->]]; lra. }
    assert (Hb1 : 0 <= Spaceship.boostTime s1)
      by (rewrite E1; apply Qmax_0_nonneg).
    rewrite (IH s1 Hb1).
    change (spaceTime (f :: frames))
      with ((if has "Space" (Frame.keys f) then Frame.deltaTime f else 0)
            + spaceTime frames).
    set (a := if has "Space" (Frame.keys f) then Frame.deltaTime f else 0) in *.
    assert (Ha : 0 <= a) by (subst a; destruct (has _ _); lra).
    pose proof (spaceTime_nonneg frames Hfs) as Hrest.
    set (rest := spaceTime frames) in *.
    destruct (Qmax_cases 0 (Spaceship.boostTime s - a)) as [[? E]|[? E]];
      rewrite E in E1;
      destruct (Qmax_cases 0 (Spaceship.boostTime s1 - rest))
        as [[? ->]|[? ->]];
      destruct (Qmax_cases 0 (Spaceship.boostTime s - (a + rest)))
        as [[? ->]|[? ->]]; lra.
Qed.

Lemma boost_drains_while_space_is_held_witness :
  Spaceship.boostTime
    (shipFrames [spaceFrame 2000; idleFrame; spaceFrame 2000] boostedShip)
  == 1000.
Proof.
  rewrite (boost_drains_while_space_is_held
             [spaceFrame 2000; idleFrame; spaceFrame 2000] boostedShip).
  - vm_compute. reflexivity.
  - vm_compute. discriminate.
  - repeat constructor; vm_compute; discriminate.
Defined.

End BoostTime.

(** ** The keyboard *)

Section Keyboard.

Lemma dispatch_keys (c : Game) (e : KeyEvent) :
  keys (dispatch c e) ⊆ physical (keys c) e
  /\ (GameState.isGameOver (gameState (world c)) = false ->
      keys (dispatch c e) = physical (keys c) e
      /\ world (dispatch c e) = world c).
Proof.
  destruct e as [code|code]; cbn [dispatch physical].
  - unfold handleKeyDown.
    destruct (GameState.isGameOver (gameState (world c))).
    + split; [|discriminate].
      destruct (String.eqb code "Space"); cbn [keys resetComponent
        with_lastPowerUpSpawn with_lastObstacleSpawn with_frameCount
        with_world]; apply union_subseteq_r.
    + split; [reflexivity|]. intros _. split; reflexivity.
  - unfold handleKeyUp. cbn [keys with_keys world].
    split; [reflexivity|]. intros _. split; reflexivity.
Qed.

Lemma physical_mono (held held' : gset string) (e : KeyEvent) :
  held ⊆ held' -> physical held e ⊆ physical held' e.
Proof.
  intros H. destruct e as [code|code]; cbn [physical]; intros x.
  - rewrite !elem_of_union. intros [Hx|Hx]; auto.
  - rewrite !elem_of_difference. intros [Hx Hn]. auto.
Qed.

(** X20. No key is stuck. After any sequence of key presses and releases
    the game holds no key that is not physically held: presses are ignored
    while the game is over (Space then restarts it, other keys do
    nothing), releases never are. While the game runs the two sets agree
    and the listeners leave the world alone. *)
Theorem keys_are_never_stuck (events : list KeyEvent) (c : Game) :
  keys (fold_left dispatch events c) ⊆ fold_left physical events (keys c)
  /\ (GameState.isGameOver (gameState (world c)) = false ->
      keys (fold_left dispatch events c) = fold_left physical events (keys c)
      /\ world (fold_left dispatch events c) = world c).
Proof.
  split.
  - assert (H : forall held, keys c ⊆ held ->
                  keys (fold_left dispatch events c)
                  ⊆ fold_left physical events held).
    { revert c. induction events as [|e events IH]; intros c held Hc;
        [exact Hc|].
      cbn [fold_left]. apply IH.
      destruct (dispatch_keys c e) as [Hd _].
      etransitivity; [exact Hd|]. apply physical_mono, Hc. }
    apply H. reflexivity.
  - revert c. induction events as [|e events IH]; intros c Hrun;
      [split; reflexivity|].
    cbn [fold_left].
    destruct (dispatch_keys c e) as [_ Hd].
    destruct (Hd Hrun) as [Ek Ew].
    destruct (IH (dispatch c e)) as [Ek' Ew']; [rewrite Ew; exact Hrun|].
    rewrite Ek', Ew', Ek, Ew. split; reflexivity.
Qed.

Lemma keys_are_never_stuck_witness :
  keys (fold_left dispatch [KeyDown "ArrowLeft"; KeyDown "Space";
                            KeyUp "ArrowLeft"] (initialGame 0))
  = {[ "Space" ]}.
Proof.
  destruct (keys_are_never_stuck
              [KeyDown "ArrowLeft"; KeyDown "Space"; KeyUp "ArrowLeft"]
              (initialGame 0)) as [_ H].
  destruct (H eq_refl) as [-> _]. vm_compute. reflexivity.
Defined.

End Keyboard.

(** ** The magnet and the separation of obstacles *)

Section Forces.

Variable sqrt : Q -> Q.



End Forces.



(** ** The first levels *)

Section EarlyLevels.

Variable draws : nat -> Q.
Variable now : Q.
Variable atan2 : Q -> Q -> Q.

Lemma pick_base (r : Q) :
  let type :=
    pick r [ObstacleType.asteroid; ObstacleType.debris; ObstacleType.enemy]
      ObstacleType.asteroid in
  type = ObstacleType.asteroid \/ type = ObstacleType.debris
  \/ type = ObstacleType.enemy.
Proof.
  cbv zeta. unfold pick.
  destruct (Z.to_nat _) as [|[|[|k]]]; cbn; auto.
  destruct k; auto.
Qed.

Lemma spawnOne_gentle (i : nat) (w : World) (n : nat) :
  GameState.difficultyLevel (gameState w) <= 3 ->
  exists o : Obstacle.t,
    fst (spawnOne draws now atan2 i w n) = with_obstacles (obstacles w ++ [o]) w
    /\ gentle o.
Proof.
  intros Hl. apply gt_false in Hl.
  unfold spawnOne, mbind, Rand_bind, mathRandom, availableObstacleTypes.
  rewrite Hl.
  destruct (pick (draws (S (S (S n)))) _ SpawnSide.top);
    cbn [fst]; (eexists; split; [reflexivity|]); unfold gentle, damageOf;
    cbn [Obstacle.type Obstacle.damage];
    destruct (pick_base (draws n)) as [E|[E|E]]; cbv zeta in E; rewrite E;
    (split; [auto|reflexivity]).
Qed.

Lemma spawnBurst_gentle (remaining : nat) :
  forall (i : nat) (w : World) (n : nat),
    GameState.difficultyLevel (gameState w) <= 3 ->
    exists burst : list Obstacle.t,
      fst (spawnBurst draws now atan2 remaining i w n)
      = with_obstacles (obstacles w ++ burst) w
      /\ Forall gentle burst.
Proof.
  induction remaining as [|remaining IH]; intros i w n Hl.
  - exists []. rewrite app_nil_r. destruct w. split; [reflexivity|constructor].
  - cbn [spawnBurst]. unfold mbind, Rand_bind.
    destruct (spawnOne_gentle i w n Hl) as (o & Eo & Ho).
    destruct (spawnOne draws now atan2 i w n) as [w1 n1]. cbn [fst] in Eo.
    subst w1.
    destruct (IH (S i) (with_obstacles (obstacles w ++ [o]) w) n1 Hl)
      as (burst & -> & Hb).
    exists (o :: burst). cbn [obstacles with_obstacles].
    rewrite <- app_assoc. split; [reflexivity|]. constructor; assumption.
Qed.

Lemma hitObstacle_whole_health (o : Obstacle.t) (w : World) :
  damageOf o = 1 ->
  (exists k : Z, (0 <= k)%Z /\ Spaceship.health (ship w) == inject_Z k) ->
  exists k : Z,
    (0 <= k)%Z
    /\ Spaceship.health (ship (fst (hitObstacle o w))) == inject_Z k.
Proof.
  intros Hd (k & Hk & Ek). unfold hitObstacle. fold (damageOf o). rewrite Hd.
  cbn [ship with_ship Spaceship.health Spaceship.set_screenShakeIntensity
       Spaceship.set_health].
  js_cmp (Js.gt (Spaceship.health (ship w)) 0).
  - assert (Hk1 : (1 <= k)%Z).
    { rewrite Ek in E. change 0 with (inject_Z 0) in E.
      rewrite <- Zlt_Qlt in E. lia. }
    exists (k - 1)%Z. split; [lia|].
    match goal with |- context [if ?c then _ else _] => destruct c end;
      cbn; unfold Zminus; rewrite inject_Z_plus, inject_Z_opp;
      change (inject_Z 1) with 1; lra.
  - exists k. split; [exact Hk|]. cbn. exact Ek.
Qed.

(** X23. Up to level 3 the craft's health cannot go below 0. At a
    difficulty level of at most 3 every obstacle of [spawnRandomObstacle]
    is an asteroid, a debris or an enemy and deals a damage of 1; and under
    hits of damage 1, from the start of a game, health stays a whole number
    that is not negative: the hit that ends the game leaves exactly 0. *)
Theorem health_is_whole_up_to_level_3 (w : World) (n : nat) (stored : Q)
    (ops : list CraftOp) :
  GameState.difficultyLevel (gameState w) <= 3 ->
  (forall o, In (Damage o) ops -> damageOf o = 1) ->
  (exists burst : list Obstacle.t,
      fst (spawnRandomObstacle draws now atan2 w n)
      = with_obstacles (obstacles w ++ burst) w
      /\ Forall gentle burst)
  /\ exists k : Z,
       (0 <= k)%Z
       /\ Spaceship.health (ship (runOps ops (initialWorld stored)))
          == inject_Z k.
Proof.
  intros Hl Hops. split; [apply spawnBurst_gentle, Hl|].
  assert (H : forall w0,
             (exists k : Z, (0 <= k)%Z
                            /\ Spaceship.health (ship w0) == inject_Z k) ->
             exists k : Z, (0 <= k)%Z
                           /\ Spaceship.health (ship (runOps ops w0))
                              == inject_Z k).
  { induction ops as [|op ops IH]; intros w0 H0; [exact H0|].
    change (runOps (op :: ops) w0) with (runOps ops (applyOp w0 op)).
    apply IH; [intros o Ho; apply Hops; right; exact Ho|].
    destruct op as [o|p]; cbn [applyOp].
    - apply hitObstacle_whole_health; [apply Hops; left; reflexivity|exact H0].
    - rewrite collectPowerUp_ship.
      destruct (applyEffect_health (PowerUp.type p) (ship w0)) as [-> _].
      exact H0. }
  apply H. exists 100%Z. split; [lia|reflexivity].
Qed.

End EarlyLevels.

Lemma health_is_whole_up_to_level_3_witness :
  Forall gentle (spawnedAt 2)
  /\ Spaceship.health (ship (runOps manyGentleHits (initialWorld 0))) == 0.
Proof.
  destruct (health_is_whole_up_to_level_3 halfDraws 0 flatAtan2
              (worldAtLevel 2) 0%nat 0 manyGentleHits)
    as ((burst & Eb & Hb) & _).
  - vm_compute. discriminate.
  - intros o Ho. unfold manyGentleHits in Ho. apply repeat_spec in Ho.
    injection Ho as ->. reflexivity.
  - split; [|vm_compute; reflexivity].
    unfold spawnedAt. rewrite Eb. exact Hb.
Defined.

(** ** The first frame of a game *)

Section FirstFrame.

Variable atan2 : Q -> Q -> Q.
Variable draws : nat -> Q.

(** X24. A game starts with an obstacle and a power-up. A restart sets the
    times of the last spawns to 0, as they are when the component is
    mounted, while the spawners compare them with [Date.now()]: for any
    clock reading above 5000 ms the first frame after a restart adds one
    obstacle to the empty list and then one power-up, and records the
    reading, so that a second pass at the same reading adds nothing. *)
Theorem restart_spawns_at_once (now : Q) (c : Game) (n : nat) :
  5000 < now ->
  exists (o : Obstacle.t) (p : PowerUp.t) (c1 c2 : Game) (n1 n2 : nat),
    spawnObstaclesWhenDue atan2 draws now (resetComponent c) n = (c1, n1)
    /\ obstacles (world c1) = [o] /\ lastObstacleSpawn c1 = now
    /\ spawnPowerUpWhenDue draws now c1 n1 = (c2, n2)
    /\ obstacles (world c2) = [o] /\ powerUps (world c2) = [p]
    /\ lastPowerUpSpawn c2 = now
    /\ spawnObstaclesWhenDue atan2 draws now c2 n2 = (c2, n2)
    /\ spawnPowerUpWhenDue draws now c2 n2 = (c2, n2).
Proof.
  intros Hnow.
  assert (E1 : Js.gt (now - 0) 1800 = true) by (apply gt_true; lra).
  assert (E2 : Js.gt (now - 0) 5000 = true) by (apply gt_true; lra).
  assert (E3 : Js.gt (now - now) 1800 = false) by (apply gt_false; lra).
  assert (E4 : Js.gt (now - now) 5000 = false) by (apply gt_false; lra).
  assert (S1 : exists (o : Obstacle.t) (n1 : nat),
             spawnObstaclesWhenDue atan2 draws now (resetComponent c) n
             = (with_lastObstacleSpawn now
                  (with_world (with_obstacles [o] (resetGame (world c)))
                     (resetComponent c)), n1)).
  { unfold spawnObstaclesWhenDue.
    change (lastObstacleSpawn (resetComponent c)) with 0.
    change (GameState.obstacleSpawnRate
              (gameState (world (resetComponent c)))) with 1800.
    rewrite E1.
    change (Js.lt (lengthQ (obstacles (world (resetComponent c))))
              (maxObstaclesOnScreen
                 (GameState.difficultyLevel
                    (gameState (world (resetComponent c)))))) with true.
    cbn [andb]. unfold mbind, Rand_bind, mret, Rand_ret, spawnRandomObstacle.
    change (obstacleCount
              (GameState.difficultyLevel
                 (gameState (world (resetComponent c))))) with 1%nat.
    cbn [spawnBurst]. unfold mbind, Rand_bind, mret, Rand_ret.
    destruct (spawnOne_frame atan2 draws now 0 (world (resetComponent c)) n)
      as (o & Eo).
    destruct (spawnOne draws now atan2 0 (world (resetComponent c)) n)
      as [w1 m1].
    cbn [fst] in Eo. subst w1. exists o, m1. reflexivity. }
  destruct S1 as (o & n1 & S1).
  set (c1 := with_lastObstacleSpawn now
               (with_world (with_obstacles [o] (resetGame (world c)))
                  (resetComponent c))) in *.
  assert (S2 : exists (p : PowerUp.t) (n2 : nat),
             spawnPowerUpWhenDue draws now c1 n1
             = (with_lastPowerUpSpawn now
                  (with_world (with_powerUps [p] (world c1)) c1), n2)).
  { unfold spawnPowerUpWhenDue.
    change (lastPowerUpSpawn c1) with 0.
    change (GameState.powerUpSpawnRate (gameState (world c1))) with 5000.
    rewrite E2.
    unfold mbind, Rand_bind, mret, Rand_ret, spawnRandomPowerUp, mathRandom.
    eexists _, _. reflexivity. }
  destruct S2 as (p & n2 & S2).
  set (c2 := with_lastPowerUpSpawn now
               (with_world (with_powerUps [p] (world c1)) c1)) in *.
  exists o, p, c1, c2, n1, n2.
  split; [exact S1|]. split; [reflexivity|]. split; [reflexivity|].
  split; [exact S2|]. split; [reflexivity|]. split; [reflexivity|].
  split; [reflexivity|]. split.
  - unfold spawnObstaclesWhenDue.
    change (lastObstacleSpawn c2) with now.
    change (GameState.obstacleSpawnRate (gameState (world c2))) with 1800.
    rewrite E3. reflexivity.
  - unfold spawnPowerUpWhenDue.
    change (lastPowerUpSpawn c2) with now.
    change (GameState.powerUpSpawnRate (gameState (world c2))) with 5000.
    rewrite E4. reflexivity.
Qed.

End FirstFrame.

Lemma restart_spawns_at_once_witness :
  length (obstacles (world (fst (spawnObstaclesWhenDue flatAtan2 halfDraws
                                   10000 (resetComponent (initialGame 0))
                                   0%nat))))
  = 1%nat.
Proof.
  destruct (restart_spawns_at_once flatAtan2 halfDraws 10000 (initialGame 0)
              0%nat) as (o & p & c1 & c2 & n1 & n2 & E & Eo & _);
    [reflexivity|].
  rewrite E. cbn [fst]. rewrite Eo. reflexivity.
Defined.

(** ** The snapshot for the page *)

Section Snapshot.

(** X25. The progress bar of the snapshot. For a game with its tunables in
    range, the level reported to the page is the whole part [L] of the
    difficulty level, between 1 and 20, and the progress towards the next
    level lies in [0, 100]: it is the share, in percent, of the [100 * L]
    points between the thresholds of [L] and [L + 1] that the score has
    covered, 0 below the first and 100 above the second. *)
Theorem snapshot_progress (w : World) :
  tuned (gameState w) ->
  let info := gameInfoOf w in
  let L := Qfloor (GameState.difficultyLevel (gameState w)) in
  let score := GameState.score (gameState w) in
  GameInfo.level info = inject_Z L /\ (1 <= L <= 20)%Z
  /\ (0 <= GameInfo.nextLevelProgress info
      /\ GameInfo.nextLevelProgress info <= 100)
  /\ (threshold L <= score -> score <= threshold (L + 1) ->
      GameInfo.nextLevelProgress info == (score - threshold L) / inject_Z L)
  /\ (score <= threshold L -> GameInfo.nextLevelProgress info == 0)
  /\ (threshold (L + 1) <= score -> GameInfo.nextLevelProgress info == 100).
Proof.
  intros ((Hl1 & Hl20) & _). cbv zeta.
  set (L := Qfloor (GameState.difficultyLevel (gameState w))).
  assert (HL : (1 <= L <= 20)%Z).
  { subst L. split.
    - rewrite <- (Qfloor_Z 1). apply Qfloor_resp_le. exact Hl1.
    - rewrite <- (Qfloor_Z 20). apply Qfloor_resp_le. exact Hl20. }
  assert (HL1 : 1 <= inject_Z L)
    by (change 1 with (inject_Z 1); rewrite <- Zle_Qle; lia).
  assert (HL0 : ~ inject_Z L == 0) by lra.
  unfold gameInfoOf.
  cbn [GameInfo.level GameInfo.nextLevelProgress]. unfold Js.floor. fold L.
  set (score := GameState.score (gameState w)).
  set (raw := (score
               - (if Qeq_bool (inject_Z L) 1 then 0
                  else 100 * (inject_Z L - 1) * inject_Z L / 2))
              / (100 * inject_Z L) * 100).
  assert (Eraw : raw == (score - threshold L) / inject_Z L).
  { subst raw. unfold threshold.
    destruct (Qeq_bool (inject_Z L) 1) eqn:E.
    - apply Qeq_bool_eq in E. rewrite E. field.
    - field. exact HL0. }
  assert (Enext : threshold (L + 1) == threshold L + 100 * inject_Z L).
  { unfold threshold. rewrite inject_Z_plus. change (inject_Z 1) with 1.
    field. }
  assert (Hpos : raw * inject_Z L == score - threshold L)
    by (rewrite Eraw; field; exact HL0).
  split; [reflexivity|]. split; [exact HL|].
  destruct (Qmax_cases 0 raw) as [[H0 E0]|[H0 E0]]; rewrite E0;
    destruct (Qmin_cases 100 raw) as [[H1 E1]|[H1 E1]];
    destruct (Qmin_cases 100 0) as [[H2 E2]|[H2 E2]];
    rewrite ?E1, ?E2;
    (split; [split; lra|]);
    (split; [intros Ha Hb|split; intros Ha]);
    try rewrite <- Eraw; try nra; try lra.
Qed.

Lemma snapshot_progress_witness :
  GameInfo.nextLevelProgress
    (gameInfoOf (with_gameState (GameState.set_score 50 (initialGameState 0))
                   (initialWorld 0)))
  == 50.
Proof.
  destruct (snapshot_progress
              (with_gameState (GameState.set_score 50 (initialGameState 0))
                 (initialWorld 0))) as (_ & _ & _ & H & _).
  - unfold tuned. cbn -[Qle]. conjuncts; first [reflexivity | lra].
  - rewrite H; vm_compute; (reflexivity || discriminate).
Defined.

End Snapshot.
